(** * The file-backed job queue of the Streamlit front end

    A shallow embedding of [streamlit_app/job_manager.py] (the job store) and
    [streamlit_app/job_worker.py] (the polling worker, its heartbeat and its
    retention sweeper), followed by the properties of the queue.

    Conventions of the embedding.
    - Wall-clock readings ([time.time()], directory modification times) are
      integers; every reading comes from the environment.
    - A Python call either returns or raises: [Result].
    - A job is the dict stored in [job.json].  Its keys are the ones
      [create_job] writes, each with the type [create_job] gives it.  [None]
      stands for a missing key, which the code reads through [dict.get] or
      [dict.setdefault] with a default; under [last_error], which
      [create_job] writes as null and the code only copies, it stands for a
      null as well.
    - The records of the model are the well-typed ones.  A null or a value of
      another type under [attempts], [progress_history] or [worker_notes],
      and a document that is not a dict, are outside the model: no code of
      the repository writes one, and on such a record [int(...)], [.append]
      and [+=] raise where [update_job] and the worker of the model go on.
      Every statement below is about well-typed records.
    - The jobs directory is the list of its entries in enumeration order (the
      order of [Path.iterdir()]), each entry under its name.
    - Everything the operating system or the detection pipeline decides (a
      write that fails, a rename that fails, what the pipeline reports and how
      it ends) is an input of the model. *)

From Stdlib Require Import ZArith List String Bool Lia Permutation Sorted.
Import ListNotations.
Local Open Scope Z_scope.

(* ------------------------------------------------------------------ *)
(** ** Python outcomes and files *)

Module Py.

Inductive Exn : Type :=
| OSError
| FileNotFoundError
| FileExistsError
| JSONDecodeError
| TypeError.

Inductive Result (A : Type) : Type :=
| Return (a : A)
| Raise (e : Exn).
Arguments Return {A} a.
Arguments Raise {A} e.

(** A file of the job directory: missing, present with an incomplete or
    unparseable document, or present with a document. *)
Inductive File (A : Type) : Type :=
| Absent
| Garbled
| Holds (a : A).
Arguments Absent {A}.
Arguments Garbled {A}.
Arguments Holds {A} a.

Definition exists_ {A} (f : File A) : bool :=
  match f with Absent => false | _ => true end.

(** What the medium does with one [write_text]: the open can fail (nothing
    changes), the write can fail after the open truncated the file, or the
    whole text is written. *)
Inductive WriteOutcome : Type :=
| Written
| OpenFails
| WriteFails.

Definition write_text {A} (o : WriteOutcome) (data : A) (f : File A)
  : File A * Result unit :=
  match o with
  | Written => (Holds data, Return tt)
  | OpenFails => (f, Raise OSError)
  | WriteFails => (Garbled, Raise OSError)
  end.

(** [os.replace(src, dst)]: on success [dst] takes the content of [src] and
    [src] is gone. *)
Definition os_replace {A} (ok : bool) (src dst : File A)
  : (File A * File A) * Result unit :=
  match src with
  | Absent => ((src, dst), Raise FileNotFoundError)
  | _ => if ok then ((Absent, src), Return tt) else ((src, dst), Raise OSError)
  end.

(** The small JSON values the queue passes through without looking inside. *)
Inductive Value : Type :=
| VNull
| VBool (b : bool)
| VNum (z : Z)
| VStr (s : string)
| VMap (kv : list (string * string)).

Definition truthy (v : Value) : bool :=
  match v with
  | VNull => false
  | VBool b => b
  | VNum z => negb (z =? 0)
  | VStr s => negb (String.eqb s "")
  | VMap kv => match kv with [] => false | _ => true end
  end.

Fixpoint dict_get {V} (k : string) (d : list (string * V)) : option V :=
  match d with
  | [] => None
  | (k', v) :: d' => if String.eqb k k' then Some v else dict_get k d'
  end.

End Py.
Import Py.

(* ------------------------------------------------------------------ *)
(** ** Job records *)

Record ProgressEntry : Type := mkProgress {
  ts : Z;
  progress : Value
}.

Definition Params := list (string * Value).

Record Job : Type := mkJob {
  id : option string;
  status : option string;
  created_at : option Z;
  updated_at : option Z;
  attempts : option Z;
  progress_history : option (list ProgressEntry);
  last_error : option string;
  mock_mode : option bool;
  params : option Params;
  input_files : option (list (option string));
  output_files : option (list Value);
  worker_notes : option string;
  message : option string
}.

(** The empty dict [{}]. *)
Definition empty_job : Job :=
  mkJob None None None None None None None None None None None None None.

Definition set_status (v : option string) (j : Job) : Job :=
  mkJob (id j) v (created_at j) (updated_at j) (attempts j)
        (progress_history j) (last_error j) (mock_mode j) (params j)
        (input_files j) (output_files j) (worker_notes j) (message j).

Definition set_updated_at (v : option Z) (j : Job) : Job :=
  mkJob (id j) (status j) (created_at j) v (attempts j)
        (progress_history j) (last_error j) (mock_mode j) (params j)
        (input_files j) (output_files j) (worker_notes j) (message j).

Definition set_attempts (v : option Z) (j : Job) : Job :=
  mkJob (id j) (status j) (created_at j) (updated_at j) v
        (progress_history j) (last_error j) (mock_mode j) (params j)
        (input_files j) (output_files j) (worker_notes j) (message j).

Definition set_progress_history (v : option (list ProgressEntry)) (j : Job) : Job :=
  mkJob (id j) (status j) (created_at j) (updated_at j) (attempts j)
        v (last_error j) (mock_mode j) (params j)
        (input_files j) (output_files j) (worker_notes j) (message j).

Definition set_last_error (v : option string) (j : Job) : Job :=
  mkJob (id j) (status j) (created_at j) (updated_at j) (attempts j)
        (progress_history j) v (mock_mode j) (params j)
        (input_files j) (output_files j) (worker_notes j) (message j).

Definition set_output_files (v : option (list Value)) (j : Job) : Job :=
  mkJob (id j) (status j) (created_at j) (updated_at j) (attempts j)
        (progress_history j) (last_error j) (mock_mode j) (params j)
        (input_files j) v (worker_notes j) (message j).

Definition set_worker_notes (v : option string) (j : Job) : Job :=
  mkJob (id j) (status j) (created_at j) (updated_at j) (attempts j)
        (progress_history j) (last_error j) (mock_mode j) (params j)
        (input_files j) (output_files j) v (message j).

Definition set_message (v : option string) (j : Job) : Job :=
  mkJob (id j) (status j) (created_at j) (updated_at j) (attempts j)
        (progress_history j) (last_error j) (mock_mode j) (params j)
        (input_files j) (output_files j) (worker_notes j) v.

Definition is_none {A} (o : option A) : bool :=
  match o with None => true | Some _ => false end.

(** [not job]: a dict is falsy exactly when it has no key. *)
Definition falsy (j : Job) : bool :=
  is_none (id j) && is_none (status j) && is_none (created_at j)
  && is_none (updated_at j) && is_none (attempts j)
  && is_none (progress_history j) && is_none (last_error j)
  && is_none (mock_mode j) && is_none (params j) && is_none (input_files j)
  && is_none (output_files j) && is_none (worker_notes j)
  && is_none (message j).

(** [status == s] *)
Definition status_is (s : string) (j : Job) : bool :=
  match status j with
  | Some s' => String.eqb s' s
  | None => false
  end.

(** [int(job.get("attempts", 0))], for a missing key or a number (on a null
    or a non-numeric value [int] raises; such records are outside the
    model). *)
Definition attempts_of (j : Job) : Z :=
  match attempts j with Some a => a | None => 0 end.

(** [job.get("progress_history")] after [setdefault("progress_history", [])],
    for a missing key or a list. *)
Definition history_of (j : Job) : list ProgressEntry :=
  match progress_history j with Some h => h | None => [] end.

(** [l[-n:]] for a positive [n]. *)
Definition last_n {A} (n : nat) (l : list A) : list A :=
  skipn (List.length l - n)%nat l.

(* ------------------------------------------------------------------ *)
(** ** The jobs directory *)

Record JobDir : Type := mkJobDir {
  job_json : File Job;        (* job.json *)
  job_json_tmp : File Job;    (* job.json.tmp *)
  lock : bool;                (* .lock exists *)
  st_mtime : Z                (* modification time of the directory itself *)
}.

Inductive Node : Type :=
| RegularFile (mtime : Z)
| Directory (d : JobDir).

Definition Store := list (string * Node).

Definition node_mtime (n : Node) : Z :=
  match n with RegularFile m => m | Directory d => st_mtime d end.

Fixpoint lookup (name : string) (s : Store) : option Node :=
  match s with
  | [] => None
  | (k, n) :: s' => if String.eqb name k then Some n else lookup name s'
  end.

(** Replace what is stored under [name]. *)
Fixpoint put (name : string) (n : Node) (s : Store) : Store :=
  match s with
  | [] => []
  | (k, n') :: s' =>
      if String.eqb name k then (k, n) :: put name n s' else (k, n') :: put name n s'
  end.

(** Remove the entry [name]. *)
Definition remove (name : string) (s : Store) : Store :=
  filter (fun kn => negb (String.eqb name (fst kn))) s.

Definition names (s : Store) : list string := map fst s.

Definition with_job_json (f : File Job) (d : JobDir) : JobDir :=
  mkJobDir f (job_json_tmp d) (lock d) (st_mtime d).

Definition with_tmp (f : File Job) (d : JobDir) : JobDir :=
  mkJobDir (job_json d) f (lock d) (st_mtime d).

Definition with_lock (b : bool) (d : JobDir) : JobDir :=
  mkJobDir (job_json d) (job_json_tmp d) b (st_mtime d).

(** Creating, renaming or removing an entry of a directory stamps the
    directory with the current time. *)
Definition touch (now : Z) (d : JobDir) : JobDir :=
  mkJobDir (job_json d) (job_json_tmp d) (lock d) now.

Definition touch_if (b : bool) (now : Z) (d : JobDir) : JobDir :=
  if b then touch now d else d.

(* ------------------------------------------------------------------ *)
(** ** job_manager.py *)

Module JobManager.

(** What the medium does during one atomic save: [json.dumps], the write of
    the temporary file, the rename, and the direct write of the fallback. *)
Record SaveFault : Type := mkSaveFault {
  dumps_raises : bool;
  tmp_write : WriteOutcome;
  replace_ok : bool;
  direct_write : WriteOutcome
}.

Definition no_fault : SaveFault := mkSaveFault false Written true Written.

(** The body shared by [create_job] and [save_job]:
<<
    tmp.write_text(json.dumps(data, indent=2), encoding="utf-8")
    try:
        os.replace(str(tmp), str(jf))
    except Exception:
        jf.write_text(json.dumps(data, indent=2), encoding="utf-8")
>> *)
Definition write_job_json (f : SaveFault) (now : Z) (data : Job) (d : JobDir)
  : JobDir * Result unit :=
  if dumps_raises f then (d, Raise TypeError) else
  let '(tmp1, r1) := write_text (tmp_write f) data (job_json_tmp d) in
  let created := negb (exists_ (job_json_tmp d)) && exists_ tmp1 in
  let d1 := touch_if created now (with_tmp tmp1 d) in
  match r1 with
  | Raise e => (d1, Raise e)
  | Return _ =>
      let '((tmp2, jf2), r2) := os_replace (replace_ok f) tmp1 (job_json d1) in
      match r2 with
      | Return _ => (touch now (with_job_json jf2 (with_tmp tmp2 d1)), Return tt)
      | Raise _ =>
          let '(jf3, r3) := write_text (direct_write f) data (job_json d1) in
          let created3 := negb (exists_ (job_json d1)) && exists_ jf3 in
          (touch_if created3 now (with_job_json jf3 d1), r3)
      end
  end.

(** [load_job] *)
Definition load_job (job_id : string) (s : Store) : Result Job :=
  match lookup job_id s with
  | Some (Directory d) =>
      match job_json d with
      | Absent => Raise FileNotFoundError
      | Garbled => Raise JSONDecodeError
      | Holds j => Return j
      end
  | _ => Raise FileNotFoundError
  end.

(** [save_job]: the whole body sits in [try ... except Exception: pass]. *)
Definition save_job (f : SaveFault) (now : Z) (job_id : string) (data : Job)
  (s : Store) : Store * Result unit :=
  match lookup job_id s with
  | Some (Directory d) =>
      let '(d', _) := write_job_json f now data d in
      (put job_id (Directory d') s, Return tt)
  | _ => (s, Return tt)
  end.

(** What [create_job] hands back: the id, or the failure-shaped dict of its
    [except] branch. *)
Record FailureDict : Type := mkFailure {
  f_status : string;
  f_message : string
}.

Inductive Created : Type :=
| JobId (job_id : string)
| Failure (d : FailureDict).

Definition initial_meta (job_id : string) (now : Z)
  (uploaded_files : list (option string)) (parameters : Params) : Job :=
  mkJob (Some job_id) (Some "QUEUED"%string) (Some now) (Some now) (Some 0)
        (Some []) None
        (Some match dict_get "mock_mode" parameters with
              | Some v => truthy v
              | None => false
              end)
        (Some parameters) (Some uploaded_files) (Some []) (Some ""%string)
        (Some ""%string).

Definition new_dir (now : Z) : JobDir := mkJobDir Absent Absent false now.

(** [create_job]; [uuid] is the value of [uuid.uuid4().hex], [mkdir_ok] tells
    whether [jd.mkdir(parents=True, exist_ok=True)] can create the directory. *)
Definition create_job (uuid : string) (mkdir_ok : bool) (f : SaveFault) (now : Z)
  (uploaded_files : list (option string)) (parameters : Params) (s : Store)
  : Store * Result Created :=
  let failed := Return (Failure (mkFailure "FAILED" "Failed creating job")) in
  let made :=
    match lookup uuid s with
    | Some (Directory d) => Some (s, d)
    | Some (RegularFile _) => None
    | None =>
        if mkdir_ok
        then Some (s ++ [(uuid, Directory (new_dir now))], new_dir now)
        else None
    end in
  match made with
  | None => (s, failed)
  | Some (s1, d) =>
      let meta := initial_meta uuid now uploaded_files parameters in
      let '(d', r) := write_job_json f now meta d in
      (put uuid (Directory d') s1,
       match r with Return _ => Return (JobId uuid) | Raise _ => failed end)
  end.

(** The keyword arguments of [update_job]: [progress] and [result_files] are
    appended, any other key is assigned. *)
Inductive Kwarg : Type :=
| kw_progress (v : Value)
| kw_result_files (v : Value)
| kw_status (v : string)
| kw_message (v : string)
| kw_last_error (v : string)
| kw_worker_notes (v : string)
| kw_attempts (v : Z).

Definition apply_kwarg (now : Z) (job : Job) (kw : Kwarg) : Job :=
  match kw with
  | kw_progress v =>
      set_progress_history (Some (history_of job ++ [mkProgress now v])) job
  | kw_result_files v =>
      set_output_files
        (Some (match output_files job with Some l => l | None => [] end ++ [v])) job
  | kw_status v => set_status (Some v) job
  | kw_message v => set_message (Some v) job
  | kw_last_error v => set_last_error (Some v) job
  | kw_worker_notes v => set_worker_notes (Some v) job
  | kw_attempts v => set_attempts (Some v) job
  end.

Inductive Updated : Type :=
| UpdatedJob (job : Job)
| UpdateFailure (d : FailureDict).

(** [update_job].  Only the load stands in a [try]; the loop over the keyword
    arguments and [int(job.get("attempts", 0))] stand outside every [try] and
    raise on an ill-typed record or keyword value.  The model covers the
    well-typed ones ([Kwarg] gives each keyword the type [create_job] gives
    the key), on which they do not raise. *)
Definition update_job (f : SaveFault) (now : Z) (job_id : string)
  (kwargs : list Kwarg) (s : Store) : Store * Result Updated :=
  match load_job job_id s with
  | Raise _ =>
      (s, Return (UpdateFailure
                    (mkFailure "FAILED" (String.append "Job not found: " job_id))))
  | Return job0 =>
      let job1 := fold_left (apply_kwarg now) kwargs job0 in
      let job2 := set_updated_at (Some now) job1 in
      let job3 := set_attempts (Some (attempts_of job2)) job2 in
      let '(s', _) := save_job f now job_id job3 s in
      (s', Return (UpdatedJob job3))
  end.

(** [sorted(xs, key=key, reverse=True)]: descending, and stable (elements
    with equal keys keep their order). *)
Fixpoint insert_desc {A} (key : A -> Z) (x : A) (l : list A) : list A :=
  match l with
  | [] => [x]
  | y :: l' => if key x <? key y then y :: insert_desc key x l' else x :: l
  end.

Definition sorted_reverse {A} (key : A -> Z) (l : list A) : list A :=
  fold_right (insert_desc key) [] l.

(** The body of the loop of [list_jobs]: the record of an entry whose
    [job.json] exists and parses. *)
Definition readable (kn : string * Node) : list Job :=
  match snd kn with
  | Directory d => match job_json d with Holds j => [j] | _ => [] end
  | RegularFile _ => []
  end.

(** [list_jobs] *)
Definition list_jobs (s : Store) : list Job :=
  flat_map readable (sorted_reverse (fun kn => node_mtime (snd kn)) s).

End JobManager.

(* ------------------------------------------------------------------ *)
(** ** job_worker.py *)

Module JobWorker.
Import JobManager.

Definition DEFAULT_POLL_INTERVAL : Z := 2.
Definition RETENTION_HOURS : Z := 48.
Definition MAX_ATTEMPTS : Z := 2.
Definition MAX_COMPLETED_JOBS : nat := 50.
Definition MAX_JOB_AGE_DAYS : Z := 7.
Definition CLEANUP_INTERVAL : Z := 300.

Definition nl : string := String (Ascii.ascii_of_nat 10) EmptyString.

(** *** The environment *)

(** The value the pipeline call hands back when it is a dict. *)
Record Res : Type := mkRes {
  res_message : option string;
  csv_bytes : option string;     (* a str or bytes value under "csv_bytes" *)
  plots_zip : option string      (* a str or bytes value under "plots_zip" *)
}.

(** How one call of [run_detection_and_collect] ends: it returns (a dict or
    something else), raises an [Exception] ([str(exc)] and the formatted
    traceback), or is cut short by a [BaseException] that no
    [except Exception] catches (a keyboard interrupt). *)
Inductive Ending : Type :=
| Returned (res : option Res)
| Raised (exc : string) (tb : string)
| Interrupted.

(** One call of the pipeline: the progress messages it reports through the
    callback, in order, and its ending. *)
Record PipelineRun : Type := mkRun {
  reports : list Value;
  ending : Ending
}.

(** Saving the artifacts: which of [out_folder.mkdir], the write of
    [results.csv] and the write of [plots.zip] raises, with [str(e)]. *)
Record ArtifactFault : Type := mkArtifactFault {
  mkdir_raises : option string;
  csv_raises : option string;
  plots_raises : option string
}.

(** Deleting a job directory: which entries resist [unlink]/[rmdir];
    [keep_other] stands for the input and output folders and whatever else
    the pipeline left there. *)
Record DelFault : Type := mkDelFault {
  keep_json : bool;
  keep_tmp : bool;
  keep_lock : bool;
  keep_other : bool
}.

(** Everything the outside decides at one step of the worker. *)
Record Answer : Type := mkAnswer {
  now : Z;                    (* time.time() *)
  save : SaveFault;           (* the atomic write of this step *)
  lock_write : WriteOutcome;  (* lock_file.write_text *)
  unlink_ok : bool;           (* an unlink of this step succeeds *)
  run : PipelineRun;          (* the pipeline call of this step *)
  artifacts : ArtifactFault;
  del : DelFault
}.

(** The environment answers the worker's steps in order. *)
Definition Env := nat -> Answer.

(** *** The worker's view of the disk *)

Record Heartbeat : Type := mkHeartbeat {
  hb_ts : Z;
  hb_pid : Z;
  hb_uptime : Z;
  hb_status : string;
  hb_last_job_id : option string;
  hb_last_job_attempts : Z;
  hb_last_error : option string
}.

(** What the worker has done to a job directory (kept for the statements
    only; the code has no such record). *)
Inductive Event : Type :=
| Claimed (name : string)      (* the lock marker was acquired *)
| Invoked (name : string).     (* the pipeline was called *)

Record World : Type := mkWorld {
  jobs : Store;                         (* JOBS_DIR *)
  heartbeat : File Heartbeat;           (* HEARTBEAT_FILE *)
  heartbeat_tmp : File Heartbeat;
  pid_file : File Z;                    (* PID_FILE *)
  pid_tmp : File Z;
  clock : nat;                          (* steps answered so far *)
  trace : list Event
}.

Definition with_jobs (s : Store) (w : World) : World :=
  mkWorld s (heartbeat w) (heartbeat_tmp w) (pid_file w) (pid_tmp w)
          (clock w) (trace w).

Definition with_heartbeat (h t : File Heartbeat) (w : World) : World :=
  mkWorld (jobs w) h t (pid_file w) (pid_tmp w) (clock w) (trace w).

Definition with_pid (p t : File Z) (w : World) : World :=
  mkWorld (jobs w) (heartbeat w) (heartbeat_tmp w) p t (clock w) (trace w).

Definition record (e : Event) (w : World) : World :=
  mkWorld (jobs w) (heartbeat w) (heartbeat_tmp w) (pid_file w) (pid_tmp w)
          (clock w) (trace w ++ [e]).

(** The local variables of [run_worker_loop]. *)
Record Locals : Type := mkLocals {
  start_time : Z;
  last_job_id : option string;
  last_job_attempts : Z;
  w_last_error : option string;    (* last_error *)
  last_cleanup : Z
}.

Definition truthy_time (t : option Z) : bool :=
  match t with Some c => negb (c =? 0) | None => false end.

Definition or_zero (t : option Z) : Z :=
  match t with Some c => c | None => 0 end.

(** [_atomic_write]: the first write is outside the [try]. *)
Definition _atomic_write {A} (f : SaveFault) (data : A) (path tmp : File A)
  : (File A * File A) * Result unit :=
  let '(tmp1, r1) := write_text (tmp_write f) data tmp in
  match r1 with
  | Raise e => ((path, tmp1), Raise e)
  | Return _ =>
      let '((tmp2, path2), r2) := os_replace (replace_ok f) tmp1 path in
      match r2 with
      | Return _ => ((path2, tmp2), Return tt)
      | Raise _ =>
          let '(path3, r3) := write_text (direct_write f) data path in
          ((path3, tmp1), r3)
      end
  end.

(** The recursive delete used by the sweeps: every entry is unlinked on a
    best-effort basis, then [jd.rmdir()] succeeds only on an empty
    directory. *)
Definition rmtree (f : DelFault) (t : Z) (name : string) (s : Store) : Store :=
  match lookup name s with
  | Some (Directory d) =>
      let json' := if keep_json f then job_json d else Absent in
      let tmp' := if keep_tmp f then job_json_tmp d else Absent in
      let lock' := lock d && keep_lock f in
      let changed :=
        (exists_ (job_json d) && negb (keep_json f))
        || (exists_ (job_json_tmp d) && negb (keep_tmp f))
        || (lock d && negb (keep_lock f)) in
      if negb (exists_ json') && negb (exists_ tmp') && negb lock'
         && negb (keep_other f)
      then remove name s
      else put name
             (Directory (touch_if changed t
                           (mkJobDir json' tmp' lock' (st_mtime d))))
             s
  | _ => s
  end.

Definition terminal (j : Job) : bool :=
  status_is "COMPLETED" j || status_is "FAILED" j.

Section Worker.

Variable env : Env.

(** The next answer of the environment. *)
Definition ask (w : World) : Answer * World :=
  (env (clock w),
   mkWorld (jobs w) (heartbeat w) (heartbeat_tmp w) (pid_file w) (pid_tmp w)
           (S (clock w)) (trace w)).

(** The jobs of a listing that are COMPLETED or FAILED, with their
    [created_at]; the uncaught [load_job] makes the whole listing raise. *)
Fixpoint gather (listing : list string) (s : Store)
  : Result (list (string * option Z)) :=
  match listing with
  | [] => Return []
  | name :: rest =>
      match lookup name s with
      | Some (Directory _) =>
          match load_job name s with
          | Raise e => Raise e
          | Return meta =>
              match gather rest s with
              | Raise e => Raise e
              | Return l =>
                  if falsy meta then Return l
                  else if terminal meta then Return ((name, created_at meta) :: l)
                  else Return l
              end
          end
      | _ => gather rest s
      end
  end.

Definition by_created (x : string * option Z) : Z := or_zero (snd x).

(** The loop "Delete by age first". *)
Fixpoint delete_by_age (cutoff : Z) (l : list (string * option Z)) (w : World)
  : World :=
  match l with
  | [] => w
  | (name, created) :: rest =>
      if truthy_time created && (or_zero created <? cutoff) then
        let '(a, w1) := ask w in
        delete_by_age cutoff rest
          (with_jobs (rmtree (del a) (now a) name (jobs w1)) w1)
      else delete_by_age cutoff rest w
  end.

(** The loop over [jobs_sorted[max_jobs:]]. *)
Fixpoint prune (l : list (string * option Z)) (w : World) : World :=
  match l with
  | [] => w
  | (name, _) :: rest =>
      let '(a, w1) := ask w in
      prune rest (with_jobs (rmtree (del a) (now a) name (jobs w1)) w1)
  end.

(** [_cleanup_jobs]; the log files pruned at its end are not part of the
    world. *)
Definition _cleanup_jobs (max_jobs : nat) (max_age_days : Z) (w : World)
  : World :=
  match gather (names (jobs w)) (jobs w) with
  | Raise _ => w
  | Return found =>
      let jobs_sorted := sorted_reverse by_created found in
      let '(a, w1) := ask w in
      let cutoff := now a - max_age_days * 86400 in
      let w2 := delete_by_age cutoff jobs_sorted w1 in
      match gather (names (jobs w2)) (jobs w2) with
      | Raise _ => w2
      | Return found2 =>
          prune (skipn max_jobs (sorted_reverse by_created found2)) w2
      end
  end.

(** The retention pass at the end of each poll cycle. *)
Fixpoint retention (cutoff : Z) (listing : list string) (w : World) : World :=
  match listing with
  | [] => w
  | name :: rest =>
      match lookup name (jobs w) with
      | Some (Directory _) =>
          match load_job name (jobs w) with
          | Raise _ => retention cutoff rest w
          | Return meta =>
              if falsy meta then retention cutoff rest w
              else if (terminal meta || status_is "CANCELLED" meta)
                      && truthy_time (created_at meta)
                      && (or_zero (created_at meta) <? cutoff)
              then
                let '(a, w1) := ask w in
                retention cutoff rest
                  (with_jobs (rmtree (del a) (now a) name (jobs w1)) w1)
              else retention cutoff rest w
          end
      | _ => retention cutoff rest w
      end
  end.

(** The body of [progress_hook] on the job dict it closes over. *)
Definition hooked (t : Z) (p : Value) (job : Job) : Job :=
  let h := history_of job ++ [mkProgress t p] in
  let h' := if (100 <? Z.of_nat (List.length h)) then last_n 100 h else h in
  set_updated_at (Some t) (set_progress_history (Some h') job).

Definition progress_hook (name : string) (p : Value)
  (st : Job * Locals * World) : Job * Locals * World :=
  let '(job, loc, w) := st in
  let '(a, w1) := ask w in
  let job' := hooked (now a) p job in
  let '(s', _) := save_job (save a) (now a) name job' (jobs w1) in
  (job',
   mkLocals (start_time loc) (id job') (attempts_of job') (w_last_error loc)
            (last_cleanup loc),
   with_jobs s' w1).

(** "bump attempt counter" *)
Definition claimed (t : Z) (job : Job) : Job :=
  set_updated_at (Some t)
    (set_status (Some "RUNNING"%string)
       (set_attempts (Some (attempts_of job + 1)) job)).

Definition csv_path (name : string) : string :=
  String.append name "/output/results.csv".
Definition plots_path (name : string) : string :=
  String.append name "/output/plots.zip".

(** The [try] block that writes the artifacts: the paths recorded in
    [results] and the exception it caught, if any. *)
Definition save_artifacts (f : ArtifactFault) (name : string) (res : option Res)
  : list string * option string :=
  match mkdir_raises f with
  | Some e => ([], Some e)
  | None =>
      let csv := match res with Some r => csv_bytes r | None => None end in
      let plots := match res with Some r => plots_zip r | None => None end in
      let '(results1, e1) :=
        match csv with
        | Some _ =>
            match csv_raises f with
            | Some e => ([], Some e)
            | None => ([csv_path name], None)
            end
        | None => ([], None)
        end in
      match e1 with
      | Some e => (results1, Some e)
      | None =>
          match plots with
          | Some _ =>
              match plots_raises f with
              | Some e => (results1, Some e)
              | None => (results1 ++ [plots_path name], None)
              end
          | None => (results1, None)
          end
      end
  end.

(** The worker notes after [job.setdefault("worker_notes", "")], for a missing
    key or a string. *)
Definition notes_of (j : Job) : string :=
  match worker_notes j with Some n => n | None => ""%string end.

(** "Successful run": the dict handed to the last [save_job]. *)
Definition completed (a : Answer) (name : string) (res : option Res) (job : Job)
  : Job :=
  let msg :=
    match res with
    | Some r => match res_message r with Some m => m | None => "Run completed"%string end
    | None => "Run completed"%string
    end in
  let job1 := set_message (Some msg) (set_status (Some "COMPLETED"%string) job) in
  let '(results, err) := save_artifacts (artifacts a) name res in
  let job2 :=
    match err with
    | Some e =>
        set_worker_notes
          (Some (String.append (notes_of job1)
                   (String.append nl (String.append "Artifact save error: " e))))
          job1
    | None => job1
    end in
  set_updated_at (Some (now a))
    (set_output_files (Some (map VStr results)) job2).

(** The [except Exception as exc] branch: requeue or mark failed. *)
Definition failed (t : Z) (exc tb : string) (job : Job) : Job :=
  if attempts_of job <? MAX_ATTEMPTS then
    set_updated_at (Some t)
      (set_worker_notes
         (Some (String.append (notes_of job)
                  (String.append nl (String.append "Retrying after error: " exc))))
         (set_message (Some exc)
            (set_last_error (Some tb) (set_status (Some "QUEUED"%string) job))))
  else
    set_updated_at (Some t)
      (set_message (Some exc)
         (set_last_error (Some tb) (set_status (Some "FAILED"%string) job))).

(** The [finally] of a job: remove the lock marker if it is there. *)
Definition release_lock (name : string) (w : World) : World :=
  match lookup name (jobs w) with
  | Some (Directory d) =>
      if lock d then
        let '(a, w1) := ask w in
        if unlink_ok a
        then with_jobs
               (put name (Directory (touch (now a) (with_lock false d))) (jobs w1))
               w1
        else w1
      else w
  | _ => w
  end.

Definition with_last_error (e : option string) (loc : Locals) : Locals :=
  mkLocals (start_time loc) (last_job_id loc) (last_job_attempts loc) e
           (last_cleanup loc).

Definition with_last_cleanup (t : Z) (loc : Locals) : Locals :=
  mkLocals (start_time loc) (last_job_id loc) (last_job_attempts loc)
           (w_last_error loc) t.

(** One claimed job, from "bump attempt counter" to the end of the
    [finally]; the flag tells that the pipeline call was interrupted.  The
    bump and the save that follows it stand between the write of the lock
    marker and the [try]: on a record whose [attempts] is a null or not a
    number [int] raises there, the marker stays and the loop ends.  The model
    covers the records whose [attempts] is missing or a number. *)
Definition process_job (name : string) (job : Job) (loc : Locals) (w : World)
  : bool * Locals * World :=
  let '(a0, w0) := ask w in
  let job1 := claimed (now a0) job in
  let '(s1, _) := save_job (save a0) (now a0) name job1 (jobs w0) in
  let '(a1, w1) := ask (with_jobs s1 w0) in
  let '(job2, loc2, w2) :=
    fold_left (fun st p => progress_hook name p st) (reports (run a1))
              (job1, loc, record (Invoked name) w1) in
  match ending (run a1) with
  | Returned res =>
      let '(a2, w3) := ask w2 in
      let job3 := completed a2 name res job2 in
      let '(s3, _) := save_job (save a2) (now a2) name job3 (jobs w3) in
      (false, loc2, release_lock name (with_jobs s3 w3))
  | Raised exc tb =>
      let '(a2, w3) := ask w2 in
      let job3 := failed (now a2) exc tb job2 in
      let '(s3, _) := save_job (save a2) (now a2) name job3 (jobs w3) in
      (false, with_last_error (Some tb) loc2,
       release_lock name (with_jobs s3 w3))
  | Interrupted => (true, loc2, release_lock name w2)
  end.

(** "Heartbeat (health-check)" *)
Definition write_heartbeat (pid : Z) (loc : Locals) (w : World) : World :=
  let '(a, w1) := ask w in
  let hb := mkHeartbeat (now a) pid (now a - start_time loc) "RUNNING"
                        (last_job_id loc) (last_job_attempts loc)
                        (w_last_error loc) in
  let '((h, t), _) := _atomic_write (save a) hb (heartbeat w1) (heartbeat_tmp w1) in
  with_heartbeat h t w1.

(** "periodic cleanup" *)
Definition periodic_cleanup (loc : Locals) (w : World) : Locals * World :=
  let '(a, w1) := ask w in
  if CLEANUP_INTERVAL <? now a - last_cleanup loc then
    let w2 := _cleanup_jobs MAX_COMPLETED_JOBS MAX_JOB_AGE_DAYS w1 in
    let '(a2, w3) := ask w2 in
    (with_last_cleanup (now a2) loc, w3)
  else (loc, w1).

(** The body of [for job_dir in JOBS_DIR.iterdir()]. *)
Definition visit (pid : Z) (name : string) (loc : Locals) (w : World)
  : bool * Locals * World :=
  match lookup name (jobs w) with
  | Some (Directory d) =>
      match load_job name (jobs w) with
      | Raise _ => (false, loc, w)
      | Return job =>
          if falsy job then (false, loc, w)
          else if status_is "CANCELLED" job then (false, loc, w)
          else if negb (status_is "QUEUED" job) then (false, loc, w)
          else if lock d then (false, loc, w)
          else
            let '(a, w1) := ask w in
            let locked :=
              with_jobs
                (put name (Directory (touch (now a) (with_lock true d))) (jobs w1))
                w1 in
            match lock_write a with
            | OpenFails => (false, loc, w1)
            | WriteFails => (false, loc, locked)
            | Written =>
                let '(interrupted, loc1, w2) :=
                  process_job name job loc (record (Claimed name) locked) in
                if interrupted then (true, loc1, w2)
                else
                  let w3 := write_heartbeat pid loc1 w2 in
                  let '(loc2, w4) := periodic_cleanup loc1 w3 in
                  (false, loc2, w4)
            end
      end
  | _ => (false, loc, w)
  end.

Fixpoint poll_jobs (pid : Z) (listing : list string) (loc : Locals) (w : World)
  : bool * Locals * World :=
  match listing with
  | [] => (false, loc, w)
  | name :: rest =>
      let '(interrupted, loc1, w1) := visit pid name loc w in
      if interrupted then (true, loc1, w1) else poll_jobs pid rest loc1 w1
  end.

(** One turn of [while True], up to the sleep. *)
Definition poll_cycle (pid : Z) (loc : Locals) (w : World)
  : bool * Locals * World :=
  let '(interrupted, loc1, w1) := poll_jobs pid (names (jobs w)) loc w in
  if interrupted then (true, loc1, w1)
  else
    let '(a, w2) := ask w1 in
    (false, loc1,
     retention (now a - RETENTION_HOURS * 3600) (names (jobs w2)) w2).

Fixpoint poll_cycles (pid : Z) (n : nat) (loc : Locals) (w : World)
  : bool * Locals * World :=
  match n with
  | O => (false, loc, w)
  | S n' =>
      let '(interrupted, loc1, w1) := poll_cycle pid loc w in
      if interrupted then (true, loc1, w1) else poll_cycles pid n' loc1 w1
  end.

(** "Recover any jobs left in RUNNING state": the first loop of
    [run_worker_loop]. *)
Fixpoint recover (listing : list string) (w : World) : World :=
  match listing with
  | [] => w
  | name :: rest =>
      match lookup name (jobs w) with
      | Some (Directory _) =>
          match load_job name (jobs w) with
          | Raise _ => recover rest w
          | Return meta =>
              if falsy meta then recover rest w
              else if status_is "RUNNING" meta then
                let '(a, w1) := ask w in
                let meta' :=
                  set_updated_at (Some (now a))
                    (set_status (Some "QUEUED"%string) meta) in
                let '(s, _) := save_job (save a) (now a) name meta' (jobs w1) in
                recover rest (with_jobs s w1)
              else recover rest w
          end
      | _ => recover rest w
      end
  end.

(** [run_worker_loop] before its [while True]. *)
Definition startup (pid : Z) (w : World) : Locals * World :=
  let '(a, w1) := ask w in
  let '((p, t), _) := _atomic_write (save a) pid (pid_file w1) (pid_tmp w1) in
  let '(a1, w2) := ask (with_pid p t w1) in
  let w3 := recover (names (jobs w2)) w2 in
  let '(a2, w4) := ask w3 in
  (mkLocals (now a1) None 0 None (now a2), w4).

(** The outer [finally]: "cleanup pid and heartbeat on exit". *)
Definition shutdown (w : World) : World :=
  let '(a, w1) := ask w in
  let w2 := if exists_ (pid_file w1) && unlink_ok a
            then with_pid Absent (pid_tmp w1) w1 else w1 in
  let '(a', w3) := ask w2 in
  if exists_ (heartbeat w3) && unlink_ok a'
  then with_heartbeat Absent (heartbeat_tmp w3) w3 else w3.

(** A worker that is left running: the state after [n] poll cycles (or at
    the interruption of a pipeline call, whichever comes first). *)
Definition worker_running (pid : Z) (n : nat) (w : World) : bool * World :=
  let '(loc, w1) := startup pid w in
  let '(interrupted, _, w2) := poll_cycles pid n loc w1 in
  (interrupted, w2).

(** [run_worker_loop] of a worker that is interrupted in a pipeline call or,
    at the latest, in the sleep that follows its [n]-th poll cycle. *)
Definition run_worker_loop (pid : Z) (n : nat) (w : World) : World :=
  shutdown (snd (worker_running pid n w)).

End Worker.
End JobWorker.

Import JobManager JobWorker.

(* ------------------------------------------------------------------ *)
(** ** job_worker.py: the log files *)

Module WorkerLogs.

Definition LOG_RETENTION_DAYS : Z := 7.

(** An entry of the logs directory. *)
Record LogEntry : Type := mkLog {
  log_name : string;
  is_file : bool;
  log_mtime : Z
}.

(** What the medium does with one entry: nothing special, [p.stat()] raises,
    or [p.unlink()] raises. *)
Inductive LogFault : Type :=
| LogOk
| StatRaises
| UnlinkRaises.

(** The loop of [_prune_logs]: each entry in its own [try]. *)
Fixpoint prune_entries (fault : string -> LogFault) (cutoff : Z)
  (listing : list LogEntry) : list LogEntry :=
  match listing with
  | [] => []
  | p :: rest =>
      let rest' := prune_entries fault cutoff rest in
      if is_file p then
        match fault (log_name p) with
        | StatRaises => p :: rest'
        | other =>
            if log_mtime p <? cutoff then
              match other with
              | UnlinkRaises => p :: rest'
              | _ => rest'
              end
            else p :: rest'
        end
      else p :: rest'
  end.

(** [_prune_logs]; [iterdir_ok] tells whether [LOGS_DIR.iterdir()] can list
    the directory (the outer [except] logs the failure and gives up). *)
Definition _prune_logs (iterdir_ok : bool) (fault : string -> LogFault)
  (now : Z) (older_than_days : Z) (logs : list LogEntry) : list LogEntry :=
  if iterdir_ok
  then prune_entries fault (now - older_than_days * 86400) logs
  else logs.

End WorkerLogs.

(* ------------------------------------------------------------------ *)
(** ** run_worker_entry.py *)

Module WorkerEntry.

(** [_atomic_write] of the entry script: the temporary write and the rename
    share one [try], the fallback has its own, and a failure of the fallback
    is logged.  The result tells whether "Failed to write PID file" was
    logged. *)
Definition _atomic_write {A} (f : SaveFault) (data : A) (path tmp : File A)
  : (File A * File A) * bool :=
  let '(tmp1, r1) := write_text (tmp_write f) data tmp in
  let fallback :=
    let '(path3, r3) := write_text (direct_write f) data path in
    ((path3, tmp1), match r3 with Return _ => false | Raise _ => true end) in
  match r1 with
  | Raise _ => fallback
  | Return _ =>
      let '((tmp2, path2), r2) := os_replace (replace_ok f) tmp1 path in
      match r2 with
      | Return _ => ((path2, tmp2), false)
      | Raise _ => fallback
      end
  end.

End WorkerEntry.

(* ------------------------------------------------------------------ *)
(** ** supervise.py *)

Module Supervise.

Definition CHECK_INTERVAL : Z := 5.
Definition STALE_SECONDS : Z := 30.

(** [read_hb]: [None] when the file is missing or does not parse. *)
Definition read_hb (f : File Heartbeat) : option Heartbeat :=
  match f with
  | Holds hb => Some hb
  | _ => None
  end.

(** The flag [stale] of one turn of [supervise_loop]. *)
Definition stale (hb : option Heartbeat) (now : Z) : bool :=
  match hb with
  | Some h =>
      if hb_ts h =? 0 then true            (* hb.get("ts") is falsy *)
      else STALE_SECONDS <? now - hb_ts h
  | None => true
  end.

Inductive Action : Type :=
| LeaveAlone
| Restart            (* the process had exited: start a new one *)
| KillAndRestart.    (* proc.kill(), then start a new one *)

(** One turn of the loop of [supervise_loop]; [exited] is
    [proc.poll() is not None]. *)
Definition supervise_step (exited : bool) (f : File Heartbeat) (now : Z)
  : Action :=
  let st := stale (read_hb f) now in
  if exited then Restart
  else if st then KillAndRestart
  else LeaveAlone.

(** [supervise_loop] over what its successive turns observe (whether the
    process has exited, the heartbeat file, the clock): the number of workers
    it starts, the first one included. *)
Fixpoint supervise_loop (turns : list (bool * File Heartbeat * Z)) : nat :=
  match turns with
  | [] => 1
  | (exited, f, now) :: rest =>
      match supervise_step exited f now with
      | LeaveAlone => supervise_loop rest
      | _ => S (supervise_loop rest)
      end
  end.

End Supervise.

(* ------------------------------------------------------------------ *)
(** ** health_server.py *)

Module HealthServer.

Inductive Body : Type :=
| NoBody
| HeartbeatDoc (hb : Heartbeat)
| UnknownDoc.      (* the fallback document, status "unknown" *)

(** [HealthHandler.do_GET]: the status code and the JSON body. *)
Definition do_GET (path : string) (f : File Heartbeat) : Z * Body :=
  if negb (String.eqb path "/health" || String.eqb path "/health/")
  then (404, NoBody)
  else
    match f with
    | Holds hb => (200, HeartbeatDoc hb)
    | _ => (503, UnknownDoc)
    end.

End HealthServer.

(* ------------------------------------------------------------------ *)
(** ** handlers.py *)

Module Handlers.

(** The keys of the returned dict that tell one outcome from another; the
    data frame, the result objects and the lists of paths are left out. *)
Record Outcome : Type := mkOutcome {
  o_status : string;
  o_message : string;
  o_csv_bytes : option string;     (* [None]: the key is absent or holds None *)
  o_plots_zip : option string;
  o_logs : string;
  o_fallback_to_mock : bool;
  o_last_error : option string
}.

Definition _failure (message : string) (tb : option string)
  (fallback_to_mock : bool) : Outcome :=
  mkOutcome "FAILED" message None None
            (match tb with Some t => t | None => ""%string end)
            fallback_to_mock tb.

(** How [run_pipeline] ends once it is called: it returns, raises an
    [Exception] (with the formatted traceback) or is cut short by a
    [BaseException]. *)
Inductive PipelineEnd : Type :=
| PipelineReturns
| PipelineRaises (exc tb : string)
| PipelineInterrupted.

Record Pipeline : Type := mkPipeline {
  messages : list Value;           (* what it passes to [progress], in order *)
  pipeline_end : PipelineEnd
}.

(** Reading the first CSV of the output folder: there is none, pandas reads
    it, pandas fails and the raw bytes are read, or both fail. *)
Inductive CsvRead : Type :=
| NoCsv
| Parsed (bytes : string)
| RawBytes (bytes : string)
| Unreadable.

Inductive PlotsZip : Type :=
| NoPlots
| Zipped (bytes : string)
| ZipRaises.

(** What the outside decides in one call.  The steps that stand outside
    every [try] are the two [mkdir] at the top and the search of the output
    folder; each carries [str(exc)] and the traceback when it raises. *)
Record Call : Type := mkCall {
  input_mkdir : option (string * string);
  save_uploads : option string;        (* [save_uploaded_files] raises *)
  c_mock_mode : bool;
  run_pipeline : option Pipeline;      (* [None]: the import failed *)
  find_outputs : option (string * string);
  csv_read : CsvRead;
  zip_plots : PlotsZip
}.

Inductive CallEnd : Type :=
| Gives (o : Outcome)
| Throws (exc tb : string)
| CutShort.

Definition mock_csv : string :=
  String.append "sample,gene,identity"
    (String.append nl (String.append "mock1,MOCK_GENE_A,99.0" nl)).

(** [run_detection_and_collect]: the messages passed to the progress
    callback and the way the call ends. *)
Definition run_detection_and_collect (c : Call) : list Value * CallEnd :=
  match input_mkdir c with
  | Some (exc, tb) => ([], Throws exc tb)
  | None =>
      match save_uploads c with
      | Some tb =>
          ([], Gives (_failure "Failed saving uploaded files" (Some tb) false))
      | None =>
          match (if c_mock_mode c then None else run_pipeline c) with
          | None =>
              ([], Gives (mkOutcome "COMPLETED" "Mock run completed"
                                    (Some mock_csv) (Some ""%string)
                                    "MOCK MODE" true None))
          | Some p =>
              match pipeline_end p with
              | PipelineRaises _ tb =>
                  (messages p,
                   Gives (_failure "Pipeline execution failed" (Some tb) false))
              | PipelineInterrupted => (messages p, CutShort)
              | PipelineReturns =>
                  match find_outputs c with
                  | Some (exc, tb) => (messages p, Throws exc tb)
                  | None =>
                      let csv :=
                        match csv_read c with
                        | Parsed b | RawBytes b => Some b
                        | NoCsv | Unreadable => None
                        end in
                      let plots :=
                        match zip_plots c with
                        | Zipped b => Some b
                        | NoPlots | ZipRaises => None
                        end in
                      (messages p,
                       Gives (mkOutcome "COMPLETED" "Run completed" csv plots
                                        "" false None))
                  end
              end
          end
      end
  end.

(** The call as the worker sees it: of the returned dict it reads
    ["message"], ["csv_bytes"] and ["plots_zip"] only. *)
Definition worker_view (r : list Value * CallEnd) : PipelineRun :=
  mkRun (fst r)
        match snd r with
        | Gives o =>
            Returned (Some (mkRes (Some (o_message o)) (o_csv_bytes o)
                                  (o_plots_zip o)))
        | Throws exc tb => Raised exc tb
        | CutShort => Interrupted
        end.

End Handlers.

(* ------------------------------------------------------------------ *)
(** ** Vocabulary of the statements *)

(** Newest first by creation time. *)
Definition newest_first_by_creation (l : list Job) : Prop :=
  StronglySorted (fun a b => or_zero (created_at b) <= or_zero (created_at a)) l.

(** Most recently modified directory first. *)
Definition by_mtime_desc (a b : string * Node) : Prop :=
  node_mtime (snd b) <= node_mtime (snd a).

(** The progress history a reader finds in the store. *)
Definition persisted_history (name : string) (s : Store)
  : option (list ProgressEntry) :=
  match load_job name s with
  | Return j => Some (history_of j)
  | Raise _ => None
  end.

(** Every record a reader can load from the store satisfies [P]. *)
Definition StoreAll (P : Job -> Prop) (s : Store) : Prop :=
  forall name d j,
    lookup name s = Some (Directory d) -> job_json d = Holds j -> P j.

(** Every record a reader can load from the directory [c] satisfies [P]. *)
Definition JobAll (c : string) (P : Job -> Prop) (s : Store) : Prop :=
  forall d j, lookup c s = Some (Directory d) -> job_json d = Holds j -> P j.

(** The number of pipeline calls the worker has made on [c]. *)
Definition calls (c : string) (tr : list Event) : Z :=
  Z.of_nat
    (List.length
       (filter (fun e => match e with
                         | Invoked k => String.eqb k c
                         | Claimed _ => false
                         end) tr)).

(** The retry bound of a record after [r] restarts of the worker. *)
Definition retry_inv (r : Z) (j : Job) : Prop :=
  (status_is "QUEUED" j = true -> attempts_of j < MAX_ATTEMPTS + r)
  /\ (status_is "RUNNING" j = true -> attempts_of j <= MAX_ATTEMPTS + r)
  /\ (status_is "FAILED" j = true ->
      MAX_ATTEMPTS <= attempts_of j <= MAX_ATTEMPTS + r).

(** The directory [c] still holds the record [j0] (or has been swept, wholly
    or in part), and carries a lock marker only if it carried one before
    ([l0]). *)
Definition kept (c : string) (j0 : Job) (l0 : bool) (s : Store) : Prop :=
  match lookup c s with
  | None => True
  | Some (RegularFile _) => False
  | Some (Directory d) =>
      (job_json d = Holds j0 \/ job_json d = Absent)
      /\ (lock d = true -> l0 = true)
  end.

(** Between two traces the worker neither claimed [c] nor called the
    pipeline on it. *)
Definition quiet (c : string) (before after : list Event) : Prop :=
  exists new,
    after = before ++ new /\ ~ In (Claimed c) new /\ ~ In (Invoked c) new.

(** The status and the attempts of the record stored under [name]. *)
Definition persisted (name : string) (s : Store)
  : option (option string * option Z) :=
  match load_job name s with
  | Return j => Some (status j, attempts j)
  | Raise _ => None
  end.

(** The record the recovery pass writes for a job found RUNNING. *)
Definition requeued (t : Z) (j : Job) : Job :=
  set_updated_at (Some t) (set_status (Some "QUEUED"%string) j).

(** Every save of the worker reaches the disk. *)
Definition reliable_saves (env : Env) : Prop :=
  forall t, save (env t) = no_fault.

(** The pipeline call that [process_job] makes when it starts in world [w],
    and the answer of the environment at the step that follows the call. *)
Definition pipeline_call (env : Env) (w : World) : PipelineRun :=
  run (env (S (clock w))).

Definition finishing_answer (env : Env) (w : World) : Answer :=
  env (S (S (clock w)) + List.length (reports (pipeline_call env w)))%nat.

(** No record of the store is QUEUED. *)
Definition nothing_queued (s : Store) : Prop :=
  StoreAll (fun j => status_is "QUEUED" j = false) s.

(** [name] is a directory of the store. *)
Definition is_dir (name : string) (s : Store) : Prop :=
  exists d, lookup name s = Some (Directory d).

(** An entry of the jobs directory that the sweeper counts: a directory
    whose record is COMPLETED or FAILED. *)
Definition is_terminal_node (n : Node) : bool :=
  match n with
  | Directory d =>
      match job_json d with
      | Holds j => negb (falsy j) && terminal j
      | _ => false
      end
  | RegularFile _ => false
  end.

Definition terminal_count (s : Store) : nat :=
  List.length (filter (fun kn => is_terminal_node (snd kn)) s).

(** [created and created < cutoff]: older than the age ceiling. *)
Definition too_old (cutoff : Z) (created : option Z) : bool :=
  truthy_time created && (or_zero created <? cutoff).

Definition node_created (n : Node) : option Z :=
  match n with
  | Directory d => match job_json d with Holds j => created_at j | _ => None end
  | RegularFile _ => None
  end.

(** The terminal jobs within the age ceiling. *)
Definition within_age_count (cutoff : Z) (s : Store) : nat :=
  List.length
    (filter (fun kn => is_terminal_node (snd kn)
                       && negb (too_old cutoff (node_created (snd kn)))) s).

(** Every job directory has a [job.json] that parses. *)
Definition loadable (s : Store) : Prop :=
  forall k d, In (k, Directory d) s -> exists j, job_json d = Holds j.

(** What the sweeper collects from a listing in which every record loads. *)
Definition gathered (l : Store) : list (string * option Z) :=
  flat_map
    (fun kn => if is_terminal_node (snd kn)
               then [(fst kn, node_created (snd kn))] else [])
    l.

(** The names of a deletion list are terminal directories of the store. *)
Definition listed (l : list (string * option Z)) (s : Store) : Prop :=
  forall k c, In (k, c) l ->
    exists d, lookup k s = Some (Directory d)
              /\ is_terminal_node (Directory d) = true.

(** Deletions that never fail. *)
Definition reliable_deletes (env : Env) : Prop :=
  forall t, del (env t) = mkDelFault false false false false.

(** No record of the store is QUEUED or RUNNING: the worker has nothing to
    claim and nothing to recover. *)
Definition nothing_to_do (s : Store) : Prop :=
  StoreAll (fun j => status_is "QUEUED" j = false
                     /\ status_is "RUNNING" j = false) s.

(** The dict in the worker's hands after the progress callback has run on
    the messages [tps], each with the time of its call. *)
Definition reported (tps : list (Z * Value)) (job : Job) : Job :=
  fold_left (fun j tp => hooked (fst tp) (snd tp) j) tps job.

(** The pipeline call made by a visit that claims a job in world [w]: one
    step goes to the lock marker, one to the save of the claim. *)
Definition visit_call (env : Env) (w : World) : PipelineRun :=
  run (env (S (S (clock w)))).

(** What the retention pass looks for: a readable record that is COMPLETED,
    FAILED or CANCELLED and was created before the cutoff. *)
Definition expired (cutoff : Z) (n : Node) : bool :=
  match n with
  | Directory d =>
      match job_json d with
      | Holds j =>
          negb (falsy j)
          && ((terminal j || status_is "CANCELLED" j)
              && truthy_time (created_at j)
              && (or_zero (created_at j) <? cutoff))
      | _ => false
      end
  | _ => false
  end.

(** Saving the artifacts of [res] is cut short by a write the medium
    refuses: [e] is [str(e)] of that write, [written] the paths recorded in
    [results] before it.  The folder cannot be made; the table cannot be
    written; or the archive cannot be written, after the table (if there is
    one) has been. *)
Inductive refused_write (f : ArtifactFault) (name : string)
  : option Res -> string -> list string -> Prop :=
| refused_mkdir res e :
    mkdir_raises f = Some e ->
    refused_write f name res e []
| refused_csv r b e :
    mkdir_raises f = None ->
    csv_bytes r = Some b -> csv_raises f = Some e ->
    refused_write f name (Some r) e []
| refused_plots r z e :
    mkdir_raises f = None ->
    csv_bytes r = None ->
    plots_zip r = Some z -> plots_raises f = Some e ->
    refused_write f name (Some r) e []
| refused_plots_after_csv r b z e :
    mkdir_raises f = None ->
    csv_bytes r = Some b -> csv_raises f = None ->
    plots_zip r = Some z -> plots_raises f = Some e ->
    refused_write f name (Some r) e [csv_path name].

(** A medium on which nothing fails. *)
Definition no_del_fault : DelFault := mkDelFault false false false false.
Definition no_artifact_fault : ArtifactFault := mkArtifactFault None None None.

Definition fresh_world (s : Store) : World :=
  mkWorld s Absent Absent Absent Absent 0 [].

(** Concrete stores and environments used to exercise the statements. *)
Module Examples.

Local Open Scope string_scope.

(** Two submissions, then the older job is touched again. *)
Definition two_jobs : Store :=
  fst (create_job "B" true no_fault 2 [] []
         (fst (create_job "A" true no_fault 1 [] [] []))).

Definition two_jobs_touched : Store :=
  fst (update_job no_fault 3 "A" [kw_message "seen"] two_jobs).

(** One submission followed by [n] progress updates through [update_job]. *)
Definition one_job : Store := fst (create_job "A" true no_fault 1 [] [] []).

Definition after_updates (n : nat) : Store :=
  Nat.iter n
    (fun s => fst (update_job no_fault 5 "A" [kw_progress (VStr "step")] s))
    one_job.

(** An environment in which the medium never fails and every pipeline call
    behaves as [r]. *)
Definition steady (r : PipelineRun) : Env :=
  fun n => mkAnswer (Z.of_nat n) no_fault Written true r
                    no_artifact_fault no_del_fault.

Definition raising : PipelineRun := mkRun [VStr "stage 1"] (Raised "boom" "traceback").
Definition interrupted : PipelineRun := mkRun [VStr "stage 1"] Interrupted.

(** A job whose first attempt raises and whose second attempt is cut short
    by an interrupt that takes the worker down ... *)
Definition interrupted_on_last_attempt : World :=
  run_worker_loop (steady interrupted) 7 1
    (run_worker_loop (steady raising) 7 1 (fresh_world one_job)).

Definition orphan_dir : JobDir :=
  Eval vm_compute in
    match lookup "A" (jobs interrupted_on_last_attempt) with
    | Some (Directory d) => d
    | _ => new_dir 0
    end.

Definition orphan_job : Job :=
  Eval vm_compute in
    match job_json orphan_dir with Holds j => j | _ => empty_job end.

(** ... then a restarted worker whose pipeline call is interrupted again, *)
Definition restarted_then_interrupted : World :=
  run_worker_loop (steady interrupted) 7 1 interrupted_on_last_attempt.

(** or raises. *)
Definition restarted_then_raising : World :=
  run_worker_loop (steady raising) 7 1 interrupted_on_last_attempt.

Definition one_job_dir : JobDir :=
  mkJobDir (Holds (initial_meta "A" 1 [] [])) Absent false 1.

(** A pipeline call that returns a results table, on a disk that refuses the
    write of [results.csv]. *)
Definition csv_result : Res := mkRes (Some "Run completed") (Some "sample,gene") None.

Definition disk_full : Env :=
  fun n => mkAnswer (Z.of_nat n) no_fault Written true
                    (mkRun [VStr "stage 1"] (Returned (Some csv_result)))
                    (mkArtifactFault None (Some "No space left on device") None)
                    no_del_fault.

(** A pipeline call that returns a table and plots, on a disk that takes the
    table and refuses the archive. *)
Definition full_result : Res :=
  mkRes (Some "Run completed") (Some "sample,gene") (Some "PK").

Definition archive_refused : Env :=
  fun n => mkAnswer (Z.of_nat n) no_fault Written true
                    (mkRun [VStr "stage 1"] (Returned (Some full_result)))
                    (mkArtifactFault None None (Some "No space left on device"))
                    no_del_fault.

(** Three finished jobs and one that still waits. *)
Definition sweep_store : Store :=
  let submit name t s := fst (create_job name true no_fault t [] [] s) in
  let finish name t s :=
    fst (update_job no_fault t name [kw_status "COMPLETED"] s) in
  submit "Q" 400
    (finish "J3" 350 (submit "J3" 300
       (finish "J2" 250 (submit "J2" 200
          (finish "J1" 150 (submit "J1" 100 [])))))).

(** A pipeline that raises on its first call and returns on the next one
    (the first call is answered at step 5, the second one at step 14). *)
Definition flaky : Env :=
  fun n => mkAnswer (Z.of_nat n) no_fault Written true
             (if (n <? 10)%nat then raising
              else mkRun [VStr "stage 1"] (Returned (Some csv_result)))
             no_artifact_fault no_del_fault.

(** The job directory once the history holds 100 entries. *)
Definition full_history_dir : JobDir :=
  Eval vm_compute in
    match lookup "A" (after_updates 100) with
    | Some (Directory d) => d
    | _ => new_dir 0
    end.

Definition full_history_job : Job :=
  Eval vm_compute in
    match job_json full_history_dir with Holds j => j | _ => empty_job end.

(** A submitted job next to a directory that holds no [job.json]. *)
Definition unreadable_store : Store :=
  List.app one_job [("orphan"%string, Directory (new_dir 0))].

(** A call of the handler in which the pipeline reports one stage and then
    raises. *)
Definition failing_call : Handlers.Call :=
  Handlers.mkCall None None false
    (Some (Handlers.mkPipeline [VStr "Loading input sequences"]
             (Handlers.PipelineRaises "Input path not found" "traceback")))
    None Handlers.NoCsv Handlers.NoPlots.

(** A submitted job that the user cancels, the way [app.py] does it. *)
Definition cancelled_store : Store :=
  fst (update_job no_fault 3 "A"
         [kw_status "CANCELLED"; kw_progress (VStr "Cancelled by user")] one_job).

Definition cancelled_dir : JobDir :=
  Eval vm_compute in
    match lookup "A" cancelled_store with
    | Some (Directory d) => d
    | _ => new_dir 0
    end.

Definition cancelled_job : Job :=
  Eval vm_compute in
    match job_json cancelled_dir with Holds j => j | _ => empty_job end.

End Examples.

(* ------------------------------------------------------------------ *)
(** * Properties *)

(** ** The jobs directory as a finite map *)

Section StoreFacts.

Lemma lookup_put (k name : string) (n : Node) (s : Store) :
  lookup k (put name n s) =
  if String.eqb k name
  then match lookup k s with Some _ => Some n | None => None end
  else lookup k s.
Proof.
  induction s as [|[k' n'] s IH]; simpl.
  - now destruct (String.eqb k name).
  - destruct (String.eqb_spec name k'); simpl;
      destruct (String.eqb_spec k k'); simpl;
      rewrite ?IH; destruct (String.eqb_spec k name); simpl; congruence.
Qed.

Lemma lookup_put_same (name : string) (n n0 : Node) (s : Store) :
  lookup name s = Some n0 -> lookup name (put name n s) = Some n.
Proof.
  intros H. rewrite lookup_put, String.eqb_refl, H. reflexivity.
Qed.

Lemma lookup_put_other (k name : string) (n : Node) (s : Store) :
  k <> name -> lookup k (put name n s) = lookup k s.
Proof.
  intros H. rewrite lookup_put.
  apply String.eqb_neq in H. now rewrite H.
Qed.

Lemma lookup_remove (k name : string) (s : Store) :
  lookup k (remove name s) = if String.eqb k name then None else lookup k s.
Proof.
  unfold remove.
  induction s as [|[k' n'] s IH]; simpl.
  - now destruct (String.eqb k name).
  - destruct (String.eqb_spec name k'); simpl;
      rewrite ?IH;
      destruct (String.eqb_spec k k'); simpl;
      rewrite ?IH; destruct (String.eqb_spec k name); simpl; congruence.
Qed.

Lemma lookup_app_new (k name : string) (n : Node) (s : Store) :
  lookup name s = None ->
  lookup k (s ++ [(name, n)]) = if String.eqb k name then Some n else lookup k s.
Proof.
  induction s as [|[k' n'] s IH]; simpl; intros H.
  - reflexivity.
  - destruct (String.eqb_spec name k'); [discriminate|].
    destruct (String.eqb_spec k k'); simpl.
    + destruct (String.eqb_spec k name); congruence.
    + now apply IH.
Qed.

Lemma names_put (name : string) (n : Node) (s : Store) :
  names (put name n s) = names s.
Proof.
  unfold names. induction s as [|[k' n'] s IH]; simpl; [reflexivity|].
  destruct (String.eqb name k'); simpl; now rewrite IH.
Qed.

Lemma lookup_in_names (k : string) (s : Store) (n : Node) :
  lookup k s = Some n -> In k (names s).
Proof.
  induction s as [|[k' n'] s IH]; simpl; [discriminate|].
  destruct (String.eqb k k') eqn:E.
  - apply String.eqb_eq in E. intros _. now left.
  - intros H. right. now apply IH.
Qed.

Lemma lookup_none_names (k : string) (s : Store) :
  lookup k s = None <-> ~ In k (names s).
Proof.
  induction s as [|[k' n'] s IH]; simpl.
  - tauto.
  - destruct (String.eqb k k') eqn:E.
    + apply String.eqb_eq in E. split; [discriminate|]. intros H. destruct H. now left.
    + apply String.eqb_neq in E. rewrite IH. split.
      * intros H [H1|H1]; [congruence|tauto].
      * tauto.
Qed.

End StoreFacts.

(** ** The atomic save *)

Section SaveFacts.

Lemma save_job_returns f t name data s :
  snd (save_job f t name data s) = Return tt.
Proof.
  unfold save_job.
  destruct (lookup name s) as [[m|d]|]; try reflexivity.
  now destruct (write_job_json f t data d).
Qed.

Lemma lookup_save_job_other f t name data s k :
  k <> name -> lookup k (fst (save_job f t name data s)) = lookup k s.
Proof.
  intros H. unfold save_job.
  destruct (lookup name s) as [[m|d]|]; try reflexivity.
  destruct (write_job_json f t data d); simpl.
  now apply lookup_put_other.
Qed.

Lemma lookup_save_job_same f t name data s d :
  lookup name s = Some (Directory d) ->
  lookup name (fst (save_job f t name data s)) =
  Some (Directory (fst (write_job_json f t data d))).
Proof.
  intros H. unfold save_job. rewrite H.
  destruct (write_job_json f t data d) eqn:E; simpl.
  eapply lookup_put_same; eassumption.
Qed.

Lemma save_job_absent f t name data s :
  (forall d, lookup name s <> Some (Directory d)) ->
  fst (save_job f t name data s) = s.
Proof.
  intros H. unfold save_job.
  destruct (lookup name s) as [[m|d]|]; try reflexivity.
  now destruct (H d).
Qed.

Lemma names_save_job f t name data s :
  names (fst (save_job f t name data s)) = names s.
Proof.
  unfold save_job.
  destruct (lookup name s) as [[m|d]|]; try reflexivity.
  destruct (write_job_json f t data d); simpl. apply names_put.
Qed.

Lemma job_json_touch_if b t d : job_json (touch_if b t d) = job_json d.
Proof. now destruct b. Qed.

Lemma job_json_tmp_touch_if b t d : job_json_tmp (touch_if b t d) = job_json_tmp d.
Proof. now destruct b. Qed.

Lemma lock_touch_if b t d : lock (touch_if b t d) = lock d.
Proof. now destruct b. Qed.

(** What [write_job_json] leaves in [job.json]. *)
Lemma write_job_json_cases f t data d :
  let d' := fst (write_job_json f t data d) in
  job_json d' = Holds data \/ job_json d' = Garbled \/ job_json d' = job_json d.
Proof.
  unfold write_job_json.
  destruct (dumps_raises f); [now right; right|].
  destruct (tmp_write f); simpl; rewrite ?job_json_touch_if; simpl; auto.
  destruct (replace_ok f); simpl; auto.
  destruct (direct_write f); simpl; rewrite ?job_json_touch_if; simpl;
    rewrite ?job_json_touch_if; simpl; auto.
Qed.

Lemma write_job_json_lock f t data d :
  lock (fst (write_job_json f t data d)) = lock d.
Proof.
  unfold write_job_json.
  destruct (dumps_raises f); [reflexivity|].
  destruct (tmp_write f); simpl; rewrite ?lock_touch_if; simpl; auto.
  destruct (replace_ok f); simpl; rewrite ?lock_touch_if; auto.
  destruct (direct_write f); simpl; rewrite ?lock_touch_if; simpl;
    rewrite ?lock_touch_if; simpl; auto.
Qed.

Lemma write_job_json_no_fault t data d :
  job_json (fst (write_job_json no_fault t data d)) = Holds data.
Proof. reflexivity. Qed.

End SaveFacts.

(** ** Steps of the worker *)

(** The fields of the world that each update leaves alone: the proofs below
    rewrite with these equations and keep the updates folded. *)

Lemma jobs_with_jobs s w : jobs (with_jobs s w) = s.
Proof. reflexivity. Qed.
Lemma trace_with_jobs s w : trace (with_jobs s w) = trace w.
Proof. reflexivity. Qed.
Lemma heartbeat_with_jobs s w : heartbeat (with_jobs s w) = heartbeat w.
Proof. reflexivity. Qed.
Lemma jobs_with_heartbeat h t w : jobs (with_heartbeat h t w) = jobs w.
Proof. reflexivity. Qed.
Lemma trace_with_heartbeat h t w : trace (with_heartbeat h t w) = trace w.
Proof. reflexivity. Qed.
Lemma jobs_with_pid p t w : jobs (with_pid p t w) = jobs w.
Proof. reflexivity. Qed.
Lemma trace_with_pid p t w : trace (with_pid p t w) = trace w.
Proof. reflexivity. Qed.
Lemma heartbeat_with_pid p t w : heartbeat (with_pid p t w) = heartbeat w.
Proof. reflexivity. Qed.
Lemma jobs_record e w : jobs (record e w) = jobs w.
Proof. reflexivity. Qed.
Lemma trace_record e w : trace (record e w) = trace w ++ [e].
Proof. reflexivity. Qed.
Lemma heartbeat_record e w : heartbeat (record e w) = heartbeat w.
Proof. reflexivity. Qed.
Lemma clock_with_jobs s w : clock (with_jobs s w) = clock w.
Proof. reflexivity. Qed.
Lemma clock_record e w : clock (record e w) = clock w.
Proof. reflexivity. Qed.
Lemma clock_with_heartbeat h t w : clock (with_heartbeat h t w) = clock w.
Proof. reflexivity. Qed.

(** Push the projections of the world through its updates. *)
Ltac world_simpl :=
  repeat first
    [ rewrite jobs_with_jobs in * | rewrite trace_with_jobs in *
    | rewrite heartbeat_with_jobs in * | rewrite jobs_with_heartbeat in *
    | rewrite trace_with_heartbeat in * | rewrite jobs_with_pid in *
    | rewrite trace_with_pid in * | rewrite heartbeat_with_pid in *
    | rewrite jobs_record in * | rewrite trace_record in *
    | rewrite heartbeat_record in * | rewrite clock_with_jobs in *
    | rewrite clock_record in * | rewrite clock_with_heartbeat in * ].

(** An answer of the environment advances the clock and nothing else. *)
Lemma ask_spec env w a w1 :
  ask env w = (a, w1) ->
  a = env (clock w) /\ jobs w1 = jobs w /\ trace w1 = trace w
  /\ heartbeat w1 = heartbeat w /\ heartbeat_tmp w1 = heartbeat_tmp w
  /\ clock w1 = S (clock w).
Proof. unfold ask. intros H. inversion H; subst. simpl. tauto. Qed.

Opaque ask with_jobs with_heartbeat with_pid record.

(** *** Invariants of the sweeps *)

Section Sweeps.

Variable env : Env.
Variable I : World -> Prop.
Hypothesis I_ext :
  forall w w', jobs w' = jobs w -> trace w' = trace w -> I w -> I w'.
Hypothesis I_rmtree :
  forall f t name w, I w -> I (with_jobs (rmtree f t name (jobs w)) w).

Lemma I_ask w a w1 : ask env w = (a, w1) -> I w -> I w1.
Proof.
  intros Ea H. apply ask_spec in Ea. destruct Ea as (_ & Hj & Ht & _).
  now apply (I_ext w).
Qed.

Lemma delete_by_age_preserves cutoff l w :
  I w -> I (delete_by_age env cutoff l w).
Proof.
  revert w. induction l as [|[name created] l IH]; simpl; intros w H; auto.
  destruct (truthy_time created && (or_zero created <? cutoff)); auto.
  destruct (ask env w) as [a w1] eqn:Ea.
  apply IH, I_rmtree. eapply I_ask; eauto.
Qed.

Lemma prune_preserves l w : I w -> I (prune env l w).
Proof.
  revert w. induction l as [|[name created] l IH]; simpl; intros w H; auto.
  destruct (ask env w) as [a w1] eqn:Ea.
  apply IH, I_rmtree. eapply I_ask; eauto.
Qed.

Lemma cleanup_jobs_preserves max_jobs max_age w :
  I w -> I (_cleanup_jobs env max_jobs max_age w).
Proof.
  intros H. unfold _cleanup_jobs.
  destruct (gather _ _) as [found|]; auto.
  destruct (ask env w) as [a w1] eqn:Ea.
  assert (H2 : I (delete_by_age env (now a - max_age * 86400)
                    (sorted_reverse by_created found) w1)).
  { apply delete_by_age_preserves. eapply I_ask; eauto. }
  destruct (gather _ _) as [found2|]; auto.
  now apply prune_preserves.
Qed.

Lemma retention_preserves cutoff l w :
  I w -> I (retention env cutoff l w).
Proof.
  revert w. induction l as [|name l IH]; simpl; intros w H; auto.
  destruct (lookup name (jobs w)) as [[m|d]|]; auto.
  destruct (load_job name (jobs w)) as [meta|]; auto.
  destruct (falsy meta); auto.
  destruct (_ && _); auto.
  destruct (ask env w) as [a w1] eqn:Ea.
  apply IH, I_rmtree. eapply I_ask; eauto.
Qed.

Lemma periodic_cleanup_preserves loc w :
  I w -> I (snd (periodic_cleanup env loc w)).
Proof.
  intros H. unfold periodic_cleanup.
  destruct (ask env w) as [a w1] eqn:Ea.
  destruct (_ <? _); simpl; [|eapply I_ask; eauto].
  destruct (ask env (_cleanup_jobs env MAX_COMPLETED_JOBS MAX_JOB_AGE_DAYS w1))
    as [a2 w3] eqn:Ea2. simpl.
  eapply I_ask; [exact Ea2|].
  apply cleanup_jobs_preserves. eapply I_ask; eauto.
Qed.

Lemma write_heartbeat_preserves pid loc w :
  I w -> I (write_heartbeat env pid loc w).
Proof.
  intros H. unfold write_heartbeat.
  destruct (ask env w) as [a w1] eqn:Ea.
  destruct (_atomic_write _ _ _ _) as [[h t] r].
  eapply (I_ext w1); [reflexivity|reflexivity|]. eapply I_ask; eauto.
Qed.

End Sweeps.

(** *** One claimed job *)

Section Process.

Variable env : Env.
Variable name : string.

(** [I] is an invariant of the store, [D] describes the dict the worker holds
    while the pipeline runs. *)
Variable I : Store -> Prop.
Variable D : Job -> Prop.
Hypothesis I_inflight :
  forall f t j s, D j -> I s -> I (fst (save_job f t name j s)).
Hypothesis I_completed :
  forall f t a res j s,
    D j -> I s -> I (fst (save_job f t name (completed a name res j) s)).
Hypothesis I_failed :
  forall f t t' exc tb j s,
    D j -> I s -> I (fst (save_job f t name (failed t' exc tb j) s)).
Hypothesis I_unlock :
  forall t d s,
    lookup name s = Some (Directory d) -> I s ->
    I (put name (Directory (touch t (with_lock false d))) s).
Hypothesis D_hooked : forall t p j, D j -> D (hooked t p j).

Lemma progress_hook_preserves p job loc w :
  D job -> I (jobs w) ->
  D (fst (fst (progress_hook env name p (job, loc, w))))
  /\ I (jobs (snd (progress_hook env name p (job, loc, w))))
  /\ trace (snd (progress_hook env name p (job, loc, w))) = trace w.
Proof.
  intros HD HI. unfold progress_hook.
  destruct (ask env w) as [a w1] eqn:Ea.
  apply ask_spec in Ea. destruct Ea as (-> & Hj & Ht & _).
  pose proof (I_inflight (save (env (clock w))) (now (env (clock w)))
                (hooked (now (env (clock w))) p job) (jobs w1)) as Hs.
  destruct (save_job _ _ _ _ _) as [s' r]. simpl in *. world_simpl.
  repeat split; auto. apply Hs; auto. now rewrite Hj.
Qed.

Lemma hooks_preserve ps job loc w :
  D job -> I (jobs w) ->
  let st := fold_left (fun st p => progress_hook env name p st) ps (job, loc, w) in
  D (fst (fst st)) /\ I (jobs (snd st)) /\ trace (snd st) = trace w.
Proof.
  revert job loc w.
  induction ps as [|p ps IH]; cbn [fold_left]; intros job loc w HD HI.
  - auto.
  - destruct (progress_hook_preserves p job loc w HD HI) as (H1 & H2 & H3).
    destruct (progress_hook env name p (job, loc, w)) as [[job' loc'] w'].
    cbn [fst snd] in *. rewrite <- H3. now apply IH.
Qed.

Lemma release_lock_preserves w :
  I (jobs w) ->
  I (jobs (release_lock env name w)) /\ trace (release_lock env name w) = trace w.
Proof.
  intros H. unfold release_lock.
  destruct (lookup name (jobs w)) as [[m|d]|] eqn:E; auto.
  destruct (lock d); auto.
  destruct (ask env w) as [a w1] eqn:Ea.
  apply ask_spec in Ea. destruct Ea as (-> & Hj & Ht & _).
  destruct (unlink_ok _); world_simpl; rewrite ?Hj; auto.
Qed.

Lemma process_job_preserves job loc w :
  (forall t, D (claimed t job)) -> I (jobs w) ->
  I (jobs (snd (process_job env name job loc w)))
  /\ trace (snd (process_job env name job loc w)) = trace w ++ [Invoked name].
Proof.
  intros HD HI. unfold process_job.
  destruct (ask env w) as [a0 w0] eqn:Ea0.
  apply ask_spec in Ea0. destruct Ea0 as (-> & Hj0 & Ht0 & _).
  pose proof (I_inflight (save (env (clock w))) (now (env (clock w)))
                (claimed (now (env (clock w))) job) (jobs w0)) as Hs1.
  destruct (save_job _ _ _ _ (jobs w0)) as [s1 r1]. simpl in Hs1.
  destruct (ask env (with_jobs s1 w0)) as [a1 w1] eqn:Ea1.
  apply ask_spec in Ea1. destruct Ea1 as (-> & Hj1 & Ht1 & _).
  world_simpl.
  pose proof (hooks_preserve (reports (run (env (clock (with_jobs s1 w0)))))
                (claimed (now (env (clock w))) job) loc
                (record (Invoked name) w1)) as Hh.
  cbv zeta in Hh.
  destruct (fold_left _ _ _) as [[job2 loc2] w2]. simpl in Hh.
  destruct Hh as (HD2 & HI2 & Ht2).
  { apply HD. }
  { world_simpl. rewrite Hj1. apply Hs1; [apply HD|]. now rewrite Hj0. }
  world_simpl. rewrite Ht1, Ht0 in Ht2.
  destruct (ending _) as [res|exc tb|].
  - destruct (ask env w2) as [a2 w3] eqn:Ea2.
    apply ask_spec in Ea2. destruct Ea2 as (-> & Hj2 & Ht3 & _).
    pose proof (I_completed (save (env (clock w2))) (now (env (clock w2)))
                  (env (clock w2)) res job2 (jobs w3) HD2) as Hs3.
    destruct (save_job _ _ _ _ (jobs w3)) as [s3 r3]. simpl in *.
    destruct (release_lock_preserves (with_jobs s3 w3)) as [Hr1 Hr2].
    { world_simpl. apply Hs3. now rewrite Hj2. }
    split; [exact Hr1|]. rewrite Hr2. world_simpl. congruence.
  - destruct (ask env w2) as [a2 w3] eqn:Ea2.
    apply ask_spec in Ea2. destruct Ea2 as (-> & Hj2 & Ht3 & _).
    pose proof (I_failed (save (env (clock w2))) (now (env (clock w2)))
                  (now (env (clock w2))) exc tb job2 (jobs w3) HD2) as Hs3.
    destruct (save_job _ _ _ _ (jobs w3)) as [s3 r3]. simpl in *.
    destruct (release_lock_preserves (with_jobs s3 w3)) as [Hr1 Hr2].
    { world_simpl. apply Hs3. now rewrite Hj2. }
    split; [exact Hr1|]. rewrite Hr2. world_simpl. congruence.
  - simpl. destruct (release_lock_preserves w2 HI2) as [Hr1 Hr2].
    split; [exact Hr1|]. congruence.
Qed.

End Process.

(** *** Invariants of the poll loop *)

Section PollLoop.

Variable env : Env.
Variable pid : Z.
Variable I : World -> Prop.
Hypothesis I_ext :
  forall w w', jobs w' = jobs w -> trace w' = trace w -> I w -> I w'.
Hypothesis I_rmtree :
  forall f t name w, I w -> I (with_jobs (rmtree f t name (jobs w)) w).
(** Taking the lock marker of a job found QUEUED and unlocked ... *)
Hypothesis I_lock :
  forall name d job t w,
    I w -> lookup name (jobs w) = Some (Directory d) ->
    job_json d = Holds job -> status_is "QUEUED" job = true -> lock d = false ->
    I (with_jobs (put name (Directory (touch t (with_lock true d))) (jobs w)) w).
(** ... and processing it. *)
Hypothesis I_process :
  forall name d job t loc w w1,
    I w -> lookup name (jobs w) = Some (Directory d) ->
    job_json d = Holds job -> status_is "QUEUED" job = true -> lock d = false ->
    jobs w1 = put name (Directory (touch t (with_lock true d))) (jobs w) ->
    trace w1 = trace w ++ [Claimed name] ->
    I (snd (process_job env name job loc w1)).

Lemma visit_preserves name loc w :
  I w -> I (snd (visit env pid name loc w)).
Proof.
  intros H. unfold visit.
  destruct (lookup name (jobs w)) as [[m|d]|] eqn:E; auto.
  unfold load_job. rewrite E.
  destruct (job_json d) as [| |job] eqn:Ej; auto.
  destruct (falsy job); auto.
  destruct (status_is "CANCELLED" job); auto.
  destruct (status_is "QUEUED" job) eqn:Eq; auto. cbn [negb].
  destruct (lock d) eqn:El; auto.
  destruct (ask env w) as [a w1] eqn:Ea.
  pose proof (I_ask env I I_ext _ _ _ Ea H) as H1.
  apply ask_spec in Ea. destruct Ea as (-> & Hj & Ht & _).
  assert (HL : I (with_jobs
                    (put name (Directory (touch (now (env (clock w)))
                                            (with_lock true d))) (jobs w1)) w1)).
  { eapply I_lock; eauto. now rewrite Hj. }
  destruct (lock_write _); auto.
  pose proof (I_process name d job (now (env (clock w))) loc w
                (record (Claimed name)
                   (with_jobs
                      (put name (Directory (touch (now (env (clock w)))
                                              (with_lock true d))) (jobs w1)) w1))
                H E Ej Eq El) as HP.
  destruct (process_job _ _ _ _ _) as [[i loc1] w2]. cbn [snd] in HP.
  assert (H2 : I w2).
  { apply HP; world_simpl; congruence. }
  destruct i; auto.
  pose proof (periodic_cleanup_preserves env I I_ext I_rmtree loc1
                (write_heartbeat env pid loc1 w2)) as HC.
  destruct (periodic_cleanup _ _ _) as [loc2 w4]. cbn [snd] in *.
  apply HC. now apply write_heartbeat_preserves.
Qed.

Lemma poll_jobs_preserves l loc w :
  I w -> I (snd (poll_jobs env pid l loc w)).
Proof.
  revert loc w. induction l as [|name l IH]; cbn [poll_jobs]; intros loc w H.
  - exact H.
  - pose proof (visit_preserves name loc w H) as Hv.
    destruct (visit env pid name loc w) as [[i loc1] w1]. cbn [snd] in *.
    destruct i; auto.
Qed.

Lemma poll_cycle_preserves loc w :
  I w -> I (snd (poll_cycle env pid loc w)).
Proof.
  intros H. unfold poll_cycle.
  pose proof (poll_jobs_preserves (names (jobs w)) loc w H) as Hp.
  destruct (poll_jobs _ _ _ _ _) as [[i loc1] w1]. cbn [snd] in *.
  destruct i; auto.
  destruct (ask env w1) as [a w2] eqn:Ea. cbn [snd].
  apply retention_preserves; auto. eapply I_ask; eauto.
Qed.

Lemma poll_cycles_preserves n loc w :
  I w -> I (snd (poll_cycles env pid n loc w)).
Proof.
  revert loc w. induction n as [|n IH]; cbn [poll_cycles]; intros loc w H.
  - exact H.
  - pose proof (poll_cycle_preserves loc w H) as Hp.
    destruct (poll_cycle env pid loc w) as [[i loc1] w1]. cbn [snd] in *.
    destruct i; auto.
Qed.

End PollLoop.

(** C10.  [save_job] returns normally whatever the medium does: its result
    is the same for every behaviour of the medium, so it tells nothing about
    what reached the disk.  When the temporary file was written and the rename
    fails, the record is written directly over [job.json] (and the temporary
    file stays); a save on a faultless medium and a save whose first write
    fails are indistinguishable by their result although only the first one
    stores the record. *)
Theorem save_job_never_raises :
  forall f t name data s,
    snd (save_job f t name data s) = Return tt
    /\ (forall f', snd (save_job f' t name data s) = snd (save_job f t name data s))
    /\ (forall d,
          lookup name s = Some (Directory d) ->
          (dumps_raises f = false -> tmp_write f = Written -> replace_ok f = false ->
           exists d',
             lookup name (fst (save_job f t name data s)) = Some (Directory d')
             /\ job_json d' = fst (write_text (direct_write f) data (job_json d))
             /\ job_json_tmp d' = Holds data)
          /\ load_job name (fst (save_job no_fault t name data s)) = Return data
          /\ load_job name
               (fst (save_job (mkSaveFault false OpenFails true Written) t name data s))
             = load_job name s).
Proof.
  intros f t name data s.
  split; [apply save_job_returns|].
  split; [intros f'; now rewrite !save_job_returns|].
  intros d Hd. repeat split.
  - intros H1 H2 H3.
    eexists. split; [apply lookup_save_job_same; exact Hd|].
    unfold write_job_json. rewrite H1, H2, H3. simpl.
    rewrite !job_json_touch_if. simpl.
    destruct (direct_write f); simpl;
      rewrite ?job_json_touch_if, ?job_json_tmp_touch_if; simpl;
      rewrite ?job_json_touch_if, ?job_json_tmp_touch_if; auto.
  - unfold load_job. rewrite (lookup_save_job_same _ _ _ _ _ _ Hd).
    now rewrite write_job_json_no_fault.
  - unfold load_job. rewrite (lookup_save_job_same _ _ _ _ _ _ Hd), Hd.
    unfold write_job_json; simpl. now rewrite job_json_touch_if.
Qed.

Lemma save_job_never_raises_witness :
  lookup "A" Examples.one_job = Some (Directory Examples.one_job_dir)
  /\ load_job "A" (fst (save_job no_fault 9 "A" empty_job Examples.one_job))
     = Return empty_job
  /\ load_job "A"
       (fst (save_job (mkSaveFault false OpenFails true Written) 9 "A" empty_job
               Examples.one_job))
     = load_job "A" Examples.one_job.
Proof.
  split; [reflexivity|].
  exact (proj2 (proj2 (proj2
           (save_job_never_raises no_fault 9 "A" empty_job Examples.one_job))
           Examples.one_job_dir eq_refl)).
Defined.

(** ** Submission *)

(** C7, as amended.  [create_job] never raises.  When it hands back an id,
    this is the id drawn from [uuid4] and the store holds under it the initial
    record: QUEUED, no attempt, empty progress history.  When the medium
    refuses a step, it hands back the failure-shaped dict (status "FAILED",
    message "Failed creating job") as an ordinary value, and for an id that
    was free no readable record is left under it. *)
Theorem create_job_returns_id_or_failure_dict :
  forall uuid mkdir_ok f t files prm s,
    let r := create_job uuid mkdir_ok f t files prm s in
    (exists c, snd r = Return c)
    /\ (forall i, snd r = Return (JobId i) ->
          i = uuid
          /\ load_job uuid (fst r) = Return (initial_meta uuid t files prm)
          /\ status (initial_meta uuid t files prm) = Some "QUEUED"%string
          /\ attempts (initial_meta uuid t files prm) = Some 0
          /\ progress_history (initial_meta uuid t files prm) = Some [])
    /\ (forall fd, snd r = Return (Failure fd) ->
          fd = mkFailure "FAILED" "Failed creating job"
          /\ (lookup uuid s = None -> exists e, load_job uuid (fst r) = Raise e)).
Proof.
  intros uuid mkdir_ok f t files prm s r. subst r.
  unfold create_job.
  set (meta := initial_meta uuid t files prm).
  assert (Hw : forall d,
             let x := write_job_json f t meta d in
             (exists u, snd x = Return u /\ job_json (fst x) = Holds meta)
             \/ (exists e, snd x = Raise e
                 /\ (job_json d = Absent ->
                     job_json (fst x) = Absent \/ job_json (fst x) = Garbled))).
  { intros d. unfold write_job_json.
    destruct (dumps_raises f); simpl; [right; eexists; split; eauto|].
    destruct (tmp_write f); simpl; rewrite ?job_json_touch_if; simpl.
    - destruct (replace_ok f); simpl; [left; eexists; split; eauto|].
      destruct (direct_write f); simpl; rewrite ?job_json_touch_if; simpl;
        rewrite ?job_json_touch_if; simpl.
      + left; eexists; split; eauto.
      + right; eexists; split; eauto.
      + right; eexists; split; eauto.
    - right; eexists; split; eauto.
    - right; eexists; split; eauto. }
  assert (Hn : lookup uuid s = None ->
               lookup uuid (s ++ [(uuid, Directory (new_dir t))])
               = Some (Directory (new_dir t))).
  { intros H. rewrite lookup_app_new by exact H. now rewrite String.eqb_refl. }
  destruct (lookup uuid s) as [[m|d]|] eqn:E.
  - (* a regular file is in the way *)
    simpl. split; [eauto|]. split; [intros i H; discriminate|].
    intros fd H. split; [congruence|]. intros H0; discriminate.
  - (* the directory exists already *)
    destruct (write_job_json f t meta d) as [d' r] eqn:Ew.
    destruct (Hw d) as [[u [Hr Hj]]|[e [Hr _]]]; rewrite Ew in *; simpl in *;
      subst r.
    + split; [eauto|]. split.
      * intros i H. inversion H; subst i. repeat split.
        unfold load_job. rewrite (lookup_put_same _ _ _ _ E). now rewrite Hj.
      * intros fd H; discriminate.
    + split; [eauto|]. split; [intros i H; discriminate|].
      intros fd H. split; [congruence|]. intros H0; discriminate.
  - destruct mkdir_ok.
    + destruct (write_job_json f t meta (new_dir t)) as [d' r] eqn:Ew.
      specialize (Hn eq_refl).
      destruct (Hw (new_dir t)) as [[u [Hr Hj]]|[e [Hr Hj]]];
        rewrite Ew in *; simpl in *; subst r.
      * split; [eauto|]. split.
        -- intros i H. inversion H; subst i. repeat split.
           unfold load_job. rewrite (lookup_put_same _ _ _ _ Hn). now rewrite Hj.
        -- intros fd H; discriminate.
      * split; [eauto|]. split; [intros i H; discriminate|].
        intros fd H. split; [congruence|]. intros _.
        unfold load_job. rewrite (lookup_put_same _ _ _ _ Hn).
        destruct (Hj eq_refl) as [Hj'|Hj']; rewrite Hj'; eauto.
    + simpl. split; [eauto|]. split; [intros i H; discriminate|].
      intros fd H. split; [congruence|]. intros _.
      unfold load_job. rewrite E. eauto.
Qed.

Lemma create_job_returns_id_or_failure_dict_witness :
  snd (create_job "A" true no_fault 1 [] [] []) = Return (JobId "A")
  /\ load_job "A" (fst (create_job "A" true no_fault 1 [] [] []))
     = Return (initial_meta "A" 1 [] []).
Proof.
  split; [reflexivity|].
  exact (proj1 (proj2 (proj1 (proj2
           (create_job_returns_id_or_failure_dict "A" true no_fault 1 [] [] []))
           "A"%string eq_refl))).
Defined.

(** C7, the claim as stated fails: on an unwritable medium [create_job]
    returns a value (the failure-shaped dict) where the claim expects an
    error to be raised. *)
Lemma create_job_unwritable_returns_normally :
  snd (create_job "A" false no_fault 1 [] [] [])
  = Return (Failure (mkFailure "FAILED" "Failed creating job"))
  /\ snd (create_job "A" true (mkSaveFault false OpenFails true Written) 1 [] [] [])
     = Return (Failure (mkFailure "FAILED" "Failed creating job")).
Proof. split; reflexivity. Qed.

(** ** Listing *)

Section Sorting.

Context {A : Type} (key : A -> Z).

Lemma insert_desc_perm (x : A) (l : list A) :
  Permutation (insert_desc key x l) (x :: l).
Proof.
  induction l as [|y l IH]; simpl; [reflexivity|].
  destruct (key x <? key y); [|reflexivity].
  rewrite IH. apply perm_swap.
Qed.

Lemma sorted_reverse_perm (l : list A) : Permutation (sorted_reverse key l) l.
Proof.
  induction l as [|x l IH]; simpl; [reflexivity|].
  rewrite insert_desc_perm. now constructor.
Qed.

Lemma sorted_reverse_length (l : list A) :
  List.length (sorted_reverse key l) = List.length l.
Proof. apply Permutation_length, sorted_reverse_perm. Qed.

Let desc (a b : A) : Prop := key b <= key a.

Lemma insert_desc_sorted (x : A) (l : list A) :
  StronglySorted desc l -> StronglySorted desc (insert_desc key x l).
Proof.
  induction l as [|y l IH]; simpl; intros H.
  - repeat constructor.
  - inversion H as [|? ? Hs Hf]; subst.
    destruct (key x <? key y) eqn:E.
    + constructor; [now apply IH|].
      eapply Permutation_Forall;
        [symmetry; apply insert_desc_perm|].
      constructor; [|exact Hf]. unfold desc. lia.
    + constructor; [exact H|].
      assert (Hxy : key y <= key x) by lia.
      constructor; [exact Hxy|].
      eapply Forall_impl; [|exact Hf]. unfold desc. intros; lia.
Qed.

Lemma sorted_reverse_sorted (l : list A) :
  StronglySorted desc (sorted_reverse key l).
Proof.
  induction l as [|x l IH]; simpl; [constructor|].
  now apply insert_desc_sorted.
Qed.

End Sorting.

(** C8, as amended.  [list_jobs] walks the entries of the jobs directory
    from the most recently modified directory to the least recently modified
    one and returns the records it can read, in that order. *)
Theorem list_jobs_by_directory_mtime :
  forall s : Store,
    exists entries,
      Permutation entries s
      /\ StronglySorted by_mtime_desc entries
      /\ list_jobs s = flat_map readable entries.
Proof.
  intros s. exists (sorted_reverse (fun kn => node_mtime (snd kn)) s).
  split; [apply sorted_reverse_perm|].
  split; [|reflexivity].
  apply (sorted_reverse_sorted (fun kn : string * Node => node_mtime (snd kn))).
Qed.

(** C8, the claim as stated fails: once the older of two jobs has been saved
    again, the listing shows it first although it was created first. *)
Lemma list_jobs_not_by_creation_time :
  map created_at (list_jobs Examples.two_jobs) = [Some 2; Some 1]
  /\ map created_at (list_jobs Examples.two_jobs_touched) = [Some 1; Some 2]
  /\ (newest_first_by_creation (list_jobs Examples.two_jobs_touched) <-> False).
Proof.
  split; [reflexivity|]. split; [reflexivity|].
  split; [|tauto].
  intros H. vm_compute in H.
  inversion H as [|? ? _ Hf]; subst.
  inversion Hf as [|? ? Hle _]; subst.
  apply Hle. reflexivity.
Qed.

(** ** Progress history *)

Lemma last_n_length {A} (n : nat) (l : list A) :
  (n <= List.length l)%nat -> List.length (last_n n l) = n.
Proof. intros H. unfold last_n. rewrite length_skipn. lia. Qed.

Lemma last_n_last {A} (n : nat) (l : list A) (x d : A) :
  (0 < n)%nat -> last (last_n n (l ++ [x])) d = x.
Proof.
  intros Hn. unfold last_n. rewrite length_app. simpl.
  replace (List.length l + 1 - n)%nat with (List.length l - (n - 1))%nat by lia.
  rewrite skipn_app.
  replace (List.length l - (n - 1) - List.length l)%nat with 0%nat by lia.
  simpl. apply last_last.
Qed.

Lemma history_of_hooked t p job :
  history_of (hooked t p job) =
  let h := history_of job ++ [mkProgress t p] in
  if 100 <? Z.of_nat (List.length h) then last_n 100 h else h.
Proof. reflexivity. Qed.

(** The worker's callback keeps at most 100 entries, the newest one last. *)
Lemma hooked_history_bounded t p job :
  (List.length (history_of (hooked t p job)) <= 100)%nat
  /\ last (history_of (hooked t p job)) (mkProgress 0 VNull) = mkProgress t p.
Proof.
  rewrite history_of_hooked. cbv zeta.
  set (h := history_of job).
  destruct (100 <? Z.of_nat (List.length (h ++ [mkProgress t p]))) eqn:E.
  - apply Z.ltb_lt in E. split.
    + rewrite last_n_length; lia.
    + apply last_n_last. lia.
  - apply Z.ltb_ge in E. split; [lia|]. apply last_last.
Qed.

(** [update_job] appends a progress entry and never drops one. *)
Lemma update_job_appends t name v s job :
  load_job name s = Return job ->
  persisted_history name (fst (update_job no_fault t name [kw_progress v] s))
  = Some (history_of job ++ [mkProgress t v]).
Proof.
  intros H. unfold update_job. rewrite H.
  unfold load_job in H.
  destruct (lookup name s) as [[m|d]|] eqn:E; try discriminate.
  match goal with
  | |- context [save_job ?f ?t ?n ?j ?s] =>
      pose proof (lookup_save_job_same f t n j s d E) as Hs;
      destruct (save_job f t n j s) as [s' r]
  end.
  cbn [fst] in *. unfold persisted_history, load_job. rewrite Hs.
  rewrite write_job_json_no_fault. reflexivity.
Qed.

(** C2, where the code leaves the claim: 101 progress updates sent through
    [update_job] leave 101 entries in the stored history. *)
Theorem update_job_history_exceeds_100 :
  option_map (@List.length ProgressEntry)
    (persisted_history "A" (Examples.after_updates 100)) = Some 100%nat
  /\ option_map (@List.length ProgressEntry)
       (persisted_history "A" (Examples.after_updates 101)) = Some 101%nat.
Proof. split; vm_compute; reflexivity. Qed.

(** ** Records of the store *)

Lemma status_is_inj a b j :
  status_is a j = true -> status_is b j = true -> a = b.
Proof.
  unfold status_is. destruct (status j) as [s|]; [|discriminate].
  intros H1 H2. apply String.eqb_eq in H1, H2. congruence.
Qed.

Lemma status_is_not_falsy a j : status_is a j = true -> falsy j = false.
Proof.
  unfold status_is, falsy. destruct (status j); [|discriminate].
  intros _. cbn [is_none]. now rewrite andb_false_r.
Qed.

Section StoreAllFacts.

Variable P : Job -> Prop.

Lemma storeall_put name d' s :
  (forall j, job_json d' = Holds j -> P j) ->
  StoreAll P s -> StoreAll P (put name (Directory d') s).
Proof.
  intros Hd Hs k d j Hk Hj. rewrite lookup_put in Hk.
  destruct (String.eqb k name).
  - destruct (lookup k s); [|discriminate]. inversion Hk; subst. auto.
  - eapply Hs; eauto.
Qed.

Lemma storeall_remove name s : StoreAll P s -> StoreAll P (remove name s).
Proof.
  intros Hs k d j Hk Hj. rewrite lookup_remove in Hk.
  destruct (String.eqb k name); [discriminate|]. eapply Hs; eauto.
Qed.

Lemma storeall_rmtree f t name s : StoreAll P s -> StoreAll P (rmtree f t name s).
Proof.
  intros Hs. unfold rmtree.
  destruct (lookup name s) as [[m|d]|] eqn:E; auto.
  destruct (_ && _); [now apply storeall_remove|].
  apply storeall_put; [|exact Hs].
  intros j. rewrite job_json_touch_if. cbn [job_json].
  destruct (keep_json f); [|discriminate]. intros Hj. eapply Hs; eauto.
Qed.

Lemma storeall_save_job f t name data s :
  P data -> StoreAll P s -> StoreAll P (fst (save_job f t name data s)).
Proof.
  intros Hd Hs. unfold save_job.
  destruct (lookup name s) as [[m|d]|] eqn:E; auto.
  pose proof (write_job_json_cases f t data d) as Hc. cbv zeta in Hc.
  destruct (write_job_json f t data d) as [d' r]. cbn [fst] in *.
  apply storeall_put; [|exact Hs].
  intros j Hj. destruct Hc as [Hc|[Hc|Hc]]; rewrite Hc in Hj.
  - congruence.
  - discriminate.
  - eapply Hs; eauto.
Qed.

Lemma storeall_relock name d b t s :
  lookup name s = Some (Directory d) ->
  StoreAll P s -> StoreAll P (put name (Directory (touch t (with_lock b d))) s).
Proof.
  intros E Hs. apply storeall_put; [|exact Hs].
  cbn [touch with_lock job_json]. intros j Hj. eapply Hs; eauto.
Qed.

Lemma storeall_impl (Q : Job -> Prop) s :
  (forall j, P j -> Q j) -> StoreAll P s -> StoreAll Q s.
Proof. intros H Hs k d j Hk Hj. eapply H, Hs; eauto. Qed.

End StoreAllFacts.

(** The same for the records of one directory. *)

Section JobAllFacts.

Variable c : string.
Variable P : Job -> Prop.

Lemma joball_lookup_eq s s' :
  lookup c s' = lookup c s -> JobAll c P s -> JobAll c P s'.
Proof. intros E H d j Hk. rewrite E in Hk. now apply H. Qed.

Lemma joball_put name d' s :
  (name = c -> forall j, job_json d' = Holds j -> P j) ->
  JobAll c P s -> JobAll c P (put name (Directory d') s).
Proof.
  intros Hd Hs d j Hk Hj. rewrite lookup_put in Hk.
  destruct (String.eqb_spec c name) as [->|Hne].
  - destruct (lookup name s); [|discriminate]. inversion Hk; subst. auto.
  - eapply Hs; eauto.
Qed.

Lemma joball_rmtree f t name s : JobAll c P s -> JobAll c P (rmtree f t name s).
Proof.
  intros Hs. unfold rmtree.
  destruct (lookup name s) as [[m|d]|] eqn:E; auto.
  destruct (_ && _).
  - intros d' j Hk. rewrite lookup_remove in Hk.
    destruct (String.eqb c name); [discriminate|]. now apply Hs.
  - apply joball_put; [|exact Hs].
    intros -> j. rewrite job_json_touch_if. cbn [job_json].
    destruct (keep_json f); [|discriminate]. intros Hj. eapply Hs; eauto.
Qed.

Lemma joball_save_job f t name data s :
  (name = c -> P data) -> JobAll c P s ->
  JobAll c P (fst (save_job f t name data s)).
Proof.
  intros Hd Hs. unfold save_job.
  destruct (lookup name s) as [[m|d]|] eqn:E; auto.
  pose proof (write_job_json_cases f t data d) as Hc. cbv zeta in Hc.
  destruct (write_job_json f t data d) as [d' r]. cbn [fst] in *.
  apply joball_put; [|exact Hs].
  intros -> j Hj. destruct Hc as [Hc|[Hc|Hc]]; rewrite Hc in Hj.
  - injection Hj as <-. auto.
  - discriminate.
  - eapply Hs; eauto.
Qed.

Lemma joball_relock name d b t s :
  lookup name s = Some (Directory d) ->
  JobAll c P s -> JobAll c P (put name (Directory (touch t (with_lock b d))) s).
Proof.
  intros E Hs. apply joball_put; [|exact Hs].
  intros -> j. cbn [touch with_lock job_json]. intros Hj. eapply Hs; eauto.
Qed.

Lemma joball_impl (Q : Job -> Prop) s :
  (forall j, P j -> Q j) -> JobAll c P s -> JobAll c Q s.
Proof. intros H Hs d j Hk Hj. eapply H, Hs; eauto. Qed.

End JobAllFacts.

(** ** The retry bound *)

Lemma status_completed a name res j :
  status (completed a name res j) = Some "COMPLETED"%string.
Proof.
  unfold completed. destruct (save_artifacts _ _ _) as [results [e|]]; reflexivity.
Qed.

Lemma failed_cases t exc tb j :
  attempts_of (failed t exc tb j) = attempts_of j
  /\ (status_is "FAILED" (failed t exc tb j) = true <-> MAX_ATTEMPTS <= attempts_of j)
  /\ (status_is "QUEUED" (failed t exc tb j) = true <-> attempts_of j < MAX_ATTEMPTS)
  /\ status_is "RUNNING" (failed t exc tb j) = false.
Proof.
  unfold failed. destruct (attempts_of j <? MAX_ATTEMPTS) eqn:E.
  - apply Z.ltb_lt in E. cbn. repeat split; try discriminate; auto; lia.
  - apply Z.ltb_ge in E. cbn. repeat split; try discriminate; auto; lia.
Qed.

Section JobRetryBound.

Variable c : string.
Variable r : Z.
Hypothesis r_nonneg : 0 <= r.

(** The dict in the worker's hands while the pipeline runs. *)
Let running (j : Job) : Prop :=
  status_is "RUNNING" j = true /\ attempts_of j <= MAX_ATTEMPTS + r.

Lemma running_retry_inv j : running j -> retry_inv r j.
Proof.
  intros [H1 H2]. unfold retry_inv. split; [|split]; intros H0.
  - pose proof (status_is_inj _ _ _ H1 H0); discriminate.
  - exact H2.
  - pose proof (status_is_inj _ _ _ H1 H0); discriminate.
Qed.

Lemma completed_retry_inv a name res j : retry_inv r (completed a name res j).
Proof.
  unfold retry_inv, status_is. rewrite status_completed.
  cbn. split; [|split]; discriminate.
Qed.

Lemma failed_running_retry_inv t exc tb j :
  running j -> retry_inv r (failed t exc tb j).
Proof.
  intros [H1 H2].
  destruct (failed_cases t exc tb j) as (Ha & Hf & Hq & Hr).
  unfold retry_inv. rewrite Ha, Hr. split; [|split]; intros H0.
  - apply Hq in H0. lia.
  - discriminate.
  - apply Hf in H0. lia.
Qed.

Lemma job_retry_inv_poll_cycles env pid n loc w :
  JobAll c (retry_inv r) (jobs w) ->
  JobAll c (retry_inv r) (jobs (snd (poll_cycles env pid n loc w))).
Proof.
  apply (poll_cycles_preserves env pid
           (fun w => JobAll c (retry_inv r) (jobs w))).
  - intros w0 w' Hj _. now rewrite Hj.
  - intros f t name w0 H. world_simpl. now apply joball_rmtree.
  - intros name d job t w0 H E Ej Eq El. world_simpl.
    now apply joball_relock.
  - intros name d job t loc0 w0 w1 H E Ej Eq El Hj1 Ht1.
    apply (process_job_preserves env name (JobAll c (retry_inv r))
             (fun j => name = c -> running j)).
    + intros. apply joball_save_job; auto.
      intros Hn. now apply running_retry_inv; auto.
    + intros. apply joball_save_job; auto. intros _.
      apply completed_retry_inv.
    + intros. apply joball_save_job; auto. intros Hn.
      now apply failed_running_retry_inv; auto.
    + intros. now apply joball_relock.
    + intros t0 p j Hj Hn. exact (Hj Hn).
    + intros t0 ->. split; [reflexivity|].
      change (attempts_of (claimed t0 job)) with (attempts_of job + 1).
      destruct (H d job E Ej) as (Hq & _). specialize (Hq Eq). lia.
    + rewrite Hj1. now apply joball_relock.
Qed.

End JobRetryBound.

(** ** Start and stop of the worker *)

Section Recover.

Variable env : Env.
Variable I : World -> Prop.
Hypothesis I_ext :
  forall w w', jobs w' = jobs w -> trace w' = trace w -> I w -> I w'.
Hypothesis I_requeue :
  forall name d meta f t w,
    I w -> lookup name (jobs w) = Some (Directory d) ->
    job_json d = Holds meta -> status_is "RUNNING" meta = true ->
    I (with_jobs
         (fst (save_job f t name
                 (set_updated_at (Some t) (set_status (Some "QUEUED"%string) meta))
                 (jobs w))) w).

Lemma recover_preserves l w : I w -> I (recover env l w).
Proof.
  revert w. induction l as [|name l IH]; cbn [recover]; intros w H; auto.
  destruct (lookup name (jobs w)) as [[m|d]|] eqn:E; auto.
  unfold load_job. rewrite E.
  destruct (job_json d) as [| |meta] eqn:Ej; auto.
  destruct (falsy meta); auto.
  destruct (status_is "RUNNING" meta) eqn:Es; auto.
  destruct (ask env w) as [a w1] eqn:Ea.
  pose proof (I_ask env I I_ext _ _ _ Ea H) as H1.
  apply ask_spec in Ea. destruct Ea as (-> & Hj & Ht & _).
  pose proof (I_requeue name d meta (save (env (clock w))) (now (env (clock w)))
                w1 H1) as Hr.
  rewrite Hj in Hr. specialize (Hr E Ej Es).
  rewrite Hj.
  destruct (save_job _ _ _ _ (jobs w)) as [s r]. cbn [fst] in Hr.
  now apply IH.
Qed.

Lemma startup_preserves pid w : I w -> I (snd (startup env pid w)).
Proof.
  intros H. unfold startup.
  destruct (ask env w) as [a w1] eqn:Ea.
  destruct (_atomic_write _ _ _ _) as [[p t] r].
  destruct (ask env (with_pid p t w1)) as [a1 w2] eqn:Ea1.
  destruct (ask env (recover env (names (jobs w2)) w2)) as [a2 w4] eqn:Ea2.
  cbn [snd].
  eapply (I_ask env I I_ext); [exact Ea2|]. apply recover_preserves.
  eapply (I_ask env I I_ext); [exact Ea1|].
  eapply (I_ext w1); [reflexivity|reflexivity|].
  eapply (I_ask env I I_ext); eauto.
Qed.

Lemma shutdown_preserves w : I w -> I (shutdown env w).
Proof.
  intros H. unfold shutdown.
  destruct (ask env w) as [a w1] eqn:Ea.
  pose proof (I_ask env I I_ext _ _ _ Ea H) as H1.
  assert (H2 : I (if exists_ (pid_file w1) && unlink_ok a
                  then with_pid Absent (pid_tmp w1) w1 else w1)).
  { destruct (exists_ (pid_file w1) && unlink_ok a); auto.
    eapply (I_ext w1); [reflexivity|reflexivity|exact H1]. }
  destruct (ask env (if exists_ (pid_file w1) && unlink_ok a
                     then with_pid Absent (pid_tmp w1) w1 else w1))
    as [a' w3] eqn:Ea'.
  pose proof (I_ask env I I_ext _ _ _ Ea' H2) as H3.
  destruct (exists_ (heartbeat w3) && unlink_ok a'); auto.
  eapply (I_ext w3); [reflexivity|reflexivity|exact H3].
Qed.

End Recover.

Section JobRetryBoundRestart.

Variable c : string.
Variable r : Z.
Hypothesis r_nonneg : 0 <= r.

(** Between the recovery pass and the first poll: a re-queued job may have
    used up its attempts. *)
Let restarted (j : Job) : Prop :=
  (status_is "QUEUED" j = true -> attempts_of j < MAX_ATTEMPTS + (r + 1))
  /\ (status_is "RUNNING" j = true -> attempts_of j <= MAX_ATTEMPTS + r)
  /\ (status_is "FAILED" j = true ->
      MAX_ATTEMPTS <= attempts_of j <= MAX_ATTEMPTS + r).

Lemma job_retry_inv_startup env pid w :
  JobAll c (retry_inv r) (jobs w) ->
  JobAll c (retry_inv (r + 1)) (jobs (snd (startup env pid w))).
Proof.
  intros H.
  apply (joball_impl c restarted).
  { intros j (H1 & H2 & H3). split; [|split]; intros H0.
    - auto.
    - specialize (H2 H0). lia.
    - specialize (H3 H0). lia. }
  apply (startup_preserves env (fun w => JobAll c restarted (jobs w))).
  - intros w0 w' Hj _. now rewrite Hj.
  - intros name d meta f t w0 H0 E Ej Es. world_simpl.
    apply joball_save_job; [|exact H0].
    intros ->.
    destruct (H0 d meta E Ej) as (_ & H2 & _). specialize (H2 Es).
    split; [|split]; intros Hs; try discriminate.
    change (attempts_of meta < MAX_ATTEMPTS + (r + 1)). lia.
  - apply (joball_impl c (retry_inv r)); [|exact H].
    intros j (H1 & H2 & H3). split; [|split]; intros H0; auto.
    specialize (H1 H0). lia.
Qed.

Lemma job_retry_inv_run_worker_loop env pid n w :
  JobAll c (retry_inv r) (jobs w) ->
  JobAll c (retry_inv (r + 1)) (jobs (run_worker_loop env pid n w)).
Proof.
  intros H. unfold run_worker_loop, worker_running.
  pose proof (job_retry_inv_startup env pid w H) as Hs.
  destruct (startup env pid w) as [loc w1]. cbn [snd] in Hs.
  pose proof (job_retry_inv_poll_cycles c (r + 1) ltac:(lia) env pid n loc w1 Hs)
    as Hp.
  destruct (poll_cycles env pid n loc w1) as [[i loc2] w2]. cbn [snd] in *.
  apply (shutdown_preserves env (fun w => JobAll c (retry_inv (r + 1)) (jobs w)));
    auto.
  intros w0 w' Hj _. now rewrite Hj.
Qed.

End JobRetryBoundRestart.

Lemma one_job_eq :
  Examples.one_job
  = [("A"%string,
      Directory (mkJobDir (Holds (initial_meta "A" 1 [] [])) Absent false 1))].
Proof. reflexivity. Defined.

Lemma fresh_job_retry_inv :
  StoreAll (retry_inv 0) (jobs (fresh_world Examples.one_job)).
Proof.
  intros name d j Hk Hj.
  change (jobs (fresh_world Examples.one_job)) with Examples.one_job in Hk.
  rewrite one_job_eq in Hk. cbn [lookup] in Hk.
  destruct (String.eqb name "A"); [|discriminate].
  inversion Hk; subst d. inversion Hj; subst j.
  split; [|split]; intros H; vm_compute in H; try discriminate.
  reflexivity.
Defined.

(** C1, the claim as stated fails across a restart: a job interrupted on its
    last allowed attempt is re-queued by the next worker and runs a third
    time. *)
Lemma restart_exceeds_max_attempts :
  MAX_ATTEMPTS = 2
  /\ persisted "A" (jobs Examples.interrupted_on_last_attempt)
     = Some (Some "RUNNING"%string, Some 2)
  /\ persisted "A" (jobs Examples.restarted_then_interrupted)
     = Some (Some "RUNNING"%string, Some 3)
  /\ persisted "A" (jobs Examples.restarted_then_raising)
     = Some (Some "FAILED"%string, Some 3).
Proof. repeat split; vm_compute; reflexivity. Qed.

(** ** Cancelled jobs *)

Section Cancelled.

Variable c : string.
Variable j0 : Job.
Variable l0 : bool.
Hypothesis j0_cancelled : status_is "CANCELLED" j0 = true.

Lemma kept_lookup_eq s s' :
  lookup c s' = lookup c s -> kept c j0 l0 s -> kept c j0 l0 s'.
Proof. unfold kept. now intros ->. Qed.

Lemma lookup_rmtree_other f t name s :
  name <> c -> lookup c (rmtree f t name s) = lookup c s.
Proof.
  intros Hn. unfold rmtree.
  destruct (lookup name s) as [[m|d]|]; auto.
  destruct (_ && _).
  - rewrite lookup_remove. destruct (String.eqb_spec c name); congruence.
  - apply lookup_put_other. congruence.
Qed.

Lemma kept_rmtree f t name s : kept c j0 l0 s -> kept c j0 l0 (rmtree f t name s).
Proof.
  intros H. destruct (String.eqb_spec name c) as [->|Hn].
  - unfold rmtree. unfold kept in H.
    destruct (lookup c s) as [[m|d]|] eqn:E; unfold kept; rewrite ?E; auto.
    destruct (_ && _).
    + rewrite lookup_remove, String.eqb_refl. exact I.
    + rewrite (lookup_put_same _ _ _ _ E).
      rewrite job_json_touch_if, lock_touch_if. cbn [job_json lock].
      destruct H as [Hj Hl]. split.
      * destruct (keep_json f); auto.
      * intros Hk. apply andb_true_iff in Hk. tauto.
  - eapply kept_lookup_eq; [|exact H]. now apply lookup_rmtree_other.
Qed.

(** A job the worker can claim, or re-queue at startup, is not the cancelled
    one. *)
Lemma kept_other_status a name d job s :
  a <> "CANCELLED"%string ->
  kept c j0 l0 s -> lookup name s = Some (Directory d) ->
  job_json d = Holds job -> status_is a job = true -> name <> c.
Proof.
  intros Ha H E Ej Es ->. unfold kept in H. rewrite E in H.
  destruct H as [[Hj|Hj] _]; rewrite Hj in Ej; [|discriminate].
  inversion Ej; subst job.
  apply Ha. eapply status_is_inj; eauto.
Qed.

Lemma quiet_refl tr : quiet c tr tr.
Proof. exists []. rewrite app_nil_r. auto. Qed.

Lemma quiet_step tr0 tr e :
  e <> Claimed c -> e <> Invoked c -> quiet c tr0 tr -> quiet c tr0 (tr ++ [e]).
Proof.
  intros H1 H2 (new & -> & Hc & Hi). exists (new ++ [e]).
  rewrite app_assoc. split; [reflexivity|].
  split; intros H; apply in_app_or in H; destruct H as [H|[H|[]]]; auto.
Qed.

Variable env : Env.
Variable pid : Z.
Variable tr0 : list Event.

Let untouched (w : World) : Prop :=
  kept c j0 l0 (jobs w) /\ quiet c tr0 (trace w).

Lemma untouched_ext w w' :
  jobs w' = jobs w -> trace w' = trace w -> untouched w -> untouched w'.
Proof. unfold untouched. now intros -> ->. Qed.

Lemma untouched_rmtree f t name w :
  untouched w -> untouched (with_jobs (rmtree f t name (jobs w)) w).
Proof.
  intros [H1 H2]. split; world_simpl; auto. now apply kept_rmtree.
Qed.

Lemma untouched_poll_cycles n loc w :
  untouched w -> untouched (snd (poll_cycles env pid n loc w)).
Proof.
  apply (poll_cycles_preserves env pid untouched).
  - exact untouched_ext.
  - exact untouched_rmtree.
  - intros name d job t w0 [H1 H2] E Ej Eq El.
    assert (Hn : name <> c)
      by (eapply (kept_other_status "QUEUED"); eauto; discriminate).
    split; world_simpl; auto.
    eapply kept_lookup_eq; [|exact H1]. apply lookup_put_other. congruence.
  - intros name d job t loc0 w0 w1 [H1 H2] E Ej Eq El Hj1 Ht1.
    assert (Hn : name <> c)
      by (eapply (kept_other_status "QUEUED"); eauto; discriminate).
    destruct (process_job_preserves env name (kept c j0 l0) (fun _ => True))
      with (job := job) (loc := loc0) (w := w1) as [Hk Ht]; auto.
    + intros. eapply kept_lookup_eq; [|eassumption].
      apply lookup_save_job_other. congruence.
    + intros. eapply kept_lookup_eq; [|eassumption].
      apply lookup_save_job_other. congruence.
    + intros. eapply kept_lookup_eq; [|eassumption].
      apply lookup_save_job_other. congruence.
    + intros. eapply kept_lookup_eq; [|eassumption].
      apply lookup_put_other. congruence.
    + rewrite Hj1. eapply kept_lookup_eq; [|exact H1].
      apply lookup_put_other. congruence.
    + split; [exact Hk|]. rewrite Ht, Ht1.
      apply quiet_step; [congruence|congruence|].
      apply quiet_step; [congruence|congruence|exact H2].
Qed.

Lemma untouched_startup w :
  untouched w -> untouched (snd (startup env pid w)).
Proof.
  apply (startup_preserves env untouched).
  - exact untouched_ext.
  - intros name d meta f t w0 [H1 H2] E Ej Es.
    assert (Hn : name <> c)
      by (eapply (kept_other_status "RUNNING"); eauto; discriminate).
    split; world_simpl; auto.
    eapply kept_lookup_eq; [|exact H1]. apply lookup_save_job_other. congruence.
Qed.

Lemma untouched_run_worker_loop n w :
  untouched w -> untouched (run_worker_loop env pid n w).
Proof.
  intros H. unfold run_worker_loop, worker_running.
  pose proof (untouched_startup w H) as Hs.
  destruct (startup env pid w) as [loc w1]. cbn [snd] in Hs.
  pose proof (untouched_poll_cycles n loc w1 Hs) as Hp.
  destruct (poll_cycles env pid n loc w1) as [[i loc2] w2]. cbn [snd] in *.
  apply (shutdown_preserves env untouched); auto. exact untouched_ext.
Qed.

End Cancelled.



(** ** Crash recovery *)

Section Recovery.

Variable env : Env.

Lemma recover_frame l w name :
  (forall d j, lookup name (jobs w) = Some (Directory d) ->
               job_json d = Holds j -> status_is "RUNNING" j = false) ->
  lookup name (jobs (recover env l w)) = lookup name (jobs w).
Proof.
  revert w. induction l as [|name0 l IH]; cbn [recover]; intros w H; auto.
  destruct (lookup name0 (jobs w)) as [[m|d]|] eqn:E; auto.
  unfold load_job. rewrite E.
  destruct (job_json d) as [| |meta] eqn:Ej; auto.
  destruct (falsy meta); auto.
  destruct (status_is "RUNNING" meta) eqn:Es; auto.
  destruct (ask env w) as [a w1] eqn:Ea.
  apply ask_spec in Ea. destruct Ea as (-> & Hj & _).
  assert (Hn : name <> name0).
  { intros ->. rewrite (H d meta E Ej) in Es. discriminate. }
  pose proof (lookup_save_job_other (save (env (clock w))) (now (env (clock w)))
                name0
                (set_updated_at (Some (now (env (clock w))))
                   (set_status (Some "QUEUED"%string) meta))
                (jobs w1) name Hn) as Hs.
  destruct (save_job _ _ _ _ (jobs w1)) as [s r]. cbn [fst] in Hs.
  rewrite IH; world_simpl; rewrite Hs, Hj; auto.
Qed.

Hypothesis env_reliable : reliable_saves env.

Lemma recover_requeues l w name d j :
  In name l ->
  lookup name (jobs w) = Some (Directory d) -> job_json d = Holds j ->
  status_is "RUNNING" j = true ->
  exists d' t,
    lookup name (jobs (recover env l w)) = Some (Directory d')
    /\ job_json d' = Holds (requeued t j) /\ lock d' = lock d.
Proof.
  revert w. induction l as [|name0 l IH]; cbn [recover]; intros w Hin E Ej Es.
  - destruct Hin.
  - destruct (String.eqb_spec name0 name) as [->|Hn].
    + rewrite E. unfold load_job. rewrite E, Ej.
      rewrite (status_is_not_falsy _ _ Es), Es.
      destruct (ask env w) as [a w1] eqn:Ea.
      apply ask_spec in Ea. destruct Ea as (-> & Hj & _).
      rewrite env_reliable, Hj.
      pose proof (lookup_save_job_same no_fault (now (env (clock w))) name
                    (requeued (now (env (clock w))) j) (jobs w) d E) as Hs.
      fold (requeued (now (env (clock w))) j).
      destruct (save_job _ _ _ _ (jobs w)) as [s r]. cbn [fst] in Hs.
      exists (fst (write_job_json no_fault (now (env (clock w)))
                     (requeued (now (env (clock w))) j) d)),
             (now (env (clock w))).
      rewrite recover_frame; world_simpl.
      * split; [exact Hs|]. split; [apply write_job_json_no_fault|].
        apply write_job_json_lock.
      * intros d0 j1 E0 Ej0. rewrite Hs in E0.
        assert (Hd0 : d0 = fst (write_job_json no_fault (now (env (clock w)))
                                  (requeued (now (env (clock w))) j) d))
          by congruence.
        rewrite Hd0, write_job_json_no_fault in Ej0.
        assert (Hj1 : j1 = requeued (now (env (clock w))) j) by congruence.
        rewrite Hj1. reflexivity.
    + destruct Hin as [Hin|Hin]; [congruence|].
      destruct (lookup name0 (jobs w)) as [[m|d0]|] eqn:E0; auto.
      unfold load_job. rewrite E0.
      destruct (job_json d0) as [| |meta] eqn:Ej0; auto.
      destruct (falsy meta); auto.
      destruct (status_is "RUNNING" meta) eqn:Es0; auto.
      destruct (ask env w) as [a w1] eqn:Ea.
      apply ask_spec in Ea. destruct Ea as (-> & Hj & _).
      assert (Hn' : name <> name0) by congruence.
      pose proof (lookup_save_job_other (save (env (clock w)))
                    (now (env (clock w))) name0
                    (set_updated_at (Some (now (env (clock w))))
                       (set_status (Some "QUEUED"%string) meta))
                    (jobs w1) name Hn') as Hs.
      destruct (save_job _ _ _ _ (jobs w1)) as [s r]. cbn [fst] in Hs.
      apply IH; world_simpl; auto. now rewrite Hs, Hj.
Qed.

Lemma startup_jobs pid w :
  exists w2, jobs w2 = jobs w
             /\ jobs (snd (startup env pid w)) = jobs (recover env (names (jobs w)) w2).
Proof.
  unfold startup.
  destruct (ask env w) as [a w1] eqn:Ea.
  apply ask_spec in Ea. destruct Ea as (-> & Hj & _).
  destruct (_atomic_write _ _ _ _) as [[p t] r].
  destruct (ask env (with_pid p t w1)) as [a1 w2] eqn:Ea1.
  apply ask_spec in Ea1. destruct Ea1 as (-> & Hj1 & _).
  destruct (ask env (recover env (names (jobs w2)) w2)) as [a2 w4] eqn:Ea2.
  apply ask_spec in Ea2. destruct Ea2 as (-> & Hj2 & _).
  cbn [snd]. world_simpl. exists w2. split; [congruence|].
  rewrite Hj2. now rewrite Hj1, Hj.
Qed.

End Recovery.

(** C5.  When the store takes the writes, the code that [run_worker_loop]
    executes before its polling loop leaves every job it found RUNNING as
    QUEUED (same record otherwise, apart from [updated_at]; the lock marker is
    not looked at), and leaves every other entry of the jobs directory as it
    was. *)
Theorem recovery_requeues_running_jobs :
  forall env pid w name,
    reliable_saves env ->
    (forall d j,
        lookup name (jobs w) = Some (Directory d) ->
        job_json d = Holds j ->
        status_is "RUNNING" j = true ->
        exists d' t,
          lookup name (jobs (snd (startup env pid w))) = Some (Directory d')
          /\ job_json d' = Holds (requeued t j)
          /\ status (requeued t j) = Some "QUEUED"%string
          /\ lock d' = lock d)
    /\ ((forall d j,
            lookup name (jobs w) = Some (Directory d) ->
            job_json d = Holds j -> status_is "RUNNING" j = false) ->
        lookup name (jobs (snd (startup env pid w))) = lookup name (jobs w)).
Proof.
  intros env pid w name Hrel.
  destruct (startup_jobs env pid w) as (w2 & Hj2 & Hs). rewrite Hs.
  split.
  - intros d j E Ej Es.
    destruct (recover_requeues env Hrel (names (jobs w)) w2 name d j)
      as (d' & t & H1 & H2 & H3); auto.
    + eapply lookup_in_names; eauto.
    + now rewrite Hj2.
    + exists d', t. auto.
  - intros H. rewrite recover_frame; [now rewrite Hj2|].
    rewrite Hj2. exact H.
Qed.

Lemma steady_reliable r : reliable_saves (Examples.steady r).
Proof. intros t. reflexivity. Defined.


Lemma recovery_requeues_running_jobs_witness :
  reliable_saves (Examples.steady Examples.raising)
  /\ lookup "A" (jobs Examples.interrupted_on_last_attempt)
     = Some (Directory Examples.orphan_dir)
  /\ job_json Examples.orphan_dir = Holds Examples.orphan_job
  /\ status_is "RUNNING" Examples.orphan_job = true
  /\ exists d' t,
       lookup "A"
         (jobs (snd (startup (Examples.steady Examples.raising) 7
                       Examples.interrupted_on_last_attempt)))
       = Some (Directory d')
       /\ job_json d' = Holds (requeued t Examples.orphan_job)
       /\ status (requeued t Examples.orphan_job) = Some "QUEUED"%string
       /\ lock d' = lock Examples.orphan_dir.
Proof.
  split; [apply steady_reliable|].
  split; [reflexivity|]. split; [reflexivity|]. split; [reflexivity|].
  exact (proj1
           (recovery_requeues_running_jobs (Examples.steady Examples.raising) 7
              Examples.interrupted_on_last_attempt "A"
              (steady_reliable Examples.raising))
           Examples.orphan_dir Examples.orphan_job eq_refl eq_refl eq_refl).
Defined.

(** ** Steps of one claimed job *)

Section ClaimedSteps.

Variable env : Env.
Variable name : string.

Lemma progress_hook_clock p job loc w :
  clock (snd (progress_hook env name p (job, loc, w))) = S (clock w).
Proof.
  unfold progress_hook.
  destruct (ask env w) as [a w1] eqn:Ea.
  apply ask_spec in Ea. destruct Ea as (-> & _ & _ & _ & _ & Hc).
  destruct (save_job _ _ _ _ _) as [s' r]. cbn [snd]. now world_simpl.
Qed.

Lemma hooks_clock ps job loc w :
  clock (snd (fold_left (fun st p => progress_hook env name p st) ps (job, loc, w)))
  = (clock w + List.length ps)%nat.
Proof.
  revert job loc w.
  induction ps as [|p ps IH]; cbn [fold_left List.length]; intros job loc w.
  - cbn [snd]. lia.
  - pose proof (progress_hook_clock p job loc w) as Hc.
    destruct (progress_hook env name p (job, loc, w)) as [[job' loc'] w'].
    cbn [snd] in Hc. rewrite IH, Hc. lia.
Qed.

Lemma is_dir_save_job f t data s :
  is_dir name s -> is_dir name (fst (save_job f t name data s)).
Proof.
  intros [d E]. eexists. apply lookup_save_job_same. exact E.
Qed.

Lemma release_lock_load w :
  load_job name (jobs (release_lock env name w)) = load_job name (jobs w).
Proof.
  unfold release_lock.
  destruct (lookup name (jobs w)) as [[m|d]|] eqn:E; auto.
  destruct (lock d); auto.
  destruct (ask env w) as [a w1] eqn:Ea.
  apply ask_spec in Ea. destruct Ea as (-> & Hj & _).
  destruct (unlink_ok _); world_simpl; rewrite Hj; auto.
  unfold load_job. rewrite (lookup_put_same _ _ _ _ E), E. reflexivity.
Qed.

End ClaimedSteps.

(** ** Heartbeat *)

Section Heartbeat.

Variable env : Env.
Variable pid : Z.

Lemma recover_heartbeat l w : heartbeat (recover env l w) = heartbeat w.
Proof.
  revert w. induction l as [|name l IH]; cbn [recover]; intros w; auto.
  destruct (lookup name (jobs w)) as [[m|d]|]; auto.
  destruct (load_job name (jobs w)) as [meta|]; auto.
  destruct (falsy meta); auto.
  destruct (status_is "RUNNING" meta); auto.
  destruct (ask env w) as [a w1] eqn:Ea.
  apply ask_spec in Ea. destruct Ea as (-> & _ & _ & Hh & _).
  destruct (save_job _ _ _ _ _) as [s r].
  rewrite IH. now world_simpl.
Qed.

Lemma startup_heartbeat w : heartbeat (snd (startup env pid w)) = heartbeat w.
Proof.
  unfold startup.
  destruct (ask env w) as [a w1] eqn:Ea.
  apply ask_spec in Ea. destruct Ea as (-> & _ & _ & Hh & _).
  destruct (_atomic_write _ _ _ _) as [[p t] r].
  destruct (ask env (with_pid p t w1)) as [a1 w2] eqn:Ea1.
  apply ask_spec in Ea1. destruct Ea1 as (-> & _ & _ & Hh1 & _).
  destruct (ask env (recover env (names (jobs w2)) w2)) as [a2 w4] eqn:Ea2.
  apply ask_spec in Ea2. destruct Ea2 as (-> & _ & _ & Hh2 & _).
  cbn [snd]. rewrite Hh2, recover_heartbeat, Hh1. now world_simpl.
Qed.

Lemma retention_heartbeat cutoff l w :
  heartbeat (retention env cutoff l w) = heartbeat w.
Proof.
  revert w. induction l as [|name l IH]; cbn [retention]; intros w; auto.
  destruct (lookup name (jobs w)) as [[m|d]|]; auto.
  destruct (load_job name (jobs w)) as [meta|]; auto.
  destruct (falsy meta); auto.
  destruct (_ && _); auto.
  destruct (ask env w) as [a w1] eqn:Ea.
  apply ask_spec in Ea. destruct Ea as (-> & _ & _ & Hh & _).
  rewrite IH. now world_simpl.
Qed.

Lemma visit_idle name loc w :
  nothing_queued (jobs w) -> visit env pid name loc w = (false, loc, w).
Proof.
  intros H. unfold visit.
  destruct (lookup name (jobs w)) as [[m|d]|] eqn:E; auto.
  unfold load_job. rewrite E.
  destruct (job_json d) as [| |job] eqn:Ej; auto.
  destruct (falsy job); auto.
  destruct (status_is "CANCELLED" job); auto.
  now rewrite (H name d job E Ej).
Qed.

Lemma poll_jobs_idle l loc w :
  nothing_queued (jobs w) -> poll_jobs env pid l loc w = (false, loc, w).
Proof.
  intros H. induction l as [|name l IH]; cbn [poll_jobs]; auto.
  now rewrite visit_idle.
Qed.

Lemma poll_cycle_idle loc w :
  nothing_queued (jobs w) ->
  exists w',
    poll_cycle env pid loc w = (false, loc, w')
    /\ nothing_queued (jobs w') /\ heartbeat w' = heartbeat w.
Proof.
  intros H. unfold poll_cycle. rewrite poll_jobs_idle by exact H.
  destruct (ask env w) as [a w2] eqn:Ea.
  pose proof Ea as Ea'.
  apply ask_spec in Ea. destruct Ea as (-> & Hj & _ & Hh & _).
  eexists. split; [reflexivity|]. split.
  - apply (retention_preserves env (fun w => nothing_queued (jobs w))).
    + intros w0 w' Hj0 _. now rewrite Hj0.
    + intros f t name w0 H0. world_simpl. now apply storeall_rmtree.
    + now rewrite Hj.
  - now rewrite retention_heartbeat.
Qed.

Lemma poll_cycles_idle n loc w :
  nothing_queued (jobs w) ->
  heartbeat (snd (poll_cycles env pid n loc w)) = heartbeat w.
Proof.
  revert w. induction n as [|n IH]; cbn [poll_cycles]; intros w H; auto.
  destruct (poll_cycle_idle loc w H) as (w' & -> & Hq & Hh).
  rewrite IH by exact Hq. exact Hh.
Qed.

(** The outer [finally] removes the heartbeat, if the unlink goes through. *)
Lemma shutdown_removes_heartbeat w :
  unlink_ok (env (S (clock w))) = true -> heartbeat (shutdown env w) = Absent.
Proof.
  intros H. unfold shutdown.
  destruct (ask env w) as [a w1] eqn:Ea.
  apply ask_spec in Ea. destruct Ea as (-> & _ & _ & _ & _ & Hc).
  assert (Hc2 : clock (if exists_ (pid_file w1) && unlink_ok (env (clock w))
                       then with_pid Absent (pid_tmp w1) w1 else w1)
                = S (clock w)).
  { destruct (_ && _); [|exact Hc]. exact Hc. }
  destruct (ask env (if exists_ (pid_file w1) && unlink_ok (env (clock w))
                     then with_pid Absent (pid_tmp w1) w1 else w1))
    as [a' w3] eqn:Ea'.
  apply ask_spec in Ea'. destruct Ea' as (-> & _ & _ & _ & _ & _).
  rewrite Hc2, H, andb_true_r.
  destruct (heartbeat w3) eqn:Eh; cbn [exists_]; auto.
Qed.

End Heartbeat.

(** C3, where the code leaves the claim.  The code that runs before the
    polling loop never writes the heartbeat, and poll cycles that find no
    QUEUED job leave the heartbeat file as it was: a worker that starts on an
    idle queue has no heartbeat, however many cycles it runs. *)
Theorem idle_worker_writes_no_heartbeat :
  forall env pid n loc w,
    heartbeat (snd (startup env pid w)) = heartbeat w
    /\ (nothing_queued (jobs w) ->
        heartbeat (snd (poll_cycles env pid n loc w)) = heartbeat w)
    /\ heartbeat
         (snd (worker_running env pid n
                 (mkWorld [] Absent Absent Absent Absent 0 []))) = Absent.
Proof.
  intros env pid n loc w. split; [apply startup_heartbeat|].
  split; [apply poll_cycles_idle|].
  unfold worker_running.
  pose proof (startup_heartbeat env pid (mkWorld [] Absent Absent Absent Absent 0 []))
    as Hs.
  destruct (startup_jobs env pid (mkWorld [] Absent Absent Absent Absent 0 []))
    as (w2 & Hj2 & Hj).
  destruct (startup env pid _) as [loc1 w1]. cbn [snd] in *.
  pose proof (poll_cycles_idle env pid n loc1 w1) as Hp.
  destruct (poll_cycles env pid n loc1 w1) as [[i loc2] w3]. cbn [snd] in *.
  rewrite Hp; [exact Hs|].
  cbn [jobs] in Hj2. rewrite Hj. cbn [jobs names map recover]. rewrite Hj2.
  intros name d j Hk. discriminate.
Qed.

Lemma cancelled_store_nothing_queued :
  nothing_queued (jobs (fresh_world Examples.cancelled_store)).
Proof.
  intros name d j Hk Hj.
  change (jobs (fresh_world Examples.cancelled_store))
    with [("A"%string, Directory Examples.cancelled_dir)] in Hk.
  cbn [lookup] in Hk.
  destruct (String.eqb name "A"); [|discriminate].
  assert (Hd : d = Examples.cancelled_dir) by congruence.
  rewrite Hd in Hj. vm_compute in Hj.
  injection Hj as <-. reflexivity.
Defined.

Lemma idle_worker_writes_no_heartbeat_witness :
  nothing_queued (jobs (fresh_world Examples.cancelled_store))
  /\ heartbeat
       (snd (poll_cycles (Examples.steady Examples.raising) 7 5
               (mkLocals 0 None 0 None 0)
               (fresh_world Examples.cancelled_store))) = Absent.
Proof.
  split; [exact cancelled_store_nothing_queued|].
  exact (proj1 (proj2
           (idle_worker_writes_no_heartbeat (Examples.steady Examples.raising) 7 5
              (mkLocals 0 None 0 None 0) (fresh_world Examples.cancelled_store)))
           cancelled_store_nothing_queued).
Defined.

(** ** Retention *)

Section Counting.

Lemma lookup_of_in (s : Store) k n :
  NoDup (names s) -> In (k, n) s -> lookup k s = Some n.
Proof.
  induction s as [|[k' n'] s IH]; cbn [names map fst lookup In]; intros Hnd Hin.
  - destruct Hin.
  - inversion Hnd as [|? ? Hni Hnd']; subst.
    destruct Hin as [Heq|Hin].
    + inversion Heq; subst. now rewrite String.eqb_refl.
    + destruct (String.eqb_spec k k') as [->|Hne]; [|now apply IH].
      exfalso. apply Hni. change (In k' (names s)).
      eapply lookup_in_names. apply IH; eauto.
Qed.

Lemma in_of_lookup (s : Store) k n : lookup k s = Some n -> In (k, n) s.
Proof.
  induction s as [|[k' n'] s IH]; cbn [lookup]; intros H; [discriminate|].
  destruct (String.eqb_spec k k') as [->|Hne].
  - inversion H; subst. now left.
  - right. now apply IH.
Qed.

Lemma names_remove name (s : Store) :
  names (remove name s) = filter (fun k => negb (String.eqb name k)) (names s).
Proof.
  unfold names, remove. induction s as [|[k n] s IH]; cbn; auto.
  destruct (String.eqb name k); cbn; now rewrite IH.
Qed.

Lemma nodup_remove name (s : Store) :
  NoDup (names s) -> NoDup (names (remove name s)).
Proof. intros H. rewrite names_remove. now apply NoDup_filter. Qed.

Lemma remove_absent name (s : Store) : ~ In name (names s) -> remove name s = s.
Proof.
  unfold remove, names. induction s as [|[k n] s IH]; cbn; intros H; auto.
  destruct (String.eqb_spec name k) as [->|Hne]; cbn.
  - exfalso. apply H. now left.
  - f_equal. apply IH. tauto.
Qed.

Variable p : Node -> bool.

Let count (s : Store) : nat := List.length (filter (fun kn => p (snd kn)) s).

Lemma count_remove name n (s : Store) :
  NoDup (names s) -> lookup name s = Some n ->
  (count (remove name s) + (if p n then 1 else 0) = count s)%nat.
Proof.
  unfold count.
  induction s as [|[k n'] s IH]; cbn [names map fst lookup]; intros Hnd Hl.
  - discriminate.
  - inversion Hnd as [|? ? Hni Hnd']; subst.
    destruct (String.eqb_spec name k) as [->|Hne].
    + inversion Hl; subst n'.
      unfold remove at 1. cbn [filter fst]. rewrite String.eqb_refl. cbn [negb].
      fold (remove k s). rewrite (remove_absent k s Hni).
      cbn [filter snd]. destruct (p n); cbn [List.length]; lia.
    + unfold remove at 1. cbn [filter fst].
      destruct (String.eqb_spec name k) as [|_]; [congruence|]. cbn [negb].
      fold (remove name s). cbn [filter snd].
      specialize (IH Hnd' Hl).
      destruct (p n'); cbn [List.length]; lia.
Qed.

End Counting.

Section Sweeper.

Variable env : Env.

Lemma rmtree_no_fault t name s d :
  lookup name s = Some (Directory d) ->
  rmtree no_del_fault t name s = remove name s.
Proof.
  intros E. unfold rmtree. rewrite E. cbn. now rewrite andb_false_r.
Qed.

Lemma loadable_remove name s : loadable s -> loadable (remove name s).
Proof.
  intros H k d Hin. apply (H k d).
  unfold remove in Hin. apply filter_In in Hin. tauto.
Qed.

(** [gather] on a listing whose records all load. *)
Lemma gather_gathered (l s : Store) :
  (forall k n, In (k, n) l -> lookup k s = Some n) ->
  loadable l ->
  gather (names l) s = Return (gathered l).
Proof.
  induction l as [|[k n] l IH]; cbn [names map fst gather]; intros Hl Hld.
  - reflexivity.
  - assert (IH' : gather (names l) s = Return (gathered l)).
    { apply IH.
      - intros k0 n0 Hin. apply Hl. now right.
      - intros k0 d0 Hin. apply (Hld k0 d0). now right. }
    fold (names l). rewrite (Hl k n (or_introl eq_refl)).
    destruct n as [m|d].
    + exact IH'.
    + destruct (Hld k d (or_introl eq_refl)) as [j Hj].
      unfold load_job. rewrite (Hl k (Directory d) (or_introl eq_refl)), Hj.
      rewrite IH'. unfold gathered. cbn [flat_map fst snd].
      unfold is_terminal_node, node_created. rewrite Hj.
      destruct (falsy j); cbn [negb andb]; [reflexivity|].
      destruct (terminal j); reflexivity.
Qed.

Lemma gather_store s :
  NoDup (names s) -> loadable s -> gather (names s) s = Return (gathered s).
Proof.
  intros Hnd Hld. apply gather_gathered; auto.
  intros k n. now apply lookup_of_in.
Qed.

(** What [gather] returns are terminal records of the store it read. *)
Lemma gather_terminal l s found :
  gather l s = Return found ->
  forall k c, In (k, c) found ->
    exists d j, lookup k s = Some (Directory d) /\ job_json d = Holds j
                /\ terminal j = true.
Proof.
  revert found. induction l as [|name l IH]; cbn [gather]; intros found H k c Hin.
  - inversion H; subst. destruct Hin.
  - destruct (lookup name s) as [[m|d]|] eqn:E; try (eapply IH; eauto; fail).
    unfold load_job in H. rewrite E in H.
    destruct (job_json d) as [| |meta] eqn:Ej; try discriminate.
    destruct (gather l s) as [found'|]; try discriminate.
    destruct (falsy meta); [inversion H; subst; eapply IH; eauto|].
    destruct (terminal meta) eqn:Et; inversion H; subst;
      [|eapply IH; eauto].
    destruct Hin as [Heq|Hin]; [|eapply IH; eauto].
    inversion Heq; subst. eauto.
Qed.

Lemma gathered_names_in l k c : In (k, c) (gathered l) -> In k (names l).
Proof.
  unfold gathered, names. induction l as [|[k' n] l IH]; cbn; intros H; auto.
  apply in_app_or in H. destruct H as [H|H]; [|right; now apply IH].
  destruct (is_terminal_node n); [|destruct H].
  destruct H as [H|[]]. inversion H. now left.
Qed.

Lemma gathered_nodup l : NoDup (names l) -> NoDup (map fst (gathered l)).
Proof.
  unfold gathered. induction l as [|[k n] l IH]; cbn [names map fst flat_map snd];
    intros H.
  - constructor.
  - inversion H as [|? ? Hni Hnd]; subst.
    destruct (is_terminal_node n); cbn [app map fst]; [|now apply IH].
    constructor; [|now apply IH].
    intros Hin. apply Hni. apply in_map_iff in Hin.
    destruct Hin as [[k' c] [Hk Hin]]. cbn in Hk. subst k'.
    eapply gathered_names_in; eauto.
Qed.

Lemma gathered_length l : List.length (gathered l) = terminal_count l.
Proof.
  unfold gathered, terminal_count.
  induction l as [|[k n] l IH]; cbn [flat_map filter snd]; auto.
  rewrite length_app, IH. destruct (is_terminal_node n); reflexivity.
Qed.

Lemma gathered_recent_length cutoff l :
  List.length (filter (fun x => negb (too_old cutoff (snd x))) (gathered l))
  = within_age_count cutoff l.
Proof.
  unfold gathered, within_age_count.
  induction l as [|[k n] l IH]; cbn [flat_map filter snd]; auto.
  rewrite filter_app, length_app, IH.
  destruct (is_terminal_node n); cbn [filter snd andb]; [|reflexivity].
  destruct (too_old cutoff (node_created n)); reflexivity.
Qed.

Lemma listed_tail x l s name d :
  NoDup (map fst (x :: l)) -> fst x = name ->
  lookup name s = Some (Directory d) ->
  listed (x :: l) s -> listed l (remove name s).
Proof.
  intros Hnd Hx E H k c Hin.
  destruct (H k c (or_intror Hin)) as (d' & Hl & Ht).
  exists d'. split; [|exact Ht].
  rewrite lookup_remove.
  destruct (String.eqb_spec k name) as [->|Hne]; [|exact Hl].
  exfalso. inversion Hnd as [|? ? Hni _]; subst. apply Hni.
  apply in_map_iff. exists (fst x, c). auto.
Qed.

Hypothesis env_deletes : reliable_deletes env.

Lemma delete_by_age_count cutoff l w :
  NoDup (names (jobs w)) -> NoDup (map fst l) -> listed l (jobs w) ->
  NoDup (names (jobs (delete_by_age env cutoff l w)))
  /\ (loadable (jobs w) -> loadable (jobs (delete_by_age env cutoff l w)))
  /\ (terminal_count (jobs (delete_by_age env cutoff l w))
      + List.length (filter (fun x => too_old cutoff (snd x)) l)
      = terminal_count (jobs w))%nat.
Proof.
  revert w. induction l as [|[name created] l IH];
    cbn [delete_by_age filter snd]; intros w Hnd Hl Hls.
  - cbn [List.length]. repeat split; auto.
  - fold (too_old cutoff created).
    destruct (Hls name created (or_introl eq_refl)) as (d & E & Ht).
    destruct (too_old cutoff created).
    + destruct (ask env w) as [a w1] eqn:Ea.
      apply ask_spec in Ea. destruct Ea as (-> & Hj & _).
      rewrite env_deletes, Hj.
      change (mkDelFault false false false false) with no_del_fault.
      rewrite (rmtree_no_fault _ _ _ _ E).
      destruct (IH (with_jobs (remove name (jobs w)) w1)) as (H1 & H2 & H3).
      * world_simpl. now apply nodup_remove.
      * now inversion Hl.
      * world_simpl. eapply listed_tail; eauto.
      * world_simpl. split; [exact H1|]. split.
        -- intros Hld. apply H2. now apply loadable_remove.
        -- pose proof (count_remove is_terminal_node name _ (jobs w) Hnd E) as Hc.
           rewrite Ht in Hc. unfold terminal_count in *.
           cbn [List.length]. lia.
    + apply IH; auto.
      * now inversion Hl.
      * intros k c Hin. apply (Hls k c). now right.
Qed.

Lemma prune_count l w :
  NoDup (names (jobs w)) -> NoDup (map fst l) -> listed l (jobs w) ->
  (terminal_count (jobs (prune env l w)) + List.length l
   = terminal_count (jobs w))%nat.
Proof.
  revert w. induction l as [|[name created] l IH];
    cbn [prune List.length]; intros w Hnd Hl Hls.
  - lia.
  - destruct (Hls name created (or_introl eq_refl)) as (d & E & Ht).
    destruct (ask env w) as [a w1] eqn:Ea.
    apply ask_spec in Ea. destruct Ea as (-> & Hj & _).
    rewrite env_deletes, Hj.
    change (mkDelFault false false false false) with no_del_fault.
    rewrite (rmtree_no_fault _ _ _ _ E).
    pose proof (IH (with_jobs (remove name (jobs w)) w1)) as H3.
    world_simpl.
    pose proof (count_remove is_terminal_node name _ (jobs w) Hnd E) as Hc.
    rewrite Ht in Hc. unfold terminal_count in *.
    rewrite <- Hc, <- H3.
    + lia.
    + now apply nodup_remove.
    + now inversion Hl.
    + eapply listed_tail; eauto.
Qed.

End Sweeper.

Lemma in_skipn {A} (n : nat) (l : list A) (x : A) : In x (skipn n l) -> In x l.
Proof.
  intros H. rewrite <- (firstn_skipn n l). apply in_or_app. now right.
Qed.

Section SweeperFrame.

Variable env : Env.
Variable name : string.

Lemma delete_by_age_frame cutoff l w :
  (forall k c, In (k, c) l -> k <> name) ->
  lookup name (jobs (delete_by_age env cutoff l w)) = lookup name (jobs w).
Proof.
  revert w. induction l as [|[k created] l IH]; cbn [delete_by_age];
    intros w H; auto.
  assert (Hrest : forall k0 c, In (k0, c) l -> k0 <> name)
    by (intros k0 c Hin; apply (H k0 c); now right).
  destruct (_ && _); [|now apply IH].
  destruct (ask env w) as [a w1] eqn:Ea.
  apply ask_spec in Ea. destruct Ea as (-> & Hj & _).
  rewrite IH by exact Hrest. world_simpl. rewrite Hj.
  apply lookup_rmtree_other. apply (H k created). now left.
Qed.

Lemma prune_frame l w :
  (forall k c, In (k, c) l -> k <> name) ->
  lookup name (jobs (prune env l w)) = lookup name (jobs w).
Proof.
  revert w. induction l as [|[k created] l IH]; cbn [prune]; intros w H; auto.
  assert (Hrest : forall k0 c, In (k0, c) l -> k0 <> name)
    by (intros k0 c Hin; apply (H k0 c); now right).
  destruct (ask env w) as [a w1] eqn:Ea.
  apply ask_spec in Ea. destruct Ea as (-> & Hj & _).
  rewrite IH by exact Hrest. world_simpl. rewrite Hj.
  apply lookup_rmtree_other. apply (H k created). now left.
Qed.

Lemma cleanup_jobs_frame max_jobs max_age w d j :
  lookup name (jobs w) = Some (Directory d) ->
  job_json d = Holds j -> terminal j = false ->
  lookup name (jobs (_cleanup_jobs env max_jobs max_age w)) = lookup name (jobs w).
Proof.
  intros E Ej Et. unfold _cleanup_jobs.
  assert (Hout : forall s found,
             lookup name s = Some (Directory d) ->
             gather (names s) s = Return found ->
             forall l, (forall x, In x l -> In x found) ->
                       forall k c, In (k, c) l -> k <> name).
  { intros s found Es Hg l Hsub k c Hin ->.
    destruct (gather_terminal _ _ _ Hg name c (Hsub _ Hin))
      as (d' & j' & Hl & Hj' & Ht').
    congruence. }
  destruct (gather (names (jobs w)) (jobs w)) as [found|] eqn:Hg; auto.
  destruct (ask env w) as [a w1] eqn:Ea.
  apply ask_spec in Ea. destruct Ea as (-> & Hj1 & _).
  assert (H2 : lookup name
                 (jobs (delete_by_age env (now (env (clock w)) - max_age * 86400)
                          (sorted_reverse by_created found) w1))
               = lookup name (jobs w)).
  { rewrite delete_by_age_frame; [now rewrite Hj1|].
    apply (Hout (jobs w) found E Hg).
    intros x Hx. eapply Permutation_in; [apply sorted_reverse_perm|exact Hx]. }
  destruct (gather _ (jobs (delete_by_age _ _ _ _))) as [found2|] eqn:Hg2; auto.
  rewrite prune_frame; [exact H2|].
  eapply (Hout _ found2); [rewrite H2; exact E|exact Hg2|].
  intros x Hx.
  eapply Permutation_in; [apply sorted_reverse_perm|].
  eapply in_skipn. exact Hx.
Qed.

End SweeperFrame.

Lemma filter_partition_length {A} (f : A -> bool) (l : list A) :
  (List.length (filter f l) + List.length (filter (fun x => negb (f x)) l)
   = List.length l)%nat.
Proof.
  induction l as [|x l IH]; cbn [filter List.length]; auto.
  destruct (f x); cbn [negb List.length]; lia.
Qed.

Lemma filter_length_perm {A} (f : A -> bool) (l l' : list A) :
  Permutation l l' -> List.length (filter f l) = List.length (filter f l').
Proof.
  induction 1; cbn [filter]; auto.
  - destruct (f x); cbn [List.length]; auto.
  - destruct (f x), (f y); reflexivity.
  - congruence.
Qed.

Lemma listed_gathered s :
  NoDup (names s) -> forall l, (forall x, In x l -> In x (gathered s)) -> listed l s.
Proof.
  intros Hnd l Hsub k c Hin. specialize (Hsub _ Hin).
  unfold gathered in Hsub. apply in_flat_map in Hsub.
  destruct Hsub as [[k' n] [Hin' Hx]]. cbn [fst snd] in Hx.
  destruct (is_terminal_node n) eqn:Ht; [|destruct Hx].
  destruct Hx as [Hx|[]]. inversion Hx; subst.
  destruct n as [m|d]; [discriminate|].
  exists d. split; [now apply lookup_of_in|exact Ht].
Qed.

(** C4, as amended.  The sweep never touches a job that is not COMPLETED or
    FAILED when it runs; and when every job directory has a readable record
    and the deletions succeed, the number of COMPLETED and FAILED jobs it
    leaves is the smaller of the configured maximum and the number of such
    jobs within the age ceiling. *)
Theorem sweep_keeps_min_of_max_and_recent :
  forall env max_jobs max_age w,
    (forall name d j,
        lookup name (jobs w) = Some (Directory d) ->
        job_json d = Holds j -> terminal j = false ->
        lookup name (jobs (_cleanup_jobs env max_jobs max_age w))
        = lookup name (jobs w))
    /\ (NoDup (names (jobs w)) -> loadable (jobs w) -> reliable_deletes env ->
        terminal_count (jobs (_cleanup_jobs env max_jobs max_age w))
        = Nat.min max_jobs
            (within_age_count (now (env (clock w)) - max_age * 86400) (jobs w))).
Proof.
  intros env max_jobs max_age w. split.
  - intros name d j. apply cleanup_jobs_frame.
  - intros Hnd Hld Hdel. unfold _cleanup_jobs.
    rewrite (gather_store _ Hnd Hld).
    destruct (ask env w) as [a w1] eqn:Ea.
    apply ask_spec in Ea. destruct Ea as (-> & Hj1 & _).
    set (cutoff := now (env (clock w)) - max_age * 86400).
    set (sorted1 := sorted_reverse by_created (gathered (jobs w))).
    assert (Hp1 : Permutation sorted1 (gathered (jobs w)))
      by apply sorted_reverse_perm.
    destruct (delete_by_age_count env Hdel cutoff sorted1 w1) as (Hnd2 & Hld2 & Hc2).
    { now rewrite Hj1. }
    { eapply Permutation_NoDup; [apply Permutation_map, Permutation_sym, Hp1|].
      now apply gathered_nodup. }
    { rewrite Hj1. apply listed_gathered; auto.
      intros x Hx. eapply Permutation_in; eauto. }
    rewrite Hj1 in Hld2, Hc2. specialize (Hld2 Hld).
    set (w2 := delete_by_age env cutoff sorted1 w1) in *.
    rewrite (gather_store _ Hnd2 Hld2).
    set (sorted2 := sorted_reverse by_created (gathered (jobs w2))).
    assert (Hp2 : Permutation sorted2 (gathered (jobs w2)))
      by apply sorted_reverse_perm.
    pose proof (prune_count env Hdel (skipn max_jobs sorted2) w2 Hnd2) as Hc3.
    assert (Hnd3 : NoDup (map fst sorted2)).
    { eapply Permutation_NoDup; [apply Permutation_map, Permutation_sym, Hp2|].
      now apply gathered_nodup. }
    rewrite length_skipn in Hc3.
    assert (Hlen2 : List.length sorted2 = terminal_count (jobs w2)).
    { rewrite (Permutation_length Hp2). apply gathered_length. }
    assert (Hw : terminal_count (jobs w2) = within_age_count cutoff (jobs w)).
    { rewrite <- gathered_recent_length.
      pose proof (filter_partition_length
                    (fun x : string * option Z => too_old cutoff (snd x))
                    (gathered (jobs w))) as Hpart.
      rewrite (filter_length_perm _ _ _ Hp1) in Hc2.
      rewrite gathered_length in Hpart. lia. }
    rewrite <- Hw.
    assert (Hc3' : (terminal_count (jobs (prune env (skipn max_jobs sorted2) w2))
                    + (List.length sorted2 - max_jobs)
                    = terminal_count (jobs w2))%nat).
    { apply Hc3.
      - rewrite <- (firstn_skipn max_jobs sorted2) in Hnd3.
        rewrite map_app in Hnd3. eapply NoDup_app_remove_l; eauto.
      - apply listed_gathered; auto.
        intros x Hx. eapply Permutation_in; [exact Hp2|].
        eapply in_skipn; eauto. }
    lia.
Qed.

Lemma sweep_store_nodup : NoDup (names Examples.sweep_store).
Proof.
  vm_compute. repeat constructor; cbn; intuition discriminate.
Defined.

Lemma sweep_store_loadable : loadable Examples.sweep_store.
Proof.
  intros k d Hin. vm_compute in Hin.
  repeat (destruct Hin as [Hin|Hin];
          [injection Hin as _ <-; eexists; reflexivity|]).
  destruct Hin.
Defined.

Lemma steady_deletes r : reliable_deletes (Examples.steady r).
Proof. intros t. reflexivity. Defined.

Lemma sweep_keeps_min_of_max_and_recent_witness :
  NoDup (names (jobs (fresh_world Examples.sweep_store)))
  /\ loadable (jobs (fresh_world Examples.sweep_store))
  /\ reliable_deletes (Examples.steady Examples.raising)
  /\ terminal_count
       (jobs (_cleanup_jobs (Examples.steady Examples.raising) 2 7
                (fresh_world Examples.sweep_store)))
     = Nat.min 2
         (within_age_count
            (now (Examples.steady Examples.raising
                    (clock (fresh_world Examples.sweep_store))) - 7 * 86400)
            (jobs (fresh_world Examples.sweep_store))).
Proof.
  split; [exact sweep_store_nodup|]. split; [exact sweep_store_loadable|].
  split; [apply steady_deletes|].
  exact (proj2
           (sweep_keeps_min_of_max_and_recent (Examples.steady Examples.raising)
              2 7 (fresh_world Examples.sweep_store))
           sweep_store_nodup sweep_store_loadable
           (steady_deletes Examples.raising)).
Defined.

(** C4, the claim as stated fails: of three terminal jobs, all within the age
    ceiling, a sweep with a maximum of two keeps two, not max(2, 3) = 3. *)
Lemma sweep_keeps_fewer_than_max_of_both :
  terminal_count Examples.sweep_store = 3%nat
  /\ within_age_count (0 - 7 * 86400) Examples.sweep_store = 3%nat
  /\ terminal_count
       (jobs (_cleanup_jobs (Examples.steady Examples.raising) 2 7
                (fresh_world Examples.sweep_store))) = 2%nat
  /\ Nat.max 2 3 = 3%nat.
Proof. repeat split; vm_compute; reflexivity. Qed.

(** ** A run of the queue *)

(** The scenario of the specification: the pipeline raises on the first
    attempt and succeeds on the second one. *)
Example retry_then_success :
  persisted "A"
    (jobs (snd (worker_running Examples.flaky 7 1 (fresh_world Examples.one_job))))
  = Some (Some "QUEUED"%string, Some 1)
  /\ persisted "A"
       (jobs (snd (worker_running Examples.flaky 7 2 (fresh_world Examples.one_job))))
     = Some (Some "COMPLETED"%string, Some 2)
  /\ match load_job "A"
            (jobs (snd (worker_running Examples.flaky 7 2
                          (fresh_world Examples.one_job)))) with
     | Return j => output_files j
     | Raise _ => None
     end = Some [VStr "A/output/results.csv"].
Proof. repeat split; vm_compute; reflexivity. Qed.

(* ------------------------------------------------------------------ *)
(** * Further properties of the store *)

(** X1.  As long as the rename works, a save is atomic whatever else the
    medium does: afterwards [job.json] holds the new record or is exactly what
    it was, never a partial document; the lock marker is not touched. *)
Theorem save_job_atomic_when_rename_works :
  forall f t name data s d,
    lookup name s = Some (Directory d) ->
    replace_ok f = true ->
    exists d',
      lookup name (fst (save_job f t name data s)) = Some (Directory d')
      /\ (job_json d' = Holds data \/ job_json d' = job_json d)
      /\ lock d' = lock d.
Proof.
  intros f t name data s d E Hr.
  exists (fst (write_job_json f t data d)).
  split; [now apply lookup_save_job_same|].
  split; [|apply write_job_json_lock].
  unfold write_job_json. rewrite Hr.
  destruct (dumps_raises f); [now right|].
  destruct (tmp_write f); cbn; rewrite ?job_json_touch_if; cbn; auto.
Qed.

Lemma save_job_atomic_when_rename_works_witness :
  lookup "A" Examples.one_job = Some (Directory Examples.one_job_dir)
  /\ replace_ok (mkSaveFault false WriteFails true WriteFails) = true
  /\ exists d',
       lookup "A"
         (fst (save_job (mkSaveFault false WriteFails true WriteFails) 9 "A"
                 empty_job Examples.one_job))
       = Some (Directory d')
       /\ (job_json d' = Holds empty_job
           \/ job_json d' = job_json Examples.one_job_dir)
       /\ lock d' = lock Examples.one_job_dir.
Proof.
  split; [reflexivity|]. split; [reflexivity|].
  exact (save_job_atomic_when_rename_works
           (mkSaveFault false WriteFails true WriteFails) 9 "A" empty_job
           Examples.one_job Examples.one_job_dir eq_refl eq_refl).
Defined.

(** X2.  A save never creates or removes an entry of the jobs directory and
    never touches another job; aimed at a name that is not a job directory it
    changes nothing at all. *)
Theorem save_job_touches_one_directory :
  forall f t name data s,
    names (fst (save_job f t name data s)) = names s
    /\ (forall k, k <> name ->
                  lookup k (fst (save_job f t name data s)) = lookup k s)
    /\ ((forall d, lookup name s <> Some (Directory d)) ->
        fst (save_job f t name data s) = s).
Proof.
  intros f t name data s. split; [apply names_save_job|].
  split; [intros k Hk; now apply lookup_save_job_other|].
  apply save_job_absent.
Qed.

(** X3.  [update_job] catches every exception of [load_job]: it returns the
    failure-shaped dict exactly when the record cannot be loaded (the
    directory or [job.json] is missing, or [job.json] does not parse), the
    message is "Job not found: <id>" in each of these cases, and nothing is
    written.  When the record loads, the dict it returns carries the current
    time as [updated_at] and a numeric [attempts], and that dict is what it
    hands to [save_job].  (Well-typed records and keyword values: on others
    the statements after the [try] raise.) *)
Theorem update_job_reports_a_failed_load :
  forall f t name kwargs s,
    ((exists e, load_job name s = Raise e)
     <-> exists fd,
           snd (update_job f t name kwargs s) = Return (UpdateFailure fd))
    /\ (forall fd,
          snd (update_job f t name kwargs s) = Return (UpdateFailure fd) ->
          fd = mkFailure "FAILED" (String.append "Job not found: " name)
          /\ fst (update_job f t name kwargs s) = s)
    /\ (forall job,
          snd (update_job f t name kwargs s) = Return (UpdatedJob job) ->
          (exists job0, load_job name s = Return job0)
          /\ updated_at job = Some t
          /\ attempts job = Some (attempts_of job)
          /\ fst (update_job f t name kwargs s)
             = fst (save_job f t name job s)).
Proof.
  intros f t name kwargs s. unfold update_job.
  destruct (load_job name s) as [job0|e] eqn:E.
  - match goal with
    | |- context [save_job f t name ?j s] =>
        set (job3 := j); destruct (save_job f t name job3 s) as [s' r] eqn:Es
    end.
    cbn [fst snd]. split; [|split].
    + split; [intros [e He]; discriminate|intros [fd Hfd]; discriminate].
    + intros fd Hfd. discriminate.
    + intros job [= <-]. split; [now exists job0|].
      split; [reflexivity|]. split; [reflexivity|]. now rewrite Es.
  - cbn [fst snd]. split; [|split].
    + split; [intros _; eauto|intros _; eauto].
    + intros fd [= <-]. split; reflexivity.
    + intros job Hjob. discriminate.
Qed.

Lemma update_job_persists_what_it_returns_aux t name kwargs s job0 :
  load_job name s = Return job0 ->
  exists job,
    snd (update_job no_fault t name kwargs s) = Return (UpdatedJob job)
    /\ load_job name (fst (update_job no_fault t name kwargs s)) = Return job.
Proof.
  intros H. unfold update_job. rewrite H.
  unfold load_job in H.
  destruct (lookup name s) as [[m|d]|] eqn:E; try discriminate.
  match goal with
  | |- context [save_job ?f ?t ?n ?j ?s] =>
      pose proof (lookup_save_job_same f t n j s d E) as Hs;
      destruct (save_job f t n j s) as [s' r]
  end.
  cbn [fst snd] in *. eexists. split; [reflexivity|].
  unfold load_job. rewrite Hs, write_job_json_no_fault. reflexivity.
Qed.

(** X4.  On a store that takes the writes, what [update_job] returns is what a
    reader then loads, and no other job is touched. *)
Theorem update_job_persists_what_it_returns :
  forall t name kwargs s job0,
    load_job name s = Return job0 ->
    exists job,
      snd (update_job no_fault t name kwargs s) = Return (UpdatedJob job)
      /\ load_job name (fst (update_job no_fault t name kwargs s)) = Return job
      /\ (forall k, k <> name ->
            lookup k (fst (update_job no_fault t name kwargs s)) = lookup k s).
Proof.
  intros t name kwargs s job0 H. unfold update_job. rewrite H.
  unfold load_job in H.
  destruct (lookup name s) as [[m|d]|] eqn:E; try discriminate.
  match goal with
  | |- context [save_job ?f ?t ?n ?j ?s] =>
      pose proof (lookup_save_job_same f t n j s d E) as Hs;
      pose proof (fun k Hk => lookup_save_job_other f t n j s k Hk) as Ho;
      destruct (save_job f t n j s) as [s' r]
  end.
  cbn [fst snd] in *. eexists. split; [reflexivity|]. split; [|exact Ho].
  unfold load_job. rewrite Hs, write_job_json_no_fault. reflexivity.
Qed.

Lemma update_job_persists_what_it_returns_witness :
  load_job "A" Examples.one_job = Return (initial_meta "A" 1 [] [])
  /\ exists job,
       snd (update_job no_fault 3 "A" [kw_status "CANCELLED"] Examples.one_job)
       = Return (UpdatedJob job)
       /\ load_job "A"
            (fst (update_job no_fault 3 "A" [kw_status "CANCELLED"]
                    Examples.one_job)) = Return job
       /\ (forall k, k <> "A"%string ->
             lookup k (fst (update_job no_fault 3 "A" [kw_status "CANCELLED"]
                              Examples.one_job)) = lookup k Examples.one_job).
Proof.
  split; [reflexivity|].
  exact (update_job_persists_what_it_returns 3 "A" [kw_status "CANCELLED"]
           Examples.one_job (initial_meta "A" 1 [] []) eq_refl).
Defined.

(** X5.  Cancelling works: once [update_job(id, status="CANCELLED",
    progress=...)] has reached the disk, a worker run of any length, whatever
    the pipeline and the medium do, neither claims the job nor calls the
    pipeline on it, and the stored record, while it exists, stays
    CANCELLED. *)
Theorem cancelled_by_update_job_is_left_alone :
  forall env pid n t name v w job0,
    load_job name (jobs w) = Return job0 ->
    forall w1,
      jobs w1 = fst (update_job no_fault t name
                       [kw_status "CANCELLED"; kw_progress v] (jobs w)) ->
      quiet name (trace w1) (trace (run_worker_loop env pid n w1))
      /\ (persisted name (jobs (run_worker_loop env pid n w1)) = None
          \/ persisted name (jobs (run_worker_loop env pid n w1))
             = Some (Some "CANCELLED"%string, Some (attempts_of job0))).
Proof.
  intros env pid n t name v w job0 H w1 Hw1.
  destruct (update_job_persists_what_it_returns_aux t name
              [kw_status "CANCELLED"; kw_progress v] (jobs w) job0 H)
    as (job & Hr & Hl).
  rewrite <- Hw1 in Hl.
  assert (Hjob : status job = Some "CANCELLED"%string
                 /\ attempts job = Some (attempts_of job0)).
  { unfold update_job in Hr. rewrite H in Hr.
    destruct (save_job _ _ _ _ _) as [s' r]. cbn [snd] in Hr.
    inversion Hr; subst job. split; reflexivity. }
  destruct Hjob as [Hst Hat].
  unfold load_job in Hl.
  destruct (lookup name (jobs w1)) as [[m|d]|] eqn:E; try discriminate.
  destruct (job_json d) as [| |j] eqn:Ej; try discriminate.
  assert (j = job) by congruence. subst j.
  assert (Hc : status_is "CANCELLED" job = true).
  { unfold status_is. now rewrite Hst. }
  destruct (untouched_run_worker_loop name job (lock d) Hc env pid (trace w1) n w1)
    as [Hk Hq].
  { split; [|apply quiet_refl]. unfold kept. rewrite E. auto. }
  split; [exact Hq|].
  unfold kept in Hk. unfold persisted, load_job.
  destruct (lookup name (jobs (run_worker_loop env pid n w1))) as [[m|d']|];
    auto.
  destruct Hk as [[Hj|Hj] _]; rewrite Hj; auto.
  right. now rewrite Hst, Hat.
Qed.

Lemma cancelled_by_update_job_is_left_alone_witness :
  load_job "A" (jobs (fresh_world Examples.one_job))
  = Return (initial_meta "A" 1 [] [])
  /\ jobs (fresh_world Examples.cancelled_store)
     = fst (update_job no_fault 3 "A"
              [kw_status "CANCELLED"; kw_progress (VStr "Cancelled by user")]
              (jobs (fresh_world Examples.one_job)))
  /\ quiet "A" (trace (fresh_world Examples.cancelled_store))
       (trace (run_worker_loop (Examples.steady Examples.raising) 7 3
                 (fresh_world Examples.cancelled_store))).
Proof.
  split; [reflexivity|]. split; [reflexivity|].
  exact (proj1
           (cancelled_by_update_job_is_left_alone
              (Examples.steady Examples.raising) 7 3 3 "A"
              (VStr "Cancelled by user") (fresh_world Examples.one_job)
              (initial_meta "A" 1 [] []) eq_refl
              (fresh_world Examples.cancelled_store) eq_refl)).
Defined.

(** X6.  [list_jobs] returns every readable record of the jobs directory
    exactly once and nothing else: entries that are not directories, or whose
    [job.json] is missing or does not parse, are skipped silently. *)
Theorem list_jobs_lists_the_readable_records :
  forall s, Permutation (list_jobs s) (flat_map readable s).
Proof.
  intros s. unfold list_jobs.
  apply Permutation_flat_map, sorted_reverse_perm.
Qed.

Lemma sorted_reverse_newest_last {A} (key : A -> Z) (l : list A) (x : A) :
  Forall (fun y => key y < key x) l ->
  sorted_reverse key (l ++ [x]) = x :: sorted_reverse key l.
Proof.
  induction l as [|y l IH]; cbn [app sorted_reverse fold_right]; intros H.
  - reflexivity.
  - inversion H as [|? ? Hy Hl]; subst.
    fold (sorted_reverse key (l ++ [x])). rewrite (IH Hl).
    fold (sorted_reverse key l). cbn [insert_desc].
    destruct (key y <? key x) eqn:E; [reflexivity|].
    apply Z.ltb_ge in E. lia.
Qed.

(** X7.  A job submitted after every change the jobs directory has seen so
    far heads the listing: on a store that takes the writes, [list_jobs] after
    [create_job] is the new record followed by the former listing. *)
Theorem new_job_heads_the_listing :
  forall uuid t files prm s,
    lookup uuid s = None ->
    Forall (fun kn => node_mtime (snd kn) < t) s ->
    list_jobs (fst (create_job uuid true no_fault t files prm s))
    = initial_meta uuid t files prm :: list_jobs s.
Proof.
  intros uuid t files prm s Hn Hold. unfold create_job. rewrite Hn.
  destruct (write_job_json no_fault t (initial_meta uuid t files prm) (new_dir t))
    as [d' r] eqn:Ew.
  cbn [fst].
  assert (Hput : put uuid (Directory d') (s ++ [(uuid, Directory (new_dir t))])
                 = s ++ [(uuid, Directory d')]).
  { clear Hold. induction s as [|[k n] s IH]; cbn [app put].
    - now rewrite String.eqb_refl.
    - cbn [lookup] in Hn. destruct (String.eqb uuid k); [discriminate|].
      now rewrite IH. }
  rewrite Hput. unfold list_jobs.
  rewrite (sorted_reverse_newest_last
             (fun kn : string * Node => node_mtime (snd kn)) s
             (uuid, Directory d')).
  - cbn [flat_map]. unfold readable at 1. cbn [snd].
    replace d' with (fst (write_job_json no_fault t
                            (initial_meta uuid t files prm) (new_dir t)))
      by now rewrite Ew.
    reflexivity.
  - replace d' with (fst (write_job_json no_fault t
                            (initial_meta uuid t files prm) (new_dir t)))
      by now rewrite Ew.
    exact Hold.
Qed.

Lemma new_job_heads_the_listing_witness :
  lookup "B" Examples.one_job = None
  /\ Forall (fun kn => node_mtime (snd kn) < 2) Examples.one_job
  /\ list_jobs (fst (create_job "B" true no_fault 2 [] [] Examples.one_job))
     = initial_meta "B" 2 [] [] :: list_jobs Examples.one_job.
Proof.
  assert (H : Forall (fun kn : string * Node => node_mtime (snd kn) < 2)
                Examples.one_job).
  { rewrite one_job_eq. repeat constructor. }
  split; [reflexivity|]. split; [exact H|].
  exact (new_job_heads_the_listing "B" 2 [] [] Examples.one_job eq_refl H).
Defined.

(** X8.  Whatever the medium does, [create_job] leaves every other entry of
    the jobs directory as it was, and it adds the directory of the new job at
    most. *)
Theorem create_job_leaves_other_jobs_alone :
  forall uuid mkdir_ok f t files prm s,
    (forall k, k <> uuid ->
       lookup k (fst (create_job uuid mkdir_ok f t files prm s)) = lookup k s)
    /\ (forall k, In k (names (fst (create_job uuid mkdir_ok f t files prm s))) ->
                  In k (names s) \/ k = uuid).
Proof.
  intros uuid mkdir_ok f t files prm s. unfold create_job.
  destruct (lookup uuid s) as [[m|d]|] eqn:E.
  - cbn [fst]. auto.
  - destruct (write_job_json _ _ _ d) as [d' r]. cbn [fst]. split.
    + intros k Hk. now apply lookup_put_other.
    + intros k. rewrite names_put. auto.
  - destruct mkdir_ok; [|cbn [fst]; auto].
    destruct (write_job_json _ _ _ (new_dir t)) as [d' r]. cbn [fst]. split.
    + intros k Hk. rewrite lookup_put_other by exact Hk.
      rewrite lookup_app_new by exact E.
      destruct (String.eqb_spec k uuid); congruence.
    + intros k. rewrite names_put. unfold names. rewrite map_app.
      intros Hin. apply in_app_or in Hin. destruct Hin as [Hin|[Hin|[]]]; auto.
Qed.

(** * Further properties of the worker's surroundings *)

Import WorkerLogs.

(** X9.  Pruning the logs never removes a directory or a file modified within
    the retention window, whatever fails on the way; and when nothing fails,
    no file older than the window is left. *)
Theorem prune_logs_removes_only_old_files :
  forall iterdir_ok fault now days logs,
    let cutoff := now - days * 86400 in
    let kept := _prune_logs iterdir_ok fault now days logs in
    (forall p, In p kept -> In p logs)
    /\ (forall p, In p logs -> is_file p = false \/ cutoff <= log_mtime p ->
                  In p kept)
    /\ (iterdir_ok = true -> (forall n, fault n = LogOk) ->
        forall p, In p kept -> is_file p = true -> cutoff <= log_mtime p).
Proof.
  intros iterdir_ok fault now days logs cutoff kept. subst kept.
  unfold _prune_logs. fold cutoff.
  destruct iterdir_ok.
  - split; [|split].
    + induction logs as [|q logs IH]; cbn [prune_entries]; intros p Hin; auto.
      destruct (is_file q); [|destruct Hin; [left|right]; auto].
      destruct (fault (log_name q)); try (destruct Hin; [left|right]; auto; fail);
        destruct (log_mtime q <? cutoff);
        try (destruct Hin; [left|right]; auto; fail); right; auto.
    + induction logs as [|q logs IH]; cbn [prune_entries]; intros p Hin Hp;
        [destruct Hin|].
      destruct Hin as [->|Hin].
      * destruct (is_file p) eqn:Ef.
        -- destruct Hp as [Hp|Hp]; [discriminate|].
           assert (E : (log_mtime p <? cutoff) = false) by (apply Z.ltb_ge; lia).
           rewrite E. destruct (fault (log_name p)); now left.
        -- now left.
      * specialize (IH p Hin Hp).
        destruct (is_file q); [|now right].
        destruct (fault (log_name q)); try (now right);
          destruct (log_mtime q <? cutoff); auto; now right.
    + intros _ Hok.
      induction logs as [|q logs IH]; cbn [prune_entries]; intros p Hin Hf;
        [destruct Hin|].
      rewrite Hok in Hin.
      destruct (is_file q) eqn:Eq.
      * destruct (log_mtime q <? cutoff) eqn:E; [now apply IH|].
        apply Z.ltb_ge in E. destruct Hin as [->|Hin]; [lia|now apply IH].
      * destruct Hin as [->|Hin]; [congruence|now apply IH].
  - split; [auto|]. split; [auto|]. intros H; discriminate.
Qed.

(** X10.  The worker's [_atomic_write] returns normally exactly when the
    temporary file was written and either the rename or the direct write went
    through, and then the target holds the data; when the first write fails
    it raises and leaves the target as it was.  The entry script's variant
    falls back to the direct write in that case too, so it stores the data
    whenever the direct write works and only logs when nothing worked. *)
Theorem atomic_write_outcomes :
  forall (A : Type) (f : SaveFault) (data : A) (path tmp : File A),
    let w := JobWorker._atomic_write f data path tmp in
    let e := WorkerEntry._atomic_write f data path tmp in
    (snd w = Return tt <->
     tmp_write f = Written /\ (replace_ok f = true \/ direct_write f = Written))
    /\ (snd w = Return tt -> fst (fst w) = Holds data)
    /\ (tmp_write f <> Written -> fst (fst w) = path /\ exists x, snd w = Raise x)
    /\ (snd e = false <->
        (tmp_write f = Written /\ replace_ok f = true)
        \/ direct_write f = Written)
    /\ (snd e = false -> fst (fst e) = Holds data).
Proof.
  intros A f data path tmp w e. subst w e.
  unfold JobWorker._atomic_write, WorkerEntry._atomic_write.
  destruct (tmp_write f), (replace_ok f), (direct_write f); cbn;
    repeat split; try tauto; try discriminate; try congruence; eauto;
    intros; intuition (try discriminate; try congruence; eauto).
Qed.

Import Supervise HealthServer.

(** X11.  The supervisor leaves the worker alone exactly when the process is
    still running and the heartbeat file parses, carries a non-zero timestamp
    and is at most [STALE_SECONDS] old (a heartbeat exactly 30 s old is still
    fresh); it kills only a process that is still running. *)
Theorem supervisor_leaves_alone_iff_fresh :
  forall exited f now,
    (supervise_step exited f now = LeaveAlone <->
     exited = false
     /\ exists hb, f = Holds hb /\ hb_ts hb <> 0
                   /\ now - hb_ts hb <= STALE_SECONDS)
    /\ (supervise_step exited f now = KillAndRestart -> exited = false)
    /\ (exited = true -> supervise_step exited f now = Restart).
Proof.
  intros exited f now. unfold supervise_step, stale, read_hb.
  destruct exited; cbn [negb].
  - split; [|split]; try discriminate; auto.
    split; [discriminate|]. intros [H _]. discriminate.
  - split; [|split]; auto; try discriminate.
    destruct f as [| |hb].
    + split; [discriminate|]. intros (_ & hb & H & _). discriminate.
    + split; [discriminate|]. intros (_ & hb & H & _). discriminate.
    + destruct (hb_ts hb =? 0) eqn:E0.
      * apply Z.eqb_eq in E0. split; [discriminate|].
        intros (_ & hb' & H & Hz & _). inversion H; subst. contradiction.
      * apply Z.eqb_neq in E0.
        destruct (STALE_SECONDS <? now - hb_ts hb) eqn:E.
        -- apply Z.ltb_lt in E. split; [discriminate|].
           intros (_ & hb' & H & _ & Hle). inversion H; subst. lia.
        -- apply Z.ltb_ge in E. split; [|reflexivity].
           intros _. split; [reflexivity|]. exists hb. auto.
Qed.

(** X12.  The health endpoint and the supervisor read the same file and agree
    on it: whenever the supervisor leaves the worker alone, [/health] answers
    200 with that heartbeat; whenever [/health] answers 503, the supervisor
    restarts the worker at its next check.  Any other path is a 404. *)
Theorem health_endpoint_agrees_with_supervisor :
  forall path f exited now,
    (path = "/health"%string \/ path = "/health/"%string ->
     (supervise_step exited f now = LeaveAlone ->
      exists hb, f = Holds hb /\ do_GET path f = (200, HeartbeatDoc hb))
     /\ (fst (do_GET path f) = 503 ->
         supervise_step exited f now <> LeaveAlone
         /\ snd (do_GET path f) = UnknownDoc))
    /\ (path <> "/health"%string -> path <> "/health/"%string ->
        do_GET path f = (404, NoBody)).
Proof.
  intros path f exited now. split.
  - intros Hp.
    assert (E : negb (String.eqb path "/health" || String.eqb path "/health/")
                = false).
    { destruct Hp as [-> | ->]; reflexivity. }
    unfold do_GET. rewrite E. unfold supervise_step, stale, read_hb.
    destruct f as [| |hb]; cbn [fst snd].
    + split; [destruct exited; discriminate|].
      intros _. split; [destruct exited; discriminate|reflexivity].
    + split; [destruct exited; discriminate|].
      intros _. split; [destruct exited; discriminate|reflexivity].
    + split; [eauto|]. intros H. discriminate.
  - intros H1 H2. unfold do_GET.
    destruct (String.eqb_spec path "/health"); [contradiction|].
    destruct (String.eqb_spec path "/health/"); [contradiction|].
    reflexivity.
Qed.

Lemma recover_nothing_running env l w :
  StoreAll (fun j => status_is "RUNNING" j = false) (jobs w) ->
  recover env l w = w.
Proof.
  intros H. induction l as [|name l IH]; cbn [recover]; auto.
  destruct (lookup name (jobs w)) as [[m|d]|] eqn:E; auto.
  unfold load_job. rewrite E.
  destruct (job_json d) as [| |meta] eqn:Ej; auto.
  destruct (falsy meta); auto.
  now rewrite (H name d meta E Ej).
Qed.

Lemma worker_running_idle env pid n w :
  nothing_to_do (jobs w) ->
  heartbeat (snd (worker_running env pid n w)) = heartbeat w.
Proof.
  intros H. unfold worker_running.
  pose proof (startup_heartbeat env pid w) as Hs.
  destruct (startup_jobs env pid w) as (w2 & Hj2 & Hj).
  rewrite recover_nothing_running in Hj.
  2:{ rewrite Hj2. eapply storeall_impl; [|exact H]. intros j Hq. apply Hq. }
  destruct (startup env pid w) as [loc1 w1]. cbn [snd] in *.
  pose proof (poll_cycles_idle env pid n loc1 w1) as Hp.
  destruct (poll_cycles env pid n loc1 w1) as [[i loc2] w3]. cbn [snd] in *.
  rewrite Hp; [exact Hs|].
  rewrite Hj, Hj2. eapply storeall_impl; [|exact H]. intros j Hq. apply Hq.
Qed.

(** X13.  A worker that finds nothing to claim or to recover never writes a
    heartbeat, so under the supervisor it does not survive a single check:
    however long it has been polling, the supervisor finds no heartbeat, kills
    it and starts another one, at every turn; meanwhile [/health] answers
    503. *)
Theorem idle_worker_is_restarted_at_every_check :
  forall env pid n w times now,
    nothing_to_do (jobs w) ->
    heartbeat w = Absent ->
    supervise_step false (heartbeat (snd (worker_running env pid n w))) now
    = KillAndRestart
    /\ supervise_loop
         (map (fun t => (false, heartbeat (snd (worker_running env pid n w)), t))
              times)
       = S (List.length times)
    /\ fst (do_GET "/health" (heartbeat (snd (worker_running env pid n w)))) = 503.
Proof.
  intros env pid n w times now H Hh.
  rewrite (worker_running_idle env pid n w H), Hh.
  split; [reflexivity|]. split; [|reflexivity].
  induction times as [|t times IH]; cbn [map supervise_loop List.length]; auto.
  cbn. now rewrite IH.
Qed.

Lemma cancelled_store_nothing_to_do :
  nothing_to_do (jobs (fresh_world Examples.cancelled_store)).
Proof.
  intros name d j Hk Hj.
  change (jobs (fresh_world Examples.cancelled_store))
    with [("A"%string, Directory Examples.cancelled_dir)] in Hk.
  cbn [lookup] in Hk.
  destruct (String.eqb name "A"); [|discriminate].
  assert (Hd : d = Examples.cancelled_dir) by congruence.
  rewrite Hd in Hj. vm_compute in Hj.
  injection Hj as <-. split; reflexivity.
Defined.

Lemma idle_worker_is_restarted_at_every_check_witness :
  nothing_to_do (jobs (fresh_world Examples.cancelled_store))
  /\ heartbeat (fresh_world Examples.cancelled_store) = Absent
  /\ supervise_loop
       (map (fun t => (false,
                       heartbeat
                         (snd (worker_running (Examples.steady Examples.raising)
                                 7 4 (fresh_world Examples.cancelled_store))),
                       t))
            [5; 10; 15])
     = 4%nat.
Proof.
  split; [exact cancelled_store_nothing_to_do|]. split; [reflexivity|].
  exact (proj1 (proj2
           (idle_worker_is_restarted_at_every_check
              (Examples.steady Examples.raising) 7 4
              (fresh_world Examples.cancelled_store) [5; 10; 15] 5
              cancelled_store_nothing_to_do eq_refl))).
Defined.

(** * Further properties of the worker *)

Section ProcessOutcome.

Variable env : Env.
Variable name : string.

(** The dict that the callback leaves in the worker's hands. *)
Lemma hooks_job ps job loc w :
  exists times,
    List.length times = List.length ps
    /\ fst (fst (fold_left (fun st p => progress_hook env name p st) ps
                   (job, loc, w)))
       = reported (combine times ps) job.
Proof.
  revert job loc w. induction ps as [|p ps IH]; cbn [fold_left]; intros job loc w.
  - exists []. split; reflexivity.
  - unfold progress_hook at 2.
    destruct (ask env w) as [a w1] eqn:Ea.
    destruct (save_job _ _ _ _ _) as [s' r].
    match goal with
    | |- context [fold_left _ ps (?j, ?l, ?x)] =>
        destruct (IH j l x) as (times & Hlen & Hjob)
    end.
    exists (now a :: times). split; [cbn [List.length]; now rewrite Hlen|].
    rewrite Hjob. reflexivity.
Qed.

(** What a reader finds after a claimed job has been processed, when the last
    save reaches the disk. *)
Lemma process_job_persists job loc w d :
  lookup name (jobs w) = Some (Directory d) ->
  save (finishing_answer env w) = no_fault ->
  exists times,
    List.length times = List.length (reports (pipeline_call env w))
    /\ match ending (pipeline_call env w) with
       | Returned res =>
           load_job name (jobs (snd (process_job env name job loc w)))
           = Return (completed (finishing_answer env w) name res
                       (reported (combine times (reports (pipeline_call env w)))
                          (claimed (now (env (clock w))) job)))
       | Raised exc tb =>
           load_job name (jobs (snd (process_job env name job loc w)))
           = Return (failed (now (finishing_answer env w)) exc tb
                       (reported (combine times (reports (pipeline_call env w)))
                          (claimed (now (env (clock w))) job)))
       | Interrupted => True
       end.
Proof.
  intros E Hsave.
  unfold finishing_answer, pipeline_call in *. unfold process_job.
  destruct (ask env w) as [a0 w0] eqn:Ea0.
  apply ask_spec in Ea0. destruct Ea0 as (-> & Hj0 & _ & _ & _ & Hc0).
  pose proof (is_dir_save_job name (save (env (clock w))) (now (env (clock w)))
                (claimed (now (env (clock w))) job) (jobs w0)) as Hd1.
  destruct (save_job _ _ _ _ (jobs w0)) as [s1 r1]. cbn [fst] in Hd1.
  destruct (ask env (with_jobs s1 w0)) as [a1 w1] eqn:Ea1.
  apply ask_spec in Ea1. destruct Ea1 as (-> & Hj1 & _ & _ & _ & Hc1).
  world_simpl. rewrite Hc0 in *.
  set (ps := reports (run (env (S (clock w))))) in *.
  pose proof (hooks_preserve env name (is_dir name) (fun _ => True)
                (fun f t j s _ H => is_dir_save_job name f t j s H)
                (fun t p j H => H)
                ps (claimed (now (env (clock w))) job) loc
                (record (Invoked name) w1)) as Hh.
  pose proof (hooks_clock env name ps (claimed (now (env (clock w))) job) loc
                (record (Invoked name) w1)) as Hck.
  destruct (hooks_job ps (claimed (now (env (clock w))) job) loc
              (record (Invoked name) w1)) as (times & Hlen & Hjob).
  cbv zeta in Hh.
  destruct (fold_left _ ps _) as [[job2 loc2] w2]. cbn [fst snd] in Hh, Hck, Hjob.
  destruct Hh as (_ & [d2 Hd2] & _).
  { exact I. }
  { world_simpl. rewrite Hj1. apply Hd1. exists d. now rewrite Hj0. }
  world_simpl. rewrite Hc1 in Hck.
  exists times. split; [exact Hlen|].
  subst job2.
  set (job2 := reported (combine times ps) (claimed (now (env (clock w))) job)).
  destruct (ending (run (env (S (clock w))))) as [res|exc tb|]; [| |exact I].
  - destruct (ask env w2) as [a2 w3] eqn:Ea2.
    apply ask_spec in Ea2. destruct Ea2 as (-> & Hj2 & _).
    rewrite Hck in *.
    replace (S (S (clock w)) + List.length ps)%nat
      with (S (S (clock w) + List.length ps))%nat in * by lia.
    rewrite Hsave. rewrite <- Hj2 in Hd2.
    match goal with
    | |- context [save_job no_fault ?t name ?j (jobs w3)] =>
        pose proof (lookup_save_job_same no_fault t name j (jobs w3) d2 Hd2)
          as Hs3;
        destruct (save_job no_fault t name j (jobs w3)) as [s3 r3]
    end.
    cbn [fst snd] in *. rewrite release_lock_load. world_simpl.
    unfold load_job. rewrite Hs3, write_job_json_no_fault. reflexivity.
  - destruct (ask env w2) as [a2 w3] eqn:Ea2.
    apply ask_spec in Ea2. destruct Ea2 as (-> & Hj2 & _).
    rewrite Hck in *.
    replace (S (S (clock w)) + List.length ps)%nat
      with (S (S (clock w) + List.length ps))%nat in * by lia.
    rewrite Hsave. rewrite <- Hj2 in Hd2.
    match goal with
    | |- context [save_job no_fault ?t name ?j (jobs w3)] =>
        pose proof (lookup_save_job_same no_fault t name j (jobs w3) d2 Hd2)
          as Hs3;
        destruct (save_job no_fault t name j (jobs w3)) as [s3 r3]
    end.
    cbn [fst snd] in *. rewrite release_lock_load. world_simpl.
    unfold load_job. rewrite Hs3, write_job_json_no_fault. reflexivity.
Qed.

End ProcessOutcome.

(** The callback changes the progress history and [updated_at] only. *)
Lemma reported_keeps tps job :
  status (reported tps job) = status job
  /\ attempts (reported tps job) = attempts job
  /\ worker_notes (reported tps job) = worker_notes job
  /\ id (reported tps job) = id job.
Proof.
  unfold reported. revert job.
  induction tps as [|tp tps IH]; cbn [fold_left]; intros job; auto.
  destruct (IH (hooked (fst tp) (snd tp) job)) as (H1 & H2 & H3 & H4).
  rewrite H1, H2, H3, H4. repeat split.
Qed.

Lemma last_map {A B} (f : A -> B) (l : list A) (d : A) :
  last (map f l) (f d) = f (last l d).
Proof.
  induction l as [|x l IH]; cbn [map last]; auto.
  destruct l; cbn [map]; auto.
Qed.

Lemma reported_history tps job :
  tps <> [] ->
  List.length (history_of (reported tps job))
  = Nat.min 100 (List.length (history_of job) + List.length tps)
  /\ last (map progress (history_of (reported tps job))) VNull
     = last (map snd tps) VNull.
Proof.
  unfold reported. revert job.
  induction tps as [|tp tps IH]; [congruence|]. intros job _.
  cbn [fold_left].
  assert (H1 : List.length (history_of (hooked (fst tp) (snd tp) job))
               = Nat.min 100 (List.length (history_of job) + 1)
               /\ last (map progress (history_of (hooked (fst tp) (snd tp) job)))
                    VNull = snd tp).
  { rewrite history_of_hooked. cbv zeta.
    set (h := history_of job).
    assert (Hlen : List.length (h ++ [mkProgress (fst tp) (snd tp)])
                   = (List.length h + 1)%nat)
      by (rewrite length_app; reflexivity).
    destruct (100 <? Z.of_nat (List.length (h ++ [mkProgress (fst tp) (snd tp)])))
      eqn:E.
    - apply Z.ltb_lt in E. split.
      + rewrite last_n_length; lia.
      + change VNull with (progress (mkProgress 0 VNull)).
        rewrite last_map, last_n_last by lia. reflexivity.
    - apply Z.ltb_ge in E. split; [lia|].
      rewrite map_app. cbn [map]. apply last_last. }
  destruct tps as [|tp' tps].
  - cbn [fold_left List.length map last]. exact H1.
  - destruct (IH (hooked (fst tp) (snd tp) job)) as [H2 H3]; [discriminate|].
    destruct H1 as [H1 _]. split.
    + rewrite H2, H1. cbn [List.length]. lia.
    + rewrite H3. reflexivity.
Qed.

Lemma history_of_completed a name res j :
  history_of (completed a name res j) = history_of j.
Proof.
  unfold completed. destruct (save_artifacts _ _ _) as [results [e|]]; reflexivity.
Qed.

Lemma history_of_failed t exc tb j : history_of (failed t exc tb j) = history_of j.
Proof. unfold failed. destruct (_ <? _); reflexivity. Qed.

(** X14.  When the pipeline call raises and the save goes through, the stored
    record carries the traceback in [last_error], [str(exc)] in [message] and
    one more attempt; below the maximum it is QUEUED again with a retry note
    appended to the worker notes, at the maximum it is FAILED and the notes
    are left as they were. *)
Theorem raised_attempt_requeues_or_fails :
  forall env name job loc w d exc tb,
    lookup name (jobs w) = Some (Directory d) ->
    ending (pipeline_call env w) = Raised exc tb ->
    save (finishing_answer env w) = no_fault ->
    exists j',
      load_job name (jobs (snd (process_job env name job loc w))) = Return j'
      /\ attempts j' = Some (attempts_of job + 1)
      /\ last_error j' = Some tb /\ message j' = Some exc
      /\ (attempts_of job + 1 < MAX_ATTEMPTS ->
          status j' = Some "QUEUED"%string
          /\ worker_notes j'
             = Some (String.append (notes_of job)
                       (String.append nl
                          (String.append "Retrying after error: " exc))))
      /\ (MAX_ATTEMPTS <= attempts_of job + 1 ->
          status j' = Some "FAILED"%string
          /\ worker_notes j' = worker_notes job).
Proof.
  intros env name job loc w d exc tb E Hend Hsave.
  destruct (process_job_persists env name job loc w d E Hsave)
    as (times & _ & Hl).
  rewrite Hend in Hl. eexists. split; [exact Hl|].
  set (j2 := reported _ _).
  destruct (reported_keeps
              (combine times (reports (pipeline_call env w)))
              (claimed (now (env (clock w))) job)) as (Hs & Ha & Hn & _).
  fold j2 in Hs, Ha, Hn.
  assert (Hat : attempts_of j2 = attempts_of job + 1).
  { unfold attempts_of at 1. rewrite Ha. reflexivity. }
  assert (Hno : notes_of j2 = notes_of job).
  { unfold notes_of at 1. rewrite Hn. reflexivity. }
  unfold failed. rewrite Hat.
  destruct (attempts_of job + 1 <? MAX_ATTEMPTS) eqn:Elt.
  - apply Z.ltb_lt in Elt. cbn. rewrite Ha, Hno.
    repeat split; intros; try lia; reflexivity.
  - apply Z.ltb_ge in Elt. cbn. rewrite Ha, Hn.
    repeat split; intros; try lia; reflexivity.
Qed.

Lemma raised_attempt_requeues_or_fails_witness :
  lookup "A" (jobs (fresh_world Examples.one_job))
  = Some (Directory Examples.one_job_dir)
  /\ ending (pipeline_call (Examples.steady Examples.raising)
               (fresh_world Examples.one_job))
     = Raised "boom" "traceback"
  /\ save (finishing_answer (Examples.steady Examples.raising)
             (fresh_world Examples.one_job)) = no_fault
  /\ exists j',
       load_job "A"
         (jobs (snd (process_job (Examples.steady Examples.raising) "A"
                       (initial_meta "A" 1 [] []) (mkLocals 0 None 0 None 0)
                       (fresh_world Examples.one_job)))) = Return j'
       /\ attempts j' = Some (attempts_of (initial_meta "A" 1 [] []) + 1)
       /\ last_error j' = Some "traceback"%string.
Proof.
  split; [reflexivity|]. split; [reflexivity|]. split; [reflexivity|].
  destruct (raised_attempt_requeues_or_fails (Examples.steady Examples.raising)
              "A" (initial_meta "A" 1 [] []) (mkLocals 0 None 0 None 0)
              (fresh_world Examples.one_job) Examples.one_job_dir
              "boom" "traceback" eq_refl eq_refl eq_refl)
    as (j' & H1 & H2 & H3 & _).
  exists j'. auto.
Defined.

(** X15.  Through the worker the stored progress history is bounded: after a
    pipeline call that reported at least one message and then returned or
    raised, the stored history has min(100, former length + number of
    messages) entries and ends with the last message reported. *)
Theorem worker_progress_history_is_bounded :
  forall env name job loc w d,
    lookup name (jobs w) = Some (Directory d) ->
    ending (pipeline_call env w) <> Interrupted ->
    reports (pipeline_call env w) <> [] ->
    save (finishing_answer env w) = no_fault ->
    exists j',
      load_job name (jobs (snd (process_job env name job loc w))) = Return j'
      /\ List.length (history_of j')
         = Nat.min 100 (List.length (history_of job)
                        + List.length (reports (pipeline_call env w)))
      /\ last (map progress (history_of j')) VNull
         = last (reports (pipeline_call env w)) VNull.
Proof.
  intros env name job loc w d E Hend Hrep Hsave.
  destruct (process_job_persists env name job loc w d E Hsave)
    as (times & Hlen & Hl).
  set (ps := reports (pipeline_call env w)) in *.
  assert (Hne : combine times ps <> []).
  { destruct ps; [congruence|]. destruct times; [discriminate|]. discriminate. }
  destruct (reported_history (combine times ps)
              (claimed (now (env (clock w))) job) Hne) as [H1 H2].
  assert (Hps : map snd (combine times ps) = ps).
  { clear - Hlen. revert times Hlen.
    induction ps as [|p ps IH]; intros [|t times] Hlen; try discriminate; auto.
    cbn [combine map snd]. f_equal. apply IH. now inversion Hlen. }
  rewrite length_combine, Hlen, Nat.min_id, Hps in *.
  change (history_of (claimed (now (env (clock w))) job))
    with (history_of job) in H1.
  destruct (ending (pipeline_call env w)) as [res|exc tb|]; [| |congruence].
  - eexists. split; [exact Hl|]. rewrite history_of_completed. auto.
  - eexists. split; [exact Hl|]. rewrite history_of_failed. auto.
Qed.

Lemma worker_progress_history_is_bounded_witness :
  lookup "A" (jobs (fresh_world (Examples.after_updates 100)))
  = Some (Directory Examples.full_history_dir)
  /\ ending (pipeline_call (Examples.steady Examples.raising)
               (fresh_world (Examples.after_updates 100))) <> Interrupted
  /\ reports (pipeline_call (Examples.steady Examples.raising)
                (fresh_world (Examples.after_updates 100))) <> []
  /\ save (finishing_answer (Examples.steady Examples.raising)
             (fresh_world (Examples.after_updates 100))) = no_fault
  /\ exists j',
       load_job "A"
         (jobs (snd (process_job (Examples.steady Examples.raising) "A"
                       Examples.full_history_job (mkLocals 0 None 0 None 0)
                       (fresh_world (Examples.after_updates 100))))) = Return j'
       /\ List.length (history_of j') = 100%nat.
Proof.
  assert (H2 : ending (pipeline_call (Examples.steady Examples.raising)
                         (fresh_world (Examples.after_updates 100)))
               <> Interrupted) by (vm_compute; discriminate).
  assert (H3 : reports (pipeline_call (Examples.steady Examples.raising)
                          (fresh_world (Examples.after_updates 100))) <> [])
    by (vm_compute; discriminate).
  split; [vm_compute; reflexivity|]. split; [exact H2|]. split; [exact H3|].
  split; [reflexivity|].
  destruct (worker_progress_history_is_bounded (Examples.steady Examples.raising)
              "A" Examples.full_history_job (mkLocals 0 None 0 None 0)
              (fresh_world (Examples.after_updates 100))
              Examples.full_history_dir
              ltac:(vm_compute; reflexivity) H2 H3 eq_refl)
    as (j' & H & Hlen & _).
  exists j'. split; [exact H|]. rewrite Hlen. vm_compute. reflexivity.
Defined.

(** ** The retention pass *)

Lemma retention_lookup env cutoff l : forall w name,
  reliable_deletes env ->
  lookup name (jobs (retention env cutoff l w))
  = match lookup name (jobs w) with
    | Some n =>
        if expired cutoff n && existsb (String.eqb name) l then None else Some n
    | None => None
    end.
Proof.
  induction l as [|k l IH]; intros w name Hdel; cbn [retention existsb].
  - destruct (lookup name (jobs w)); [now rewrite andb_false_r|reflexivity].
  - assert (Hskip :
      (forall n, lookup k (jobs w) = Some n -> expired cutoff n = false) ->
      lookup name (jobs (retention env cutoff l w))
      = match lookup name (jobs w) with
        | Some n =>
            if expired cutoff n
               && (String.eqb name k || existsb (String.eqb name) l)
            then None else Some n
        | None => None
        end).
    { intros Hk. rewrite IH by exact Hdel.
      destruct (lookup name (jobs w)) as [n|] eqn:En; [|reflexivity].
      destruct (String.eqb_spec name k) as [->|Hne]; [|reflexivity].
      now rewrite (Hk n En). }
    destruct (lookup k (jobs w)) as [[m|d]|] eqn:Ek.
    + apply Hskip. intros n [= <-]. reflexivity.
    + unfold load_job. rewrite Ek.
      destruct (job_json d) as [| |meta] eqn:Ej.
      * apply Hskip. intros n [= <-]. cbn. now rewrite Ej.
      * apply Hskip. intros n [= <-]. cbn. now rewrite Ej.
      * destruct (falsy meta) eqn:Ef.
        { apply Hskip. intros n [= <-]. cbn. now rewrite Ej, Ef. }
        destruct ((terminal meta || status_is "CANCELLED" meta)
                  && truthy_time (created_at meta)
                  && (or_zero (created_at meta) <? cutoff)) eqn:Ee.
        2:{ apply Hskip. intros n [= <-]. cbn. now rewrite Ej, Ef, Ee. }
        destruct (ask env w) as [a w1] eqn:Ea.
        apply ask_spec in Ea. destruct Ea as (-> & Hj & _).
        rewrite IH by exact Hdel. world_simpl. rewrite Hj, Hdel.
        rewrite (rmtree_no_fault _ _ _ d Ek), lookup_remove.
        destruct (String.eqb_spec name k) as [->|Hne].
        { rewrite Ek. cbn [expired]. rewrite Ej, Ef, Ee. reflexivity. }
        cbn [orb]. reflexivity.
    + apply Hskip. intros n [=].
Qed.

(** X16.  When deletions go through, the retention pass removes exactly the
    directories whose record is readable, COMPLETED, FAILED or CANCELLED and
    created before the cutoff; every other entry is left as it was. *)
Theorem retention_removes_exactly_the_expired :
  forall env cutoff w name,
    reliable_deletes env ->
    lookup name (jobs (retention env cutoff (names (jobs w)) w))
    = match lookup name (jobs w) with
      | Some n => if expired cutoff n then None else Some n
      | None => None
      end.
Proof.
  intros env cutoff w name Hdel. rewrite retention_lookup by exact Hdel.
  destruct (lookup name (jobs w)) as [n|] eqn:E; [|reflexivity].
  assert (H : existsb (String.eqb name) (names (jobs w)) = true).
  { apply existsb_exists. exists name. split.
    - eapply lookup_in_names; eauto.
    - apply String.eqb_refl. }
  now rewrite H, andb_true_r.
Qed.

Lemma retention_removes_exactly_the_expired_witness :
  reliable_deletes (Examples.steady Examples.raising)
  /\ lookup "A"
       (jobs (retention (Examples.steady Examples.raising) 100
                (names (jobs (fresh_world Examples.cancelled_store)))
                (fresh_world Examples.cancelled_store)))
     = None.
Proof.
  split; [apply steady_deletes|].
  rewrite (retention_removes_exactly_the_expired
             (Examples.steady Examples.raising) 100
             (fresh_world Examples.cancelled_store) "A"
             (steady_deletes Examples.raising)).
  vm_compute. reflexivity.
Defined.

(** ** The heartbeat after a processed job *)

Section AfterProcessing.

Variable env : Env.
Variable name : string.

Lemma hooks_locals ps job loc w :
  snd (fst (fold_left (fun st p => progress_hook env name p st) ps
              (job, loc, w)))
  = match ps with
    | [] => loc
    | _ => mkLocals (start_time loc) (id job) (attempts_of job)
                    (w_last_error loc) (last_cleanup loc)
    end.
Proof.
  revert job loc w. induction ps as [|p ps IH]; intros job loc w; [reflexivity|].
  cbn [fold_left]. unfold progress_hook at 2.
  destruct (ask env w) as [a w1].
  destruct (save_job _ _ _ _ _) as [s' r].
  rewrite IH. destruct ps; reflexivity.
Qed.

End AfterProcessing.

Section HeartbeatAfterJob.

Variable env : Env.

Lemma process_job_result name job loc w :
  fst (process_job env name job loc w)
  = (match ending (pipeline_call env w) with Interrupted => true | _ => false end,
     let loc2 :=
       match reports (pipeline_call env w) with
       | [] => loc
       | _ => mkLocals (start_time loc) (id job) (attempts_of job + 1)
                       (w_last_error loc) (last_cleanup loc)
       end in
     match ending (pipeline_call env w) with
     | Raised _ tb => with_last_error (Some tb) loc2
     | _ => loc2
     end).
Proof.
  unfold process_job, pipeline_call.
  destruct (ask env w) as [a0 w0] eqn:Ea0.
  apply ask_spec in Ea0. destruct Ea0 as (-> & _ & _ & _ & _ & Hc0).
  destruct (save_job _ _ _ _ (jobs w0)) as [s1 r1].
  destruct (ask env (with_jobs s1 w0)) as [a1 w1] eqn:Ea1.
  apply ask_spec in Ea1. destruct Ea1 as (-> & _).
  world_simpl. rewrite Hc0.
  pose proof (hooks_locals env name (reports (run (env (S (clock w)))))
                (claimed (now (env (clock w))) job) loc
                (record (Invoked name) w1)) as Hl.
  destruct (fold_left _ _ _) as [[job2 loc2] w2]. cbn [fst snd] in Hl.
  subst loc2.
  change (id (claimed (now (env (clock w))) job)) with (id job).
  change (attempts_of (claimed (now (env (clock w))) job))
    with (attempts_of job + 1).
  destruct (ending (run (env (S (clock w))))) as [res|exc tb|].
  - destruct (ask env w2) as [a2 w3]. destruct (save_job _ _ _ _ (jobs w3)).
    reflexivity.
  - destruct (ask env w2) as [a2 w3]. destruct (save_job _ _ _ _ (jobs w3)).
    reflexivity.
  - reflexivity.
Qed.

Lemma write_heartbeat_reliable pid loc w :
  save (env (clock w)) = no_fault ->
  heartbeat (write_heartbeat env pid loc w)
  = Holds (mkHeartbeat (now (env (clock w))) pid
             (now (env (clock w)) - start_time loc) "RUNNING"
             (last_job_id loc) (last_job_attempts loc) (w_last_error loc)).
Proof.
  intros Hs. unfold write_heartbeat.
  destruct (ask env w) as [a w1] eqn:Ea.
  apply ask_spec in Ea. destruct Ea as (-> & _).
  rewrite Hs. destruct (heartbeat_tmp w1); reflexivity.
Qed.

Lemma delete_by_age_heartbeat cutoff l w :
  heartbeat (delete_by_age env cutoff l w) = heartbeat w.
Proof.
  revert w. induction l as [|[name created] l IH]; cbn [delete_by_age];
    intros w; auto.
  destruct (_ && _); auto.
  destruct (ask env w) as [a w1] eqn:Ea.
  apply ask_spec in Ea. destruct Ea as (-> & _ & _ & Hh & _).
  rewrite IH. now world_simpl.
Qed.

Lemma prune_heartbeat l w : heartbeat (prune env l w) = heartbeat w.
Proof.
  revert w. induction l as [|[name created] l IH]; cbn [prune]; intros w; auto.
  destruct (ask env w) as [a w1] eqn:Ea.
  apply ask_spec in Ea. destruct Ea as (-> & _ & _ & Hh & _).
  rewrite IH. now world_simpl.
Qed.

Lemma cleanup_jobs_heartbeat max_jobs max_age_days w :
  heartbeat (_cleanup_jobs env max_jobs max_age_days w) = heartbeat w.
Proof.
  unfold _cleanup_jobs.
  destruct (gather _ (jobs w)) as [found|]; auto.
  destruct (ask env w) as [a w1] eqn:Ea.
  apply ask_spec in Ea. destruct Ea as (-> & _ & _ & Hh & _).
  destruct (gather _ _) as [found2|].
  - now rewrite prune_heartbeat, delete_by_age_heartbeat.
  - now rewrite delete_by_age_heartbeat.
Qed.

Lemma periodic_cleanup_heartbeat loc w :
  heartbeat (snd (periodic_cleanup env loc w)) = heartbeat w.
Proof.
  unfold periodic_cleanup.
  destruct (ask env w) as [a w1] eqn:Ea.
  apply ask_spec in Ea. destruct Ea as (-> & _ & _ & Hh & _).
  destruct (_ <? _); [|exact Hh].
  destruct (ask env (_cleanup_jobs env MAX_COMPLETED_JOBS MAX_JOB_AGE_DAYS w1))
    as [a2 w3] eqn:Ea2.
  apply ask_spec in Ea2. destruct Ea2 as (-> & _ & _ & Hh2 & _).
  cbn [snd]. now rewrite Hh2, cleanup_jobs_heartbeat.
Qed.

End HeartbeatAfterJob.

(** X18.  After a job has been claimed and processed without interruption,
    and with reliable writes, the heartbeat file holds a document with the
    worker's pid and status RUNNING.  It names the job (and its attempt
    count) only if the pipeline reported progress at least once: the two
    fields are set in the progress callback and nowhere else.  Its
    [last_error] is the traceback if the call raised. *)
Theorem heartbeat_follows_a_processed_job :
  forall env pid name loc w d job,
    lookup name (jobs w) = Some (Directory d) ->
    job_json d = Holds job ->
    lock d = false ->
    falsy job = false ->
    status_is "QUEUED" job = true ->
    lock_write (env (clock w)) = Written ->
    ending (visit_call env w) <> Interrupted ->
    reliable_saves env ->
    exists hb,
      heartbeat (snd (visit env pid name loc w)) = Holds hb
      /\ hb_pid hb = pid
      /\ hb_status hb = "RUNNING"%string
      /\ hb_last_job_id hb
         = match reports (visit_call env w) with
           | [] => last_job_id loc
           | _ => id job
           end
      /\ hb_last_job_attempts hb
         = match reports (visit_call env w) with
           | [] => last_job_attempts loc
           | _ => attempts_of job + 1
           end
      /\ hb_last_error hb
         = match ending (visit_call env w) with
           | Raised _ tb => Some tb
           | _ => w_last_error loc
           end.
Proof.
  intros env pid name loc w d job E Ej El Ef Hq Hw Hend Hrel.
  unfold visit. rewrite E. unfold load_job. rewrite E, Ej, Ef.
  assert (Hc : status_is "CANCELLED" job = false).
  { destruct (status_is "CANCELLED" job) eqn:Ec; [|reflexivity].
    pose proof (status_is_inj _ _ _ Hq Ec). discriminate. }
  rewrite Hc, Hq, El. cbn [negb].
  destruct (ask env w) as [a w1] eqn:Ea.
  apply ask_spec in Ea. destruct Ea as (-> & Hj & _ & _ & _ & Hck).
  rewrite Hw.
  set (w2 := record (Claimed name) _).
  assert (Hpc : pipeline_call env w2 = visit_call env w).
  { unfold pipeline_call, visit_call. subst w2. world_simpl. now rewrite Hck. }
  pose proof (process_job_result env name job loc w2) as Hres.
  rewrite Hpc in Hres.
  destruct (process_job env name job loc w2) as [[interrupted loc1] w3].
  cbn [fst] in Hres. injection Hres as Hi Hl.
  assert (interrupted = false) as ->.
  { subst interrupted. destruct (ending (visit_call env w)); congruence. }
  pose proof (periodic_cleanup_heartbeat env loc1 (write_heartbeat env pid loc1 w3))
    as Hp.
  destruct (periodic_cleanup env loc1 _) as [loc2 w4]. cbn [snd] in *.
  rewrite Hp, write_heartbeat_reliable by apply Hrel.
  eexists. split; [reflexivity|]. cbn.
  subst loc1.
  destruct (ending (visit_call env w)) as [res|exc tb|];
    destruct (reports (visit_call env w)); repeat split.
Qed.

Lemma heartbeat_follows_a_processed_job_witness :
  lookup "A" (jobs (fresh_world Examples.one_job))
  = Some (Directory Examples.one_job_dir)
  /\ job_json Examples.one_job_dir = Holds (initial_meta "A" 1 [] [])
  /\ ending (visit_call (Examples.steady Examples.raising)
               (fresh_world Examples.one_job)) <> Interrupted
  /\ reliable_saves (Examples.steady Examples.raising)
  /\ exists hb,
       heartbeat (snd (visit (Examples.steady Examples.raising) 7 "A"
                         (mkLocals 0 None 0 None 0)
                         (fresh_world Examples.one_job))) = Holds hb
       /\ hb_pid hb = 7
       /\ hb_last_job_id hb = Some "A"%string
       /\ hb_last_error hb = Some "traceback"%string.
Proof.
  assert (H : ending (visit_call (Examples.steady Examples.raising)
                        (fresh_world Examples.one_job)) <> Interrupted)
    by (vm_compute; discriminate).
  split; [reflexivity|]. split; [reflexivity|]. split; [exact H|].
  split; [apply steady_reliable|].
  destruct (heartbeat_follows_a_processed_job
              (Examples.steady Examples.raising) 7 "A"
              (mkLocals 0 None 0 None 0) (fresh_world Examples.one_job)
              Examples.one_job_dir (initial_meta "A" 1 [] [])
              eq_refl eq_refl eq_refl eq_refl eq_refl eq_refl H
              (steady_reliable Examples.raising))
    as (hb & H1 & H2 & _ & H4 & _ & H6).
  exists hb. repeat split; assumption.
Defined.

(** * The handler called by the worker *)

Import Handlers.

Lemma handler_failure_has_no_artifacts c msgs o :
  run_detection_and_collect c = (msgs, Gives o) ->
  o_status o = "FAILED"%string ->
  o_csv_bytes o = None /\ o_plots_zip o = None.
Proof.
  unfold run_detection_and_collect.
  destruct (input_mkdir c) as [[exc tb]|]; [discriminate|].
  destruct (save_uploads c) as [tb|]; [intros [= _ <-]; auto|].
  destruct (if c_mock_mode c then None else run_pipeline c) as [p|].
  2:{ intros [= _ <-]. discriminate. }
  destruct (pipeline_end p) as [|exc tb|]; [| |discriminate].
  - destruct (find_outputs c) as [[exc tb]|]; [discriminate|].
    intros [= _ <-]. discriminate.
  - intros [= _ <-]. auto.
Qed.

(** X19.  [run_detection_and_collect] turns the exceptions of
    [save_uploaded_files] and of [run_pipeline] into a returned dict: when the
    call returns, the status is FAILED exactly when one of the two raised (and
    COMPLETED otherwise); a FAILED dict carries the traceback under
    [last_error] and [logs] and no artifacts. *)
Theorem handler_returns_failures_as_dicts :
  forall c msgs o,
    run_detection_and_collect c = (msgs, Gives o) ->
    (o_status o = "FAILED"%string \/ o_status o = "COMPLETED"%string)
    /\ (o_status o = "FAILED"%string <->
        save_uploads c <> None
        \/ (c_mock_mode c = false
            /\ exists p exc tb,
                 run_pipeline c = Some p
                 /\ pipeline_end p = PipelineRaises exc tb))
    /\ (o_status o = "FAILED"%string ->
        o_csv_bytes o = None /\ o_plots_zip o = None
        /\ o_last_error o = Some (o_logs o)).
Proof.
  intros c msgs o. unfold run_detection_and_collect.
  destruct (input_mkdir c) as [[exc tb]|]; [discriminate|].
  destruct (save_uploads c) as [tb|].
  { intros [= _ <-]. cbn. split; [now left|]. split; [|auto].
    split; [intros _; left; discriminate|reflexivity]. }
  destruct (c_mock_mode c) eqn:Em.
  { intros [= _ <-]. cbn. split; [now right|]. split; [|discriminate].
    split; [discriminate|]. intros [H|[H _]]; [now elim H|discriminate]. }
  destruct (run_pipeline c) as [p|] eqn:Ep.
  2:{ intros [= _ <-]. cbn. split; [now right|]. split; [|discriminate].
      split; [discriminate|].
      intros [H|(_ & p & exc & tb & H & _)]; [now elim H|discriminate]. }
  destruct (pipeline_end p) as [|exc tb|] eqn:Ee; [| |discriminate].
  - destruct (find_outputs c) as [[exc tb]|]; [discriminate|].
    intros [= _ <-]. cbn. split; [now right|]. split; [|discriminate].
    split; [discriminate|].
    intros [H|(_ & p' & exc & tb & H & H')]; [now elim H|].
    injection H as <-. congruence.
  - intros [= _ <-]. cbn. split; [now left|]. split; [|auto].
    split; [|reflexivity]. intros _. right. split; [reflexivity|].
    exists p, exc, tb. auto.
Qed.

Lemma handler_returns_failures_as_dicts_witness :
  run_detection_and_collect Examples.failing_call
  = ([VStr "Loading input sequences"],
     Gives (_failure "Pipeline execution failed" (Some "traceback"%string) false))
  /\ (o_status (_failure "Pipeline execution failed" (Some "traceback"%string)
                  false) = "FAILED"%string
      \/ o_status (_failure "Pipeline execution failed"
                     (Some "traceback"%string) false) = "COMPLETED"%string).
Proof.
  split; [reflexivity|].
  exact (proj1 (handler_returns_failures_as_dicts Examples.failing_call _ _
                  eq_refl)).
Defined.

Lemma reported_last_error tps job :
  last_error (reported tps job) = last_error job.
Proof.
  unfold reported. revert job.
  induction tps as [|tp tps IH]; cbn [fold_left]; intros job; auto.
  now rewrite IH.
Qed.

(** X20.  The worker does not look at the status of the dict the handler
    returns.  When the handler reports a failure that way (the pipeline or the
    saving of the uploads raised inside it), the job is stored as COMPLETED
    with the handler's message and no output files; the traceback of the dict
    is not recorded and the job is not tried again. *)
Theorem failure_dict_is_stored_as_completed :
  forall env name job loc w d c msgs o,
    lookup name (jobs w) = Some (Directory d) ->
    pipeline_call env w = worker_view (run_detection_and_collect c) ->
    run_detection_and_collect c = (msgs, Gives o) ->
    o_status o = "FAILED"%string ->
    save (finishing_answer env w) = no_fault ->
    exists j',
      load_job name (jobs (snd (process_job env name job loc w))) = Return j'
      /\ status j' = Some "COMPLETED"%string
      /\ terminal j' = true
      /\ message j' = Some (o_message o)
      /\ output_files j' = Some []
      /\ last_error j' = last_error job
      /\ attempts j' = Some (attempts_of job + 1).
Proof.
  intros env name job loc w d c msgs o E Hcall Hrun Hst Hsave.
  destruct (handler_failure_has_no_artifacts c msgs o Hrun Hst) as [Hcsv Hzip].
  destruct (process_job_persists env name job loc w d E Hsave)
    as (times & _ & Hl).
  rewrite Hcall, Hrun in Hl. cbn [worker_view ending reports fst snd] in Hl.
  rewrite Hcsv, Hzip in Hl.
  eexists. split; [exact Hl|].
  set (j2 := reported _ _).
  assert (Hj2 : last_error j2 = last_error job
                /\ attempts j2 = Some (attempts_of job + 1)).
  { subst j2. rewrite reported_last_error.
    destruct (reported_keeps (combine times msgs)
                (claimed (now (env (clock w))) job)) as (_ & Ha & _).
    rewrite Ha. split; reflexivity. }
  destruct Hj2 as [He Ha].
  unfold completed, save_artifacts.
  destruct (mkdir_raises (artifacts (finishing_answer env w))) as [e|];
    cbn; rewrite He, Ha; repeat split.
Qed.

Lemma failure_dict_is_stored_as_completed_witness :
  lookup "A" (jobs (fresh_world Examples.one_job))
  = Some (Directory Examples.one_job_dir)
  /\ exists j',
       load_job "A"
         (jobs (snd (process_job
                       (Examples.steady
                          (worker_view
                             (run_detection_and_collect Examples.failing_call)))
                       "A" (initial_meta "A" 1 [] []) (mkLocals 0 None 0 None 0)
                       (fresh_world Examples.one_job)))) = Return j'
       /\ status j' = Some "COMPLETED"%string
       /\ message j' = Some "Pipeline execution failed"%string.
Proof.
  split; [reflexivity|].
  destruct (failure_dict_is_stored_as_completed
              (Examples.steady
                 (worker_view (run_detection_and_collect Examples.failing_call)))
              "A" (initial_meta "A" 1 [] []) (mkLocals 0 None 0 None 0)
              (fresh_world Examples.one_job) Examples.one_job_dir
              Examples.failing_call _ _ eq_refl eq_refl eq_refl eq_refl eq_refl)
    as (j' & H1 & H2 & _ & H4 & _).
  exists j'. auto.
Defined.

(** * The sweep and the unfinished or unreadable jobs *)

Lemma gather_raises l s name d :
  In name l -> lookup name s = Some (Directory d) ->
  (forall j, job_json d <> Holds j) ->
  exists e, gather l s = Raise e.
Proof.
  intros Hin E Hj. induction l as [|k l IH]; [destruct Hin|].
  cbn [gather]. destruct (String.eqb_spec k name) as [->|Hne].
  - rewrite E. unfold load_job. rewrite E.
    destruct (job_json d) as [| |j] eqn:Ej; eauto. now elim (Hj j).
  - destruct Hin as [->|Hin]; [congruence|].
    destruct (IH Hin) as [e He]. rewrite He.
    destruct (lookup k s) as [[m|d']|]; eauto.
    destruct (load_job k s); eauto.
Qed.

(** X21.  [_cleanup_jobs] loads every job directory inside one [try]: a
    single directory whose [job.json] is missing or unparseable makes the
    whole sweep give up, and nothing is deleted. *)
Theorem unreadable_job_disables_the_sweep :
  forall env max_jobs max_age_days w name d,
    lookup name (jobs w) = Some (Directory d) ->
    (forall j, job_json d <> Holds j) ->
    _cleanup_jobs env max_jobs max_age_days w = w.
Proof.
  intros env max_jobs max_age_days w name d E Hj. unfold _cleanup_jobs.
  destruct (gather_raises (names (jobs w)) (jobs w) name d) as [e ->]; auto.
  eapply lookup_in_names; eauto.
Qed.

Lemma unreadable_job_disables_the_sweep_witness :
  lookup "orphan" (jobs (fresh_world Examples.unreadable_store))
  = Some (Directory (new_dir 0))
  /\ _cleanup_jobs (Examples.steady Examples.raising) 0 0
       (fresh_world Examples.unreadable_store)
     = fresh_world Examples.unreadable_store.
Proof.
  split; [reflexivity|].
  apply (unreadable_job_disables_the_sweep (Examples.steady Examples.raising)
           0 0 (fresh_world Examples.unreadable_store) "orphan" (new_dir 0)
           eq_refl).
  intros j. discriminate.
Defined.

(** X22.  Whatever the medium does, [_cleanup_jobs] leaves every job that is
    neither COMPLETED nor FAILED exactly as it was: queued, running and
    cancelled jobs are never swept. *)
Theorem sweep_spares_unfinished_jobs :
  forall env max_jobs max_age_days w name d j,
    lookup name (jobs w) = Some (Directory d) ->
    job_json d = Holds j ->
    terminal j = false ->
    lookup name (jobs (_cleanup_jobs env max_jobs max_age_days w))
    = Some (Directory d).
Proof.
  intros env max_jobs max_age_days w name d j E Ej Et.
  rewrite (cleanup_jobs_frame env name max_jobs max_age_days w d j E Ej Et).
  exact E.
Qed.

Lemma sweep_spares_unfinished_jobs_witness :
  lookup "A" (jobs (fresh_world Examples.cancelled_store))
  = Some (Directory Examples.cancelled_dir)
  /\ job_json Examples.cancelled_dir = Holds Examples.cancelled_job
  /\ terminal Examples.cancelled_job = false
  /\ lookup "A"
       (jobs (_cleanup_jobs Examples.flaky 0 0
                (fresh_world Examples.cancelled_store)))
     = Some (Directory Examples.cancelled_dir).
Proof.
  split; [vm_compute; reflexivity|]. split; [vm_compute; reflexivity|].
  split; [vm_compute; reflexivity|].
  apply (sweep_spares_unfinished_jobs Examples.flaky 0 0
           (fresh_world Examples.cancelled_store) "A" Examples.cancelled_dir
           Examples.cancelled_job);
    vm_compute; reflexivity.
Defined.

(** * Orderly shutdown *)

Lemma shutdown_removes_pid env w :
  unlink_ok (env (clock w)) = true -> pid_file (shutdown env w) = Absent.
Proof.
  intros H. unfold shutdown.
  destruct (ask env w) as [a w1] eqn:Ea.
  apply ask_spec in Ea. destruct Ea as (-> & _).
  rewrite H, andb_true_r.
  assert (Hp : pid_file (if exists_ (pid_file w1)
                         then with_pid Absent (pid_tmp w1) w1 else w1) = Absent).
  { destruct (pid_file w1) eqn:Ep; cbn [exists_]; auto. }
  destruct (ask env (if exists_ (pid_file w1)
                     then with_pid Absent (pid_tmp w1) w1 else w1))
    as [a' w3] eqn:Ea'.
  assert (Hp3 : pid_file w3 = Absent).
  { rewrite <- Hp. change w3 with (snd (a', w3)). rewrite <- Ea'.
    reflexivity. }
  destruct (_ && _); exact Hp3.
Qed.

(** X23.  When the unlinks go through, a worker that stops leaves neither a
    pid file nor a heartbeat behind, so the health endpoint answers 503 and
    the supervisor finds the heartbeat stale. *)
Theorem stopped_worker_leaves_no_pid_or_heartbeat :
  forall env pid n w now,
    (forall t, unlink_ok (env t) = true) ->
    pid_file (run_worker_loop env pid n w) = Absent
    /\ heartbeat (run_worker_loop env pid n w) = Absent
    /\ HealthServer.do_GET "/health" (heartbeat (run_worker_loop env pid n w))
       = (503, HealthServer.UnknownDoc)
    /\ Supervise.stale
         (Supervise.read_hb (heartbeat (run_worker_loop env pid n w))) now
       = true.
Proof.
  intros env pid n w now Hu. unfold run_worker_loop.
  rewrite shutdown_removes_pid, shutdown_removes_heartbeat by apply Hu.
  repeat split.
Qed.

Lemma stopped_worker_leaves_no_pid_or_heartbeat_witness :
  (forall t, unlink_ok (Examples.steady Examples.raising t) = true)
  /\ pid_file (run_worker_loop (Examples.steady Examples.raising) 7 3
                 (fresh_world Examples.one_job)) = Absent.
Proof.
  split; [reflexivity|].
  exact (proj1 (stopped_worker_leaves_no_pid_or_heartbeat
                  (Examples.steady Examples.raising) 7 3
                  (fresh_world Examples.one_job) 0 (fun t => eq_refl))).
Defined.

(** * The attempts of one job *)

(** ** Every pipeline call costs one attempt *)

Lemma calls_app c tr tr' : calls c (tr ++ tr') = calls c tr + calls c tr'.
Proof. unfold calls. rewrite filter_app, length_app. lia. Qed.

Lemma calls_claimed c name : calls c [Claimed name] = 0.
Proof. reflexivity. Qed.

Lemma calls_invoked c name :
  calls c [Invoked name] = if String.eqb name c then 1 else 0.
Proof. unfold calls. cbn [filter]. destruct (String.eqb name c); reflexivity. Qed.

Section Stored.

Variable env : Env.
Variable name : string.
Hypothesis saves : reliable_saves env.

(** The record of the directory is the dict in the worker's hands. *)
Let in_step (job : Job) (s : Store) : Prop :=
  exists d, lookup name s = Some (Directory d) /\ job_json d = Holds job.

Lemma save_job_in_step t job s :
  is_dir name s -> in_step job (fst (save_job no_fault t name job s)).
Proof.
  intros [d E]. eexists. split.
  - apply lookup_save_job_same. exact E.
  - apply write_job_json_no_fault.
Qed.

Lemma hooks_stored ps job loc w :
  in_step job (jobs w) ->
  in_step (fst (fst (fold_left (fun st p => progress_hook env name p st) ps
                       (job, loc, w))))
          (jobs (snd (fold_left (fun st p => progress_hook env name p st) ps
                        (job, loc, w)))).
Proof.
  revert job loc w. induction ps as [|p ps IH]; intros job loc w H;
    cbn [fold_left]; [exact H|].
  assert (Hstep : in_step (fst (fst (progress_hook env name p (job, loc, w))))
                          (jobs (snd (progress_hook env name p (job, loc, w))))).
  { unfold progress_hook.
    destruct (ask env w) as [a w1] eqn:Ea.
    apply ask_spec in Ea. destruct Ea as (-> & Hj & _).
    rewrite saves.
    pose proof (save_job_in_step (now (env (clock w)))
                  (hooked (now (env (clock w))) p job) (jobs w1)) as Hs.
    destruct (save_job _ _ _ _ (jobs w1)) as [s' r]. cbn [fst snd] in *.
    world_simpl. apply Hs. rewrite Hj. destruct H as (d & E & _). now exists d. }
  destruct (progress_hook env name p (job, loc, w)) as [[job' loc'] w'].
  cbn [fst snd] in Hstep. now apply IH.
Qed.

Lemma release_lock_in_step job w :
  in_step job (jobs w) -> in_step job (jobs (release_lock env name w)).
Proof.
  intros (d & E & Ej). unfold release_lock. rewrite E.
  destruct (lock d); [|now exists d].
  destruct (ask env w) as [a w1] eqn:Ea.
  apply ask_spec in Ea. destruct Ea as (-> & Hj & _).
  destruct (unlink_ok _); world_simpl; rewrite ?Hj.
  - eexists. split; [eapply lookup_put_same; exact E|exact Ej].
  - now exists d.
Qed.

(** With saves that reach the disk, the record a claimed job leaves behind
    has one attempt more than the record the worker loaded. *)
Lemma process_job_stored job loc w :
  is_dir name (jobs w) ->
  exists j',
    in_step j' (jobs (snd (process_job env name job loc w)))
    /\ attempts_of j' = attempts_of job + 1.
Proof.
  intros Hd. unfold process_job.
  destruct (ask env w) as [a0 w0] eqn:Ea0.
  apply ask_spec in Ea0. destruct Ea0 as (-> & Hj0 & _).
  rewrite saves.
  pose proof (save_job_in_step (now (env (clock w)))
                (claimed (now (env (clock w))) job) (jobs w0)) as Hs1.
  destruct (save_job _ _ _ _ (jobs w0)) as [s1 r1]. cbn [fst] in Hs1.
  destruct (ask env (with_jobs s1 w0)) as [a1 w1] eqn:Ea1.
  apply ask_spec in Ea1. destruct Ea1 as (-> & Hj1 & _).
  world_simpl.
  set (ps := reports (run (env (clock w0)))) in *.
  pose proof (hooks_stored ps (claimed (now (env (clock w))) job) loc
                (record (Invoked name) w1)) as Hh.
  destruct (hooks_job env name ps (claimed (now (env (clock w))) job) loc
              (record (Invoked name) w1)) as (times & _ & Hjob).
  destruct (fold_left _ ps _) as [[job2 loc2] w2]. cbn [fst snd] in Hh, Hjob.
  assert (H2 : in_step job2 (jobs w2)).
  { apply Hh. world_simpl. rewrite Hj1. apply Hs1. now rewrite Hj0. }
  assert (Ha2 : attempts_of job2 = attempts_of job + 1).
  { subst job2. unfold attempts_of at 1.
    destruct (reported_keeps (combine times ps)
                (claimed (now (env (clock w))) job)) as (_ & -> & _).
    reflexivity. }
  destruct (ending (run (env (clock w0)))) as [res|exc tb|].
  - destruct (ask env w2) as [a2 w3] eqn:Ea2.
    apply ask_spec in Ea2. destruct Ea2 as (-> & Hj2 & _).
    rewrite saves.
    pose proof (save_job_in_step (now (env (clock w2)))
                  (completed (env (clock w2)) name res job2) (jobs w3)) as Hs3.
    destruct (save_job _ _ _ _ (jobs w3)) as [s3 r3]. cbn [fst snd] in *.
    eexists. split.
    + apply release_lock_in_step. world_simpl. apply Hs3.
      rewrite Hj2. destruct H2 as (d2 & E2 & _). now exists d2.
    + rewrite <- Ha2. unfold completed, attempts_of.
      destruct (save_artifacts _ _ _) as [results [e|]]; reflexivity.
  - destruct (ask env w2) as [a2 w3] eqn:Ea2.
    apply ask_spec in Ea2. destruct Ea2 as (-> & Hj2 & _).
    rewrite saves.
    pose proof (save_job_in_step (now (env (clock w2)))
                  (failed (now (env (clock w2))) exc tb job2) (jobs w3)) as Hs3.
    destruct (save_job _ _ _ _ (jobs w3)) as [s3 r3]. cbn [fst snd] in *.
    eexists. split.
    + apply release_lock_in_step. world_simpl. apply Hs3.
      rewrite Hj2. destruct H2 as (d2 & E2 & _). now exists d2.
    + rewrite <- Ha2. apply failed_cases.
  - cbn [snd]. exists job2. split; [|exact Ha2].
    now apply release_lock_in_step.
Qed.

End Stored.

(** Processing one job leaves the other directories alone. *)
Lemma process_job_other env name c job loc w :
  c <> name ->
  lookup c (jobs (snd (process_job env name job loc w))) = lookup c (jobs w).
Proof.
  intros Hne.
  apply (process_job_preserves env name
           (fun s => lookup c s = lookup c (jobs w)) (fun _ => True)).
  - intros. now rewrite lookup_save_job_other.
  - intros. now rewrite lookup_save_job_other.
  - intros. now rewrite lookup_save_job_other.
  - intros. now rewrite lookup_put_other.
  - auto.
  - auto.
  - reflexivity.
Qed.

Lemma process_job_trace env name job loc w :
  trace (snd (process_job env name job loc w)) = trace w ++ [Invoked name].
Proof.
  apply (process_job_preserves env name (fun _ => True) (fun _ => True)); auto.
Qed.

Section Accounting.

Variable env : Env.
Variable pid : Z.
Variable c : string.
Variable k : Z.
Hypothesis saves : reliable_saves env.

(** The attempts stored for [c] follow the number of pipeline calls made on
    it. *)
Let counted (w : World) : Prop :=
  JobAll c (fun j => attempts_of j = k + calls c (trace w)) (jobs w).

Lemma counted_poll_cycles n loc w :
  counted w -> counted (snd (poll_cycles env pid n loc w)).
Proof.
  apply (poll_cycles_preserves env pid counted).
  - intros w0 w' Hj Ht H. unfold counted. now rewrite Hj, Ht.
  - intros f t name w0 H. unfold counted. world_simpl. now apply joball_rmtree.
  - intros name d job t w0 H E Ej Eq El. unfold counted. world_simpl.
    now apply joball_relock.
  - intros name d job t loc0 w0 w1 H E Ej Eq El Hj1 Ht1.
    unfold counted. rewrite process_job_trace, Ht1, !calls_app.
    rewrite calls_claimed, calls_invoked.
    destruct (String.eqb_spec name c) as [->|Hne].
    + destruct (process_job_stored env c saves job loc0 w1)
        as (j' & (d' & E' & Ej') & Ha).
      { rewrite Hj1. eexists. eapply lookup_put_same; exact E. }
      intros d2 j2 E2 Ej2. rewrite E' in E2. injection E2 as <-.
      rewrite Ej' in Ej2. injection Ej2 as <-.
      rewrite Ha, (H d job E Ej). lia.
    + eapply joball_lookup_eq.
      * rewrite process_job_other by congruence. rewrite Hj1.
        apply lookup_put_other. congruence.
      * eapply joball_impl; [|exact H]. cbv beta. intros j Hj. lia.
Qed.

End Accounting.

(** C1, as amended.  Stated for one job [c].  While the polling loop of one
    worker runs, a record that respects the retry bound keeps respecting it:
    QUEUED with attempts below the maximum, RUNNING with attempts at most the
    maximum, FAILED with attempts equal to the maximum (r = 0).  A restart of
    the worker re-queues the job if it finds it RUNNING, without looking at
    its attempts, so each restart can add one attempt: after [r] restarts the
    bound is the maximum plus [r].  Every pipeline call on the job costs
    exactly one attempt: with saves that reach the disk, the stored attempts
    are the initial ones plus the number of calls made on the job.  An
    attempt that raises stores the new count and marks the job FAILED exactly
    when that count has reached the maximum (for r = 0: when it equals the
    maximum), and re-queues it otherwise. *)
Theorem retry_bound_up_to_restarts :
  forall env pid n w r c,
    0 <= r ->
    JobAll c (retry_inv r) (jobs w) ->
    (forall loc,
        JobAll c (retry_inv r) (jobs (snd (poll_cycles env pid n loc w))))
    /\ JobAll c (retry_inv (r + 1)) (jobs (run_worker_loop env pid n w))
    /\ (reliable_saves env ->
        forall loc a0,
          JobAll c (fun j => attempts_of j = a0) (jobs w) ->
          JobAll c
            (fun j =>
               attempts_of j
               = a0 + (calls c (trace (snd (poll_cycles env pid n loc w)))
                       - calls c (trace w)))
            (jobs (snd (poll_cycles env pid n loc w))))
    /\ (forall d job loc exc tb,
          lookup c (jobs w) = Some (Directory d) ->
          job_json d = Holds job ->
          status_is "QUEUED" job = true ->
          ending (pipeline_call env w) = Raised exc tb ->
          save (finishing_answer env w) = no_fault ->
          exists j',
            load_job c (jobs (snd (process_job env c job loc w))) = Return j'
            /\ attempts_of j' = attempts_of job + 1
            /\ attempts_of j' <= MAX_ATTEMPTS + r
            /\ (status_is "FAILED" j' = true <-> MAX_ATTEMPTS <= attempts_of j')
            /\ (status_is "QUEUED" j' = true <-> attempts_of j' < MAX_ATTEMPTS)
            /\ (r = 0 ->
                (status_is "FAILED" j' = true
                 <-> attempts_of j' = MAX_ATTEMPTS))).
Proof.
  intros env pid n w r c Hr H. split; [|split; [|split]].
  - intros loc. now apply job_retry_inv_poll_cycles.
  - now apply job_retry_inv_run_worker_loop.
  - intros Hsaves loc a0 H0.
    pose proof (counted_poll_cycles env pid c (a0 - calls c (trace w)) Hsaves
                  n loc w) as Hc.
    eapply joball_impl; [|apply Hc].
    + cbv beta. intros j Hj. lia.
    + eapply joball_impl; [|exact H0]. cbv beta. intros j Hj. lia.
  - intros d job loc exc tb E Ej Eq Hend Hsave.
    destruct (process_job_persists env c job loc w d E Hsave)
      as (times & _ & Hl).
    rewrite Hend in Hl. eexists. split; [exact Hl|].
    set (j2 := reported _ _).
    assert (Hat : attempts_of j2 = attempts_of job + 1).
    { unfold attempts_of at 1. subst j2.
      destruct (reported_keeps
                  (combine times (reports (pipeline_call env w)))
                  (claimed (now (env (clock w))) job)) as (_ & -> & _).
      reflexivity. }
    destruct (failed_cases (now (finishing_answer env w)) exc tb j2)
      as (Ha & Hf & Hq & _).
    destruct (H d job E Ej) as (Hb & _). specialize (Hb Eq).
    rewrite Ha, Hat. rewrite Hat in Hf, Hq.
    split; [reflexivity|]. split; [lia|]. split; [exact Hf|].
    split; [exact Hq|].
    intros ->. rewrite Hf. lia.
Qed.

Lemma retry_bound_up_to_restarts_witness :
  0 <= 0
  /\ JobAll "A" (retry_inv 0) (jobs (fresh_world Examples.one_job))
  /\ JobAll "A" (retry_inv 0)
       (jobs (snd (poll_cycles (Examples.steady Examples.raising) 7 3
                     (mkLocals 0 None 0 None 0)
                     (fresh_world Examples.one_job))))
  /\ persisted "A"
       (jobs (snd (poll_cycles (Examples.steady Examples.raising) 7 1
                     (mkLocals 0 None 0 None 0)
                     (fresh_world Examples.one_job))))
     = Some (Some "QUEUED"%string, Some 1)
  /\ persisted "A"
       (jobs (snd (poll_cycles (Examples.steady Examples.raising) 7 2
                     (mkLocals 0 None 0 None 0)
                     (fresh_world Examples.one_job))))
     = Some (Some "FAILED"%string, Some 2)
  /\ persisted "A"
       (jobs (snd (poll_cycles (Examples.steady Examples.raising) 7 3
                     (mkLocals 0 None 0 None 0)
                     (fresh_world Examples.one_job))))
     = Some (Some "FAILED"%string, Some 2).
Proof.
  assert (H : JobAll "A" (retry_inv 0) (jobs (fresh_world Examples.one_job)))
    by (intros d j; apply fresh_job_retry_inv).
  split; [lia|]. split; [exact H|]. split.
  - exact (proj1 (retry_bound_up_to_restarts
                    (Examples.steady Examples.raising) 7 3
                    (fresh_world Examples.one_job) 0 "A" ltac:(lia) H)
                 (mkLocals 0 None 0 None 0)).
  - repeat split; vm_compute; reflexivity.
Defined.

(** * Artifacts that cannot be written *)

Lemma save_artifacts_refused f name res e written :
  refused_write f name res e written ->
  save_artifacts f name res = (written, Some e).
Proof.
  intros H. unfold save_artifacts.
  destruct H as [res e Hm|r b e Hm Hc He|r z e Hm Hc Hp He
                |r b z e Hm Hc Hcr Hp He].
  - now rewrite Hm.
  - now rewrite Hm, Hc, He.
  - now rewrite Hm, Hc, Hp, He.
  - now rewrite Hm, Hc, Hcr, Hp, He.
Qed.

(** Whenever some write of the artifacts raises, it is one of the refusals
    above. *)
Lemma save_artifacts_raises f name res e :
  snd (save_artifacts f name res) = Some e ->
  exists written, refused_write f name res e written.
Proof.
  unfold save_artifacts.
  destruct (mkdir_raises f) as [e0|] eqn:Hm.
  { intros [= <-]. eexists. now apply refused_mkdir. }
  destruct res as [r|]; [|discriminate].
  destruct (csv_bytes r) as [b|] eqn:Hc.
  - destruct (csv_raises f) as [e0|] eqn:He.
    + intros [= <-]. eexists. eapply refused_csv; eauto.
    + destruct (plots_zip r) as [z|] eqn:Hp; [|discriminate].
      destruct (plots_raises f) as [e0|] eqn:Hpe; [|discriminate].
      intros [= <-]. eexists. eapply refused_plots_after_csv; eauto.
  - destruct (plots_zip r) as [z|] eqn:Hp; [|discriminate].
    destruct (plots_raises f) as [e0|] eqn:Hpe; [|discriminate].
    intros [= <-]. eexists. eapply refused_plots; eauto.
Qed.

Section ReturnedCall.

Variable env : Env.
Variable name : string.
Variable I : Store -> Prop.
Variable D : Job -> Prop.
Hypothesis I_inflight :
  forall f t j s, D j -> I s -> I (fst (save_job f t name j s)).
Hypothesis I_completed :
  forall f t a res j s,
    D j -> I s -> I (fst (save_job f t name (completed a name res j) s)).
Hypothesis I_unlock :
  forall t d s,
    lookup name s = Some (Directory d) -> I s ->
    I (put name (Directory (touch t (with_lock false d))) s).
Hypothesis D_hooked : forall t p j, D j -> D (hooked t p j).

(** A pipeline call that returns never reaches the [except] branch. *)
Lemma process_job_returned_preserves job loc w res :
  ending (pipeline_call env w) = Returned res ->
  (forall t, D (claimed t job)) -> I (jobs w) ->
  I (jobs (snd (process_job env name job loc w))).
Proof.
  intros Hend HD HI. unfold pipeline_call in Hend. unfold process_job.
  destruct (ask env w) as [a0 w0] eqn:Ea0.
  apply ask_spec in Ea0. destruct Ea0 as (-> & Hj0 & _ & _ & _ & Hc0).
  pose proof (I_inflight (save (env (clock w))) (now (env (clock w)))
                (claimed (now (env (clock w))) job) (jobs w0)) as Hs1.
  destruct (save_job _ _ _ _ (jobs w0)) as [s1 r1]. cbn [fst] in Hs1.
  destruct (ask env (with_jobs s1 w0)) as [a1 w1] eqn:Ea1.
  apply ask_spec in Ea1. destruct Ea1 as (-> & Hj1 & _).
  world_simpl. rewrite Hc0, Hend.
  pose proof (hooks_preserve env name I D I_inflight D_hooked
                (reports (run (env (S (clock w)))))
                (claimed (now (env (clock w))) job) loc
                (record (Invoked name) w1)) as Hh.
  cbv zeta in Hh.
  destruct (fold_left _ _ _) as [[job2 loc2] w2]. cbn [fst snd] in Hh.
  destruct Hh as (HD2 & HI2 & _).
  { apply HD. }
  { world_simpl. rewrite Hj1. apply Hs1; [apply HD|]. now rewrite Hj0. }
  destruct (ask env w2) as [a2 w3] eqn:Ea2.
  apply ask_spec in Ea2. destruct Ea2 as (-> & Hj2 & _).
  pose proof (I_completed (save (env (clock w2))) (now (env (clock w2)))
                (env (clock w2)) res job2 (jobs w3) HD2) as Hs3.
  destruct (save_job _ _ _ _ (jobs w3)) as [s3 r3]. cbn [fst snd] in *.
  apply (release_lock_preserves env name I I_unlock).
  world_simpl. apply Hs3. now rewrite Hj2.
Qed.

End ReturnedCall.

(** C9.  When the pipeline call returns and a write of the artifacts is
    refused (the output folder cannot be made, the results table or the plots
    archive cannot be written), the attempt is not treated as a failure:
    whatever the saves do, the call is not interrupted, the worker records no
    error, and the stored record is never FAILED and never re-queued.  When
    the last save reaches the disk the job is stored as COMPLETED, with the
    error of the refused write appended to its worker notes and the
    artifacts written before it as its output files. *)
Theorem artifact_failure_still_completes :
  forall env name job loc w d res e written,
    lookup name (jobs w) = Some (Directory d) ->
    job_json d = Holds job ->
    status_is "QUEUED" job = true ->
    ending (pipeline_call env w) = Returned res ->
    refused_write (artifacts (finishing_answer env w)) name res e written ->
    fst (fst (process_job env name job loc w)) = false
    /\ w_last_error (snd (fst (process_job env name job loc w)))
       = w_last_error loc
    /\ JobAll name
         (fun j => status_is "FAILED" j = false
                   /\ (status_is "QUEUED" j = true -> j = job))
         (jobs (snd (process_job env name job loc w)))
    /\ (save (finishing_answer env w) = no_fault ->
        exists j',
          load_job name (jobs (snd (process_job env name job loc w)))
          = Return j'
          /\ status j' = Some "COMPLETED"%string
          /\ worker_notes j'
             = Some (String.append (notes_of job)
                       (String.append nl
                          (String.append "Artifact save error: " e)))
          /\ output_files j' = Some (map VStr written)
          /\ attempts j' = Some (attempts_of job + 1)
          /\ last_error j' = last_error job).
Proof.
  intros env name job loc w d res e written E Ej Eq Hend Href.
  split; [|split; [|split]].
  - rewrite process_job_result, Hend. reflexivity.
  - rewrite process_job_result, Hend. cbn [snd].
    destruct (reports (pipeline_call env w)); reflexivity.
  - eapply joball_impl;
      [|apply (process_job_returned_preserves env name
                 (JobAll name
                    (fun j => j = job \/ status_is "RUNNING" j = true
                              \/ status_is "COMPLETED" j = true))
                 (fun j => status_is "RUNNING" j = true))
          with (res := res)].
    + cbv beta. intros j [->|[Hr|Hc]].
      * split; [|reflexivity].
        destruct (status_is "FAILED" job) eqn:Ef; [|reflexivity].
        pose proof (status_is_inj _ _ _ Eq Ef). discriminate.
      * split.
        -- destruct (status_is "FAILED" j) eqn:Ef; [|reflexivity].
           pose proof (status_is_inj _ _ _ Hr Ef). discriminate.
        -- intros Hq. pose proof (status_is_inj _ _ _ Hr Hq). discriminate.
      * split.
        -- destruct (status_is "FAILED" j) eqn:Ef; [|reflexivity].
           pose proof (status_is_inj _ _ _ Hc Ef). discriminate.
        -- intros Hq. pose proof (status_is_inj _ _ _ Hc Hq). discriminate.
    + intros. apply joball_save_job; auto.
    + intros. apply joball_save_job; auto. intros _. right. right.
      unfold status_is. now rewrite status_completed.
    + intros. now apply joball_relock.
    + intros t p j Hj. exact Hj.
    + exact Hend.
    + reflexivity.
    + intros d0 j0 E0 Ej0. left. congruence.
  - intros Hsave.
    destruct (process_job_persists env name job loc w d E Hsave)
      as (times & _ & Hl).
    rewrite Hend in Hl. eexists. split; [exact Hl|].
    set (j2 := reported _ _).
    destruct (reported_keeps (combine times (reports (pipeline_call env w)))
                (claimed (now (env (clock w))) job)) as (_ & Ha & Hn & _).
    pose proof (reported_last_error
                  (combine times (reports (pipeline_call env w)))
                  (claimed (now (env (clock w))) job)) as He.
    fold j2 in Ha, Hn, He.
    assert (Hno : notes_of j2 = notes_of job).
    { unfold notes_of at 1. rewrite Hn. reflexivity. }
    unfold completed. rewrite (save_artifacts_refused _ _ _ _ _ Href).
    split; [reflexivity|]. split; [rewrite <- Hno; reflexivity|].
    split; [reflexivity|]. split; [exact Ha|exact He].
Qed.

Lemma artifact_failure_still_completes_witness :
  lookup "A" (jobs (fresh_world Examples.one_job))
  = Some (Directory Examples.one_job_dir)
  /\ job_json Examples.one_job_dir = Holds (initial_meta "A" 1 [] [])
  /\ ending (pipeline_call Examples.archive_refused
               (fresh_world Examples.one_job))
     = Returned (Some Examples.full_result)
  /\ refused_write
       (artifacts (finishing_answer Examples.archive_refused
                     (fresh_world Examples.one_job)))
       "A" (Some Examples.full_result) "No space left on device"
       [csv_path "A"]
  /\ save (finishing_answer Examples.archive_refused
             (fresh_world Examples.one_job)) = no_fault
  /\ (exists j',
       load_job "A"
         (jobs (snd (process_job Examples.archive_refused "A"
                       (initial_meta "A" 1 [] []) (mkLocals 0 None 0 None 0)
                       (fresh_world Examples.one_job))))
       = Return j'
       /\ status j' = Some "COMPLETED"%string
       /\ worker_notes j'
          = Some (String.append (notes_of (initial_meta "A" 1 [] []))
                    (String.append nl
                       (String.append "Artifact save error: "
                          "No space left on device")))
       /\ output_files j' = Some [VStr (csv_path "A")]
       /\ attempts j' = Some 1)
  /\ refused_write
       (artifacts (finishing_answer Examples.disk_full
                     (fresh_world Examples.one_job)))
       "A" (Some Examples.csv_result) "No space left on device" []
  /\ (exists j',
       load_job "A"
         (jobs (snd (process_job Examples.disk_full "A"
                       (initial_meta "A" 1 [] []) (mkLocals 0 None 0 None 0)
                       (fresh_world Examples.one_job))))
       = Return j'
       /\ status j' = Some "COMPLETED"%string
       /\ output_files j' = Some []).
Proof.
  assert (Href : refused_write
                   (artifacts (finishing_answer Examples.archive_refused
                                 (fresh_world Examples.one_job)))
                   "A" (Some Examples.full_result) "No space left on device"
                   [csv_path "A"]).
  { eapply refused_plots_after_csv; reflexivity. }
  assert (Href2 : refused_write
                    (artifacts (finishing_answer Examples.disk_full
                                  (fresh_world Examples.one_job)))
                    "A" (Some Examples.csv_result) "No space left on device"
                    []).
  { eapply refused_csv; reflexivity. }
  split; [reflexivity|]. split; [reflexivity|]. split; [reflexivity|].
  split; [exact Href|]. split; [reflexivity|]. split; [|split; [exact Href2|]].
  - destruct (proj2 (proj2 (proj2
                (artifact_failure_still_completes Examples.archive_refused "A"
                   (initial_meta "A" 1 [] []) (mkLocals 0 None 0 None 0)
                   (fresh_world Examples.one_job) Examples.one_job_dir
                   (Some Examples.full_result) "No space left on device"
                   [csv_path "A"] eq_refl eq_refl eq_refl eq_refl Href)))
                eq_refl)
      as (j' & H1 & H2 & H3 & H4 & H5 & _).
    exists j'. repeat split; assumption.
  - destruct (proj2 (proj2 (proj2
                (artifact_failure_still_completes Examples.disk_full "A"
                   (initial_meta "A" 1 [] []) (mkLocals 0 None 0 None 0)
                   (fresh_world Examples.one_job) Examples.one_job_dir
                   (Some Examples.csv_result) "No space left on device"
                   [] eq_refl eq_refl eq_refl eq_refl Href2)))
                eq_refl)
      as (j' & H1 & H2 & _ & H4 & _).
    exists j'. repeat split; assumption.
Defined.

(** * The lock marker of a claimed job *)

Section LockMarker.

Variable env : Env.
Variable c : string.

(** The directory [c] is there and its lock marker is [b]. *)
Let marked (b : bool) (s : Store) : Prop :=
  exists d, lookup c s = Some (Directory d) /\ lock d = b.

Lemma save_job_marked b f t data s :
  marked b s -> marked b (fst (save_job f t c data s)).
Proof.
  intros (d & E & El). eexists. split.
  - apply lookup_save_job_same. exact E.
  - now rewrite write_job_json_lock.
Qed.

(** Up to its [finally], a claimed job leaves the marker as it found it. *)
Lemma process_job_before_release b job loc w :
  marked b (jobs w) ->
  exists w',
    snd (process_job env c job loc w) = release_lock env c w'
    /\ marked b (jobs w').
Proof.
  intros Hm. unfold process_job.
  destruct (ask env w) as [a0 w0] eqn:Ea0.
  apply ask_spec in Ea0. destruct Ea0 as (-> & Hj0 & _).
  pose proof (save_job_marked b (save (env (clock w))) (now (env (clock w)))
                (claimed (now (env (clock w))) job) (jobs w0)) as Hs1.
  destruct (save_job _ _ _ _ (jobs w0)) as [s1 r1]. cbn [fst] in Hs1.
  destruct (ask env (with_jobs s1 w0)) as [a1 w1] eqn:Ea1.
  apply ask_spec in Ea1. destruct Ea1 as (-> & Hj1 & _).
  world_simpl.
  pose proof (hooks_preserve env c (marked b) (fun _ => True)
                (fun f t j s _ H => save_job_marked b f t j s H)
                (fun t p j H => H)
                (reports (run (env (clock w0))))
                (claimed (now (env (clock w))) job) loc
                (record (Invoked c) w1)) as Hh.
  cbv zeta in Hh.
  destruct (fold_left _ _ _) as [[job2 loc2] w2]. cbn [fst snd] in Hh.
  destruct Hh as (_ & H2 & _).
  { exact I. }
  { world_simpl. rewrite Hj1. apply Hs1. now rewrite Hj0. }
  destruct (ending (run (env (clock w0)))) as [res|exc tb|].
  - destruct (ask env w2) as [a2 w3] eqn:Ea2.
    apply ask_spec in Ea2. destruct Ea2 as (-> & Hj2 & _).
    rewrite <- Hj2 in H2.
    pose proof (save_job_marked b (save (env (clock w2)))
                  (now (env (clock w2)))
                  (completed (env (clock w2)) c res job2) (jobs w3) H2) as Hs3.
    destruct (save_job _ _ _ _ (jobs w3)) as [s3 r3]. cbn [fst snd] in *.
    exists (with_jobs s3 w3). split; [reflexivity|]. now world_simpl.
  - destruct (ask env w2) as [a2 w3] eqn:Ea2.
    apply ask_spec in Ea2. destruct Ea2 as (-> & Hj2 & _).
    rewrite <- Hj2 in H2.
    pose proof (save_job_marked b (save (env (clock w2)))
                  (now (env (clock w2)))
                  (failed (now (env (clock w2))) exc tb job2) (jobs w3) H2)
      as Hs3.
    destruct (save_job _ _ _ _ (jobs w3)) as [s3 r3]. cbn [fst snd] in *.
    exists (with_jobs s3 w3). split; [reflexivity|]. now world_simpl.
  - cbn [snd]. exists w2. auto.
Qed.

Lemma release_lock_marked w :
  marked true (jobs w) ->
  marked (negb (unlink_ok (env (clock w)))) (jobs (release_lock env c w)).
Proof.
  intros (d & E & El). unfold release_lock. rewrite E, El.
  destruct (ask env w) as [a w1] eqn:Ea.
  apply ask_spec in Ea. destruct Ea as (-> & Hj & _).
  destruct (unlink_ok (env (clock w))); cbn [negb].
  - world_simpl. rewrite Hj. eexists. split.
    + eapply lookup_put_same; exact E.
    + reflexivity.
  - rewrite Hj. now exists d.
Qed.

Lemma rmtree_unmarked f t name s :
  (forall d, lookup c s = Some (Directory d) -> lock d = false) ->
  forall d, lookup c (rmtree f t name s) = Some (Directory d) -> lock d = false.
Proof.
  intros H d. destruct (String.eqb_spec name c) as [->|Hne].
  - unfold rmtree.
    destruct (lookup c s) as [[m|d0]|] eqn:E; try (rewrite E; discriminate).
    destruct (_ && _).
    + rewrite lookup_remove, String.eqb_refl. discriminate.
    + rewrite (lookup_put_same _ _ _ _ E). intros [= <-].
      rewrite lock_touch_if. cbn [lock]. now rewrite (H d0 eq_refl).
  - rewrite (lookup_rmtree_other c f t name s Hne). apply H.
Qed.

(** The heartbeat and the periodic sweep that follow a processed job. *)
Lemma after_job_trace pid loc w :
  trace (snd (periodic_cleanup env loc (write_heartbeat env pid loc w)))
  = trace w.
Proof.
  apply (periodic_cleanup_preserves env (fun w0 => trace w0 = trace w)).
  - intros w0 w' _ Hx Hy. cbv beta in *. congruence.
  - intros f t name w0 Hy. cbv beta in *. now world_simpl.
  - apply (write_heartbeat_preserves env (fun w0 => trace w0 = trace w)).
    + intros w0 w' _ Hx Hy. cbv beta in *. congruence.
    + reflexivity.
Qed.

Lemma after_job_unmarked pid loc w :
  (forall d, lookup c (jobs w) = Some (Directory d) -> lock d = false) ->
  forall d,
    lookup c (jobs (snd (periodic_cleanup env loc
                           (write_heartbeat env pid loc w))))
    = Some (Directory d) ->
    lock d = false.
Proof.
  intros H.
  apply (periodic_cleanup_preserves env
           (fun w0 => forall d, lookup c (jobs w0) = Some (Directory d) ->
                                lock d = false)).
  - intros w0 w' Hx _ Hy. cbv beta in *. now rewrite Hx.
  - intros f t name w0 Hy. cbv beta in *. world_simpl.
    now apply rmtree_unmarked.
  - apply (write_heartbeat_preserves env
             (fun w0 => forall d, lookup c (jobs w0) = Some (Directory d) ->
                                  lock d = false)).
    + intros w0 w' Hx _ Hy. cbv beta in *. now rewrite Hx.
    + exact H.
Qed.

End LockMarker.

(** X17.  The lock marker that [run_worker_loop] writes when it claims a job
    is removed again by the [finally] of that job, whichever way the pipeline
    call ended (returned, raised, or cut short by a [BaseException]), as long
    as the unlinks go through: after the visit the directory, if the sweep
    has left it, carries no marker.  When the call is interrupted and the
    unlink is refused, the marker stays.  (Records whose [attempts] is a
    number or missing: on any other the bump before the [try] raises and the
    marker stays.) *)
Theorem lock_is_released_after_every_ending :
  forall env pid c loc w d job,
    lookup c (jobs w) = Some (Directory d) ->
    job_json d = Holds job ->
    status_is "QUEUED" job = true ->
    lock d = false ->
    lock_write (env (clock w)) = Written ->
    trace (snd (visit env pid c loc w)) = trace w ++ [Claimed c; Invoked c]
    /\ ((forall t, unlink_ok (env t) = true) ->
        forall d',
          lookup c (jobs (snd (visit env pid c loc w))) = Some (Directory d') ->
          lock d' = false)
    /\ (ending (visit_call env w) = Interrupted ->
        exists d',
          lookup c (jobs (snd (visit env pid c loc w))) = Some (Directory d')
          /\ ((forall t, unlink_ok (env t) = true) -> lock d' = false)
          /\ ((forall t, unlink_ok (env t) = false) -> lock d' = true)).
Proof.
  intros env pid c loc w d job E Ej Eq El Hw.
  unfold visit. rewrite E. unfold load_job. rewrite E, Ej.
  rewrite (status_is_not_falsy _ _ Eq).
  assert (Hc : status_is "CANCELLED" job = false).
  { destruct (status_is "CANCELLED" job) eqn:Ec; [|reflexivity].
    pose proof (status_is_inj _ _ _ Eq Ec). discriminate. }
  rewrite Hc, Eq, El. cbn [negb].
  destruct (ask env w) as [a w1] eqn:Ea.
  apply ask_spec in Ea. destruct Ea as (-> & Hj & Ht & _ & _ & Hck).
  rewrite Hw.
  set (w2 := record (Claimed c) _).
  assert (Hm : exists d0, lookup c (jobs w2) = Some (Directory d0)
                          /\ lock d0 = true).
  { subst w2. world_simpl. rewrite Hj. eexists. split.
    - eapply lookup_put_same; exact E.
    - reflexivity. }
  assert (Ht2 : trace w2 = trace w ++ [Claimed c]).
  { subst w2. world_simpl. now rewrite Ht. }
  assert (Hpc : pipeline_call env w2 = visit_call env w).
  { unfold pipeline_call, visit_call. subst w2. world_simpl. now rewrite Hck. }
  pose proof (process_job_result env c job loc w2) as Hres.
  pose proof (process_job_trace env c job loc w2) as Htr.
  destruct (process_job_before_release env c true job loc w2 Hm)
    as (w' & Hrel & Hm').
  pose proof (release_lock_marked env c w' Hm') as Hafter.
  rewrite <- Hrel in Hafter.
  rewrite Hpc in Hres.
  destruct (process_job env c job loc w2) as [[interrupted loc1] w3].
  cbn [fst snd] in *. injection Hres as Hi _.
  rewrite Ht2, <- app_assoc in Htr. cbn [app] in Htr.
  destruct (ending (visit_call env w)) as [res|exc tb|] eqn:Hend;
    subst interrupted.
  1,2: pose proof (after_job_trace env pid loc1 w3) as Hct;
       pose proof (after_job_unmarked env c pid loc1 w3) as Hcl;
       destruct (periodic_cleanup env loc1 _) as [loc2 w4]; cbn [snd] in *;
       (split; [congruence|split; [|discriminate]]);
       intros Hu; apply Hcl;
       destruct Hafter as (d3 & E3 & El3);
       intros d' Ed'; rewrite E3 in Ed'; injection Ed' as <-;
       now rewrite El3, Hu.
  cbn [fst snd]. split; [exact Htr|].
  destruct Hafter as (d3 & E3 & El3). split.
  - intros Hu d' Ed'. rewrite E3 in Ed'. injection Ed' as <-.
    now rewrite El3, Hu.
  - intros _. exists d3. split; [exact E3|]. split; intros Hu.
    + now rewrite El3, Hu.
    + now rewrite El3, Hu.
Qed.

Lemma lock_is_released_after_every_ending_witness :
  lookup "A" (jobs (fresh_world Examples.one_job))
  = Some (Directory Examples.one_job_dir)
  /\ job_json Examples.one_job_dir = Holds (initial_meta "A" 1 [] [])
  /\ lock Examples.one_job_dir = false
  /\ lock_write (Examples.steady Examples.interrupted 0%nat) = Written
  /\ trace (snd (visit (Examples.steady Examples.interrupted) 7 "A"
                   (mkLocals 0 None 0 None 0) (fresh_world Examples.one_job)))
     = [Claimed "A"; Invoked "A"]
  /\ exists d',
       lookup "A"
         (jobs (snd (visit (Examples.steady Examples.interrupted) 7 "A"
                       (mkLocals 0 None 0 None 0)
                       (fresh_world Examples.one_job))))
       = Some (Directory d')
       /\ lock d' = false.
Proof.
  split; [reflexivity|]. split; [reflexivity|]. split; [reflexivity|].
  split; [reflexivity|].
  destruct (lock_is_released_after_every_ending
              (Examples.steady Examples.interrupted) 7 "A"
              (mkLocals 0 None 0 None 0) (fresh_world Examples.one_job)
              Examples.one_job_dir (initial_meta "A" 1 [] [])
              eq_refl eq_refl eq_refl eq_refl eq_refl)
    as (H1 & _ & H3).
  split; [exact H1|].
  destruct (H3 eq_refl) as (d' & E' & Hok & _).
  exists d'. split; [exact E'|]. apply Hok. reflexivity.
Defined.
